(** * Gated working memory and trace learning of leabrax, embedded in Rocq

    The development follows three source files of the repository:
    - [pcore/matrix.go]: the Matrix layer's dopamine derivation ([DAActLrn])
      and the Matrix projection's trace learning rule ([DWt]), with the
      defaults, [InitActs], [SetACh], the unit variables, [Build],
      [ClearTrace] and [InitWts];
    - [agate/neuron.go] (package pbwm, and [init] of package agate): the PFC
      deep layer's gating state machine ([Gating], [ClearMaint],
      [UpdtGateCnt], [DeepMaint]), with the defaults, [Build], [InitActs],
      [QuarterFinal], [RecGateAct] and [DoQuarter2DWt];
    - [pvlv/pv_layer.go]: the primary value broadcast ([SendPVAct],
      [CyclePost]), with [AddPVReceiver] and [Build].

    Conventions of the embedding.
    - A Go [int] is a [Z] kept in the 64-bit two's complement range by
      [Go.wrap]; slices are lists, an index expression is [Go.index].
    - A computation that can stop in a Go run-time panic (index out of
      range, nil dereference, failed type assertion, integer division by
      zero) returns an [option]: [None] is the panic.
    - The [float32] operations are an interface ([Float32]); the code is
      embedded over any implementation of it.  Statements that only depend
      on the order of the operations are proved for every implementation;
      statements that need arithmetic facts are proved for the exact
      rational implementation [Float32_Q].
    - Functions of the repository's packages that the three files call but
      do not define (for example [leabra.Layer.DecayStatePool]) are the
      fields of the class [LeabraExt]: the statements hold for every
      implementation of them.  The methods of the embedded layer and
      projection types that a method of the three files calls first
      ([Layer.InitActs], [Prjn.Build], ...), and the quarter constants of
      package leabra, are variables of the sections [more_methods], and so
      arguments of the embedded method.
    - A network is the map from layer names to layers that [LayerByName]
      looks up; a method that writes layers other than its receiver takes
      the network and the receiver's name and returns the network.

    The file has the definitions first (the embedding, concrete inputs and
    the predicates of the statements), then the lemmas and theorems. *)

From Stdlib Require Import ZArith QArith Qminmax Qabs Lqa Lia String.
From stdpp Require Import base option list gmap strings.

Open Scope Z_scope.

(** ** Go integers, indexing and loops *)

Module Go.

Definition int_min : Z := - 2 ^ 63.
Definition int_max : Z := 2 ^ 63 - 1.

(** Two's complement wrap-around of a 64-bit [int]. *)
Definition wrap (z : Z) : Z := (z - int_min) mod 2 ^ 64 + int_min.

Definition add (a b : Z) : Z := wrap (a + b).
Definition sub (a b : Z) : Z := wrap (a - b).
Definition mul (a b : Z) : Z := wrap (a * b).

(** [a / b] and [a % b] truncate toward zero and panic on a zero divisor. *)
Definition quo (a b : Z) : option Z :=
  if b =? 0 then None else Some (wrap (Z.quot a b)).
Definition rem (a b : Z) : option Z :=
  if b =? 0 then None else Some (Z.rem a b).

(** [len(l)]. *)
Definition len {A} (l : list A) : Z := Z.of_nat (length l).

(** The index expression [l[i]]: a panic outside [0 <= i < len(l)]. *)
Definition index {A} (l : list A) (i : Z) : option A :=
  if i <? 0 then None else l !! Z.to_nat i.

(** The assignment [l[i] = x]. *)
Definition store {A} (l : list A) (i : Z) (x : A) : option (list A) :=
  match index l i with
  | Some _ => Some (<[Z.to_nat i := x]> l)
  | None => None
  end.

(** The slice expression [l[lo:hi]] of a slice whose capacity is its length. *)
Definition slice {A} (l : list A) (lo hi : Z) : option (list A) :=
  if (0 <=? lo) && (lo <=? hi) && (hi <=? len l)
  then Some (take (Z.to_nat (hi - lo)) (drop (Z.to_nat lo) l))
  else None.

(** Writing the elements of the slice [l[lo:hi]] back into [l]: the slice
    shares the array of [l]. *)
Definition splice {A} (l : list A) (lo : Z) (blk : list A) : list A :=
  take (Z.to_nat lo) l ++ blk ++ drop (Z.to_nat lo + length blk) l.

(** [for i := range l { p := &l[i]; ... }] where the body of iteration [i]
    reads and writes element [i] only: the elements are rewritten one by
    one, and the first panic stops the loop. *)
Definition for_range {A B} (body : Z → A → option B) (l : list A)
  : option (list B) :=
  mapM (λ ix, body (fst ix) (snd ix)) (imap (λ i x, (Z.of_nat i, x)) l).

(** [for i := range l { ... }] with a state threaded through the
    iterations. *)
Fixpoint for_state {S A} (body : Z → A → S → option S) (i : Z) (l : list A)
  (s : S) : option S :=
  match l with
  | [] => Some s
  | x :: l' => s' ← body i x s; for_state body (i + 1) l' s'
  end.

(** [make([]T, n)]: [n] zero values, and a panic for a negative [n]. *)
Definition make {A} (zero : A) (n : Z) : option (list A) :=
  if n <? 0 then None else Some (replicate (Z.to_nat n) zero).

(** [copy(dst, src)]: the first [min(len(dst), len(src))] elements of [dst]
    are overwritten by those of [src]; the result is the content of [dst]
    after the call. *)
Definition copy {A} (dst src : list A) : list A :=
  take (length dst) src ++ drop (length src) dst.

(** [for i := lo; i < hi; i++ { ... }] with a state threaded through the
    iterations. *)
Definition for_count {S} (body : Z → S → option S) (lo hi : Z) (s : S)
  : option S :=
  for_state (λ _ i s, body i s) 0 (seqZ lo (hi - lo)) s.

End Go.

(** ** The float32 interface *)

Class Float32 (F : Type) := {
  of_int : Z → F;            (* float32(n), and the integer literals *)
  fadd : F → F → F;
  fsub : F → F → F;
  fmul : F → F → F;
  fneg : F → F;              (* unary minus *)
  fgt : F → F → bool;        (* a > b *)
  fne : F → F → bool;        (* a != b *)
  fmin : F → F → F;          (* mat32.Min *)
  fmax : F → F → F;          (* math32.Max *)
  fabs : F → F               (* math32.Abs *)
}.

Notation "x ⊕ y" := (fadd x y) (at level 50, left associativity).
Notation "x ⊖ y" := (fsub x y) (at level 50, left associativity).
Notation "x ⊗ y" := (fmul x y) (at level 40, left associativity).

(** Exact rational arithmetic: float32 without rounding, infinities or NaN. *)
#[export] Instance Float32_Q : Float32 Q := {
  of_int := inject_Z;
  fadd := Qplus;
  fsub := Qminus;
  fmul := Qmult;
  fneg := Qopp;
  fgt := λ a b, negb (Qle_bool a b);
  fne := λ a b, negb (Qeq_bool a b);
  fmin := Qmin;
  fmax := Qmax;
  fabs := Qabs
}.

(** Decimal float32 literals: [of_dec m e] is the constant [m * 10^e], so
    that [0.25] is [of_dec 25 (-2)]. *)
Class Float32Lit (F : Type) := { of_dec : Z → Z → F }.

#[export] Instance Float32Lit_Q : Float32Lit Q := {
  of_dec := λ m e, Qmult (inject_Z m) (Qpower (inject_Z 10) e)
}.

(** [math32.NaN()]. *)
Class Float32NaN (F : Type) := { NaN : F }.

(** The rationals with one more value for NaN. *)
#[export] Instance Float32NaN_optQ : Float32NaN (option Q) := { NaN := None }.

(** ** Types of package leabra used by the three files *)

Module leabra.

(** [leabra.Time]: the counters the three files read, both [int]. *)
Module Time.
Record t := mk { Cycle : Z; Quarter : Z }.
End Time.

(** [leabra.Neuron]: [Off] is the result of [IsOff()]. *)
Module Neuron.
Record t (F : Type) := mk {
  Off : bool; SubPool : Z; Act : F; Ext : F; ActLrn : F }.
Arguments mk {F}. Arguments Off {F}. Arguments SubPool {F}.
Arguments Act {F}. Arguments Ext {F}. Arguments ActLrn {F}.
Definition set_ActLrn {F} (v : F) (n : t F) : t F :=
  mk (Off n) (SubPool n) (Act n) (Ext n) v.
End Neuron.

(** [leabra.Synapse]. *)
Module Synapse.
Record t (F : Type) := mk { Wt : F; DWt : F; Norm : F; Moment : F }.
Arguments mk {F}. Arguments Wt {F}. Arguments DWt {F}.
Arguments Norm {F}. Arguments Moment {F}.
Definition set_DWt {F} (v : F) (s : t F) : t F := mk (Wt s) v (Norm s) (Moment s).
Definition set_Norm {F} (v : F) (s : t F) : t F := mk (Wt s) (DWt s) v (Moment s).
Definition set_Moment {F} (v : F) (s : t F) : t F := mk (Wt s) (DWt s) (Norm s) v.
End Synapse.

(** [leabra.Layer]: the shape and the units.  A layer is stored in its
    network under its name, so the name is the key of the network map. *)
Module Layer.
Record t (F : Type) := mk { Shp : list Z; Neurons : list (Neuron.t F) }.
Arguments mk {F}. Arguments Shp {F}. Arguments Neurons {F}.
Definition set_Neurons {F} (ns : list (Neuron.t F)) (l : t F) : t F :=
  mk (Shp l) ns.
(** [ly.Shp.Dim(i)]. *)
Definition Dim {F} (l : t F) (i : Z) : option Z := Go.index (Shp l) i.
End Layer.

(** [leabra.LearnSynParams]: the switches and the rate that [DWt] reads. *)
Module LearnSynParams.
Record t (F : Type) := mk {
  Learn : bool; Lrate : F; NormOn : bool; MomentumOn : bool;
  WtSigGain : F; WtBalOn : bool }.
Arguments mk {F}. Arguments Learn {F}. Arguments Lrate {F}.
Arguments NormOn {F}. Arguments MomentumOn {F}.
Arguments WtSigGain {F}. Arguments WtBalOn {F}.
End LearnSynParams.

End leabra.

(** Functions of package leabra that the three files call and do not define.
    [NormFmAbsDWt norm absDwt] and [MomentFmDWt moment dwt] return the new
    value of the variable they update through a pointer, and their result. *)
Class LeabraExt (F : Type) := {
  NormFmAbsDWt : F → F → F * F;
  MomentFmDWt : F → F → F * F;
  PrjnDefaults : leabra.LearnSynParams.t F → leabra.LearnSynParams.t F;
  DecayStatePool : leabra.Layer.t F → Z → F → option (leabra.Layer.t F)
}.

(** ** pcore/matrix.go *)

Module pcore.

Import leabra.

(** Modelled from the spec: [DaReceptors] is declared in another file of
    package pcore.  Section 3 gives the receptor polarity two variants; the
    file names them [D1R] (in its comments) and [D2R]. *)
Inductive DaReceptors := D1R | D2R.

Definition DaReceptors_eqb (a b : DaReceptors) : bool :=
  match a, b with
  | D1R, D1R | D2R, D2R => true
  | _, _ => false
  end.

Module MatrixParams.
Record t (F : Type) := mk {
  ThalLay : string; ThalThr : F; Deriv : bool; BurstGain : F; DipGain : F }.
Arguments mk {F}. Arguments ThalLay {F}. Arguments ThalThr {F}.
Arguments Deriv {F}. Arguments BurstGain {F}. Arguments DipGain {F}.

Section methods.
Context {F : Type} `{Float32 F}.

(** [LrnFactor]: [2 * act * (1 - act)] with [Deriv], else [act]. *)
Definition LrnFactor (mp : t F) (act : F) : F :=
  if negb (Deriv mp) then act
  else of_int 2 ⊗ act ⊗ (of_int 1 ⊖ act).

End methods.
Section defaults.
Context {F : Type} `{Float32 F} `{Float32Lit F}.

(** [Defaults]: the name of the thalamic layer is kept unless it is
    empty. *)
Definition Defaults (mp : t F) : t F :=
  let nm := if String.eqb (ThalLay mp) EmptyString
            then "VThal"%string else ThalLay mp in
  mk nm (of_dec 25 (-2)) true (of_int 1) (of_int 1).

End defaults.
End MatrixParams.

(** [pcore.Layer], declared in another file of the package: the fields the
    file reads. *)
Module Layer.
Record t (F : Type) := mk {
  Neurons : list (Neuron.t F); AlphaMaxs : list F; AlphaMaxCyc : Z; DA : F }.
Arguments mk {F}. Arguments Neurons {F}. Arguments AlphaMaxs {F}.
Arguments AlphaMaxCyc {F}. Arguments DA {F}.
Definition set_Neurons {F} (ns : list (Neuron.t F)) (l : t F) : t F :=
  mk ns (AlphaMaxs l) (AlphaMaxCyc l) (DA l).
End Layer.

(** [pcore.VThalLayer], declared in another file of the package: the file
    reads the [AlphaMaxs] of its embedded [Layer]. *)
Module VThalLayer.
Record t (F : Type) := mk { Layer : Layer.t F }.
Arguments mk {F}. Arguments Layer {F}.
End VThalLayer.

Module MatrixLayer.
Record t (F : Type) := mk {
  Layer : Layer.t F;
  DaR : DaReceptors;
  Matrix : MatrixParams.t F;
  DALrn : F;
  ACh : F }.
Arguments mk {F}. Arguments Layer {F}. Arguments DaR {F}.
Arguments Matrix {F}. Arguments DALrn {F}. Arguments ACh {F}.
Definition set_DALrn {F} (v : F) (l : t F) : t F :=
  mk (Layer l) (DaR l) (Matrix l) v (ACh l).
Definition set_Neurons {F} (ns : list (Neuron.t F)) (l : t F) : t F :=
  mk (Layer.set_Neurons ns (Layer l)) (DaR l) (Matrix l) (DALrn l) (ACh l).
Definition Neurons {F} (l : t F) := Layer.Neurons (Layer l).
Definition DA {F} (l : t F) := Layer.DA (Layer l).
End MatrixLayer.

(** The layers of a network as [LayerByNameTry] finds them: the dynamic
    type decides whether the type assertion to a VThalLayer succeeds. *)
Inductive NetLayer (F : Type) :=
  | LMatrix (ly : MatrixLayer.t F)
  | LVThal (ly : VThalLayer.t F)
  | LOther (ly : Layer.t F).
Arguments LMatrix {F}. Arguments LVThal {F}. Arguments LOther {F}.

Module MatrixTraceParams.
Record t (F : Type) := mk { CurTrlDA : bool; Decay : F }.
Arguments mk {F}. Arguments CurTrlDA {F}. Arguments Decay {F}.
Definition Defaults {F} `{Float32 F} (tp : t F) : t F := mk true (of_int 2).
End MatrixTraceParams.

(** Modelled from the spec: [TraceSyn] is declared in another file of
    package pcore.  Section 3 gives it [Tr], the accumulated trace, and
    [NTr], the contribution of this trial. *)
Module TraceSyn.
Record t (F : Type) := mk { NTr : F; Tr : F }.
Arguments mk {F}. Arguments NTr {F}. Arguments Tr {F}.
End TraceSyn.

Module MatrixPrjn.
(** The embedded [leabra.Prjn] contributes [Learn], the sender-ordered
    connection arrays and [Syns]. *)
Record t (F : Type) := mk {
  Learn : LearnSynParams.t F;
  SConN : list Z;
  SConIdxSt : list Z;
  SConIdx : list Z;
  Syns : list (Synapse.t F);
  Trace : MatrixTraceParams.t F;
  TrSyns : list (TraceSyn.t F) }.
Arguments mk {F}. Arguments Learn {F}. Arguments SConN {F}.
Arguments SConIdxSt {F}. Arguments SConIdx {F}. Arguments Syns {F}.
Arguments Trace {F}. Arguments TrSyns {F}.
Definition set_Syns {F} (sy : list (Synapse.t F)) (tr : list (TraceSyn.t F))
  (pj : t F) : t F :=
  mk (Learn pj) (SConN pj) (SConIdxSt pj) (SConIdx pj) sy (Trace pj) tr.
End MatrixPrjn.

Section methods.
Context {F : Type} `{Float32 F} `{LeabraExt F}.

(** [MatrixLayer.ThalLayer]: [Some None] is the error return of a failed
    lookup, [None] the panic of the type assertion. *)
Definition ThalLayer (nt : gmap string (NetLayer F)) (ly : MatrixLayer.t F)
  : option (option (VThalLayer.t F)) :=
  match nt !! MatrixParams.ThalLay (MatrixLayer.Matrix ly) with
  | None => Some None
  | Some (LVThal tly) => Some (Some tly)
  | Some _ => None
  end.

(** Lines 160-169 of [DAActLrn]: the value stored in [ly.DALrn]. *)
Definition DALrnFmDA (ly : MatrixLayer.t F) : F :=
  let da := MatrixLayer.DA ly in
  let da :=
    if fgt da (of_int 0)
    then da ⊗ MatrixParams.BurstGain (MatrixLayer.Matrix ly)
    else da ⊗ MatrixParams.DipGain (MatrixLayer.Matrix ly) in
  if DaReceptors_eqb (MatrixLayer.DaR ly) D2R then da ⊗ of_int (-1) else da.

(** The body of the unit loop of [DAActLrn]. *)
Definition ActLrnUnit (ly : MatrixLayer.t F) (tly : VThalLayer.t F)
  (ni : Z) (nrn : Neuron.t F) : option (Neuron.t F) :=
  if Neuron.Off nrn then Some nrn
  else
    a ← Go.index (Layer.AlphaMaxs (MatrixLayer.Layer ly)) ni;
    let amax := MatrixParams.LrnFactor (MatrixLayer.Matrix ly) a in
    tact ← Go.index (Layer.AlphaMaxs (VThalLayer.Layer tly))
             (Neuron.SubPool nrn - 1);
    if fgt tact (MatrixParams.ThalThr (MatrixLayer.Matrix ly))
    then Some (Neuron.set_ActLrn amax nrn)
    else Some (Neuron.set_ActLrn (fneg amax) nrn).

Definition DAActLrn (nt : gmap string (NetLayer F)) (ly : MatrixLayer.t F)
  (ltime : Time.t) : option (MatrixLayer.t F) :=
  let ly := MatrixLayer.set_DALrn (DALrnFmDA ly) ly in
  if Time.Cycle ltime <? Layer.AlphaMaxCyc (MatrixLayer.Layer ly) then Some ly
  else
    tly ← ThalLayer nt ly;
    match tly with
    | None => Some ly
    | Some tly =>
        nrns ← Go.for_range (ActLrnUnit ly tly) (MatrixLayer.Neurons ly);
        Some (MatrixLayer.set_Neurons nrns ly)
    end.

(** The index expressions of the unit loop of [DAActLrn] are in range. *)
Definition ActLrn_in_range (ly : MatrixLayer.t F) (tly : VThalLayer.t F) : Prop :=
  ∀ (ni : nat) (nrn : Neuron.t F),
    MatrixLayer.Neurons ly !! ni = Some nrn → Neuron.Off nrn = false →
    is_Some (Layer.AlphaMaxs (MatrixLayer.Layer ly) !! ni) ∧
    is_Some (Go.index (Layer.AlphaMaxs (VThalLayer.Layer tly))
               (Neuron.SubPool nrn - 1)).

(** The conditions under which [DAActLrn] returns: it stops before the unit
    loop, or the index expressions of the loop are in range. *)
Definition DAActLrn_runs (nt : gmap string (NetLayer F)) (ly : MatrixLayer.t F)
  (ltime : Time.t) : Prop :=
  Time.Cycle ltime < Layer.AlphaMaxCyc (MatrixLayer.Layer ly) ∨
  nt !! MatrixParams.ThalLay (MatrixLayer.Matrix ly) = None ∨
  ∃ tly, nt !! MatrixParams.ThalLay (MatrixLayer.Matrix ly) = Some (LVThal tly) ∧
         ActLrn_in_range ly tly.

(** [MatrixPrjn.Defaults]. *)
Definition Defaults (pj : MatrixPrjn.t F) : MatrixPrjn.t F :=
  let lp := PrjnDefaults (MatrixPrjn.Learn pj) in
  let lp := LearnSynParams.mk (LearnSynParams.Learn lp) (LearnSynParams.Lrate lp)
              false false (of_int 1) false in
  MatrixPrjn.mk lp (MatrixPrjn.SConN pj) (MatrixPrjn.SConIdxSt pj)
    (MatrixPrjn.SConIdx pj) (MatrixPrjn.Syns pj)
    (MatrixTraceParams.Defaults (MatrixPrjn.Trace pj)) (MatrixPrjn.TrSyns pj).

(** [achDk := mat32.Min(1, ach*pj.Trace.Decay)]. *)
Definition achDecay (pj : MatrixPrjn.t F) (ach : F) : F :=
  fmin (of_int 1) (ach ⊗ MatrixTraceParams.Decay (MatrixPrjn.Trace pj)).

(** The decay statement [tr -= achDk * tr]. *)
Definition DecayTrace (achDk tr : F) : F := tr ⊖ (achDk ⊗ tr).

(** Lines 323-341 of [DWt]: the trace pass of one synapse.  The result is
    the new trace state and the dopamine-trace delta [dwt] as it stands
    before normalization and momentum. *)
Definition TraceDWt (curTrlDA : bool) (da daLrn achDk : F)
  (rnActLrn snActLrn : F) (trsy : TraceSyn.t F) : TraceSyn.t F * F :=
  let tr := TraceSyn.Tr trsy in
  let ntr := rnActLrn ⊗ snActLrn in
  let dwt := of_int 0 in
  let tr := if curTrlDA then tr ⊕ ntr else tr in
  let dwt := if fne da (of_int 0) then daLrn ⊗ tr else dwt in
  let tr := DecayTrace achDk tr in
  let tr := if negb curTrlDA then tr ⊕ ntr else tr in
  (TraceSyn.mk ntr tr, dwt).

(** Lines 343-355 of [DWt]: normalization, momentum and accumulation. *)
Definition ApplyDWt (lp : LearnSynParams.t F) (trsy : TraceSyn.t F) (dwt : F)
  (sy : Synapse.t F) : Synapse.t F :=
  let norm := of_int 1 in
  let '(norm, sy) :=
    if LearnSynParams.NormOn lp then
      let '(n', r) := NormFmAbsDWt (Synapse.Norm sy) (fabs dwt) in
      (r, Synapse.set_Norm n' sy)
    else
      (norm, Synapse.set_Moment (TraceSyn.Tr trsy)
               (Synapse.set_Norm (TraceSyn.NTr trsy) sy)) in
  let '(dwt, sy) :=
    if LearnSynParams.MomentumOn lp then
      let '(m', r) := MomentFmDWt (Synapse.Moment sy) dwt in
      (norm ⊗ r, Synapse.set_Moment m' sy)
    else (dwt ⊗ norm, sy) in
  Synapse.set_DWt (Synapse.DWt sy ⊕ (LearnSynParams.Lrate lp ⊗ dwt)) sy.

(** The body of the synapse loop of [DWt] for one synapse. *)
Definition SynDWt (lp : LearnSynParams.t F) (tp : MatrixTraceParams.t F)
  (da daLrn achDk : F) (rn sn : Neuron.t F) (sy : Synapse.t F)
  (trsy : TraceSyn.t F) : Synapse.t F * TraceSyn.t F :=
  let '(trsy, dwt) :=
    TraceDWt (MatrixTraceParams.CurTrlDA tp) da daLrn achDk
      (Neuron.ActLrn rn) (Neuron.ActLrn sn) trsy in
  (ApplyDWt lp trsy dwt sy, trsy).

(** The maximum of [Norm] over the synapses of one sender. *)
Definition MaxNorm (syns : list (Synapse.t F)) : F :=
  foldl (λ maxNorm sy,
           if fgt (Synapse.Norm sy) maxNorm then Synapse.Norm sy else maxNorm)
        (of_int 0) syns.

(** The body of the sender loop of [DWt], on the three slices of the sender's
    connections. *)
Definition SendDWt (lp : LearnSynParams.t F) (tp : MatrixTraceParams.t F)
  (da daLrn achDk : F) (rnrns : list (Neuron.t F)) (sn : Neuron.t F)
  (syns : list (Synapse.t F)) (trsyns : list (TraceSyn.t F)) (scons : list Z)
  : option (list (Synapse.t F) * list (TraceSyn.t F)) :=
  res ← Go.for_range (λ ci sy,
           trsy ← Go.index trsyns ci;
           ri ← Go.index scons ci;
           rn ← Go.index rnrns ri;
           Some (SynDWt lp tp da daLrn achDk rn sn sy trsy)) syns;
  let syns := fst <$> res in
  let trsyns := snd <$> res in
  let syns :=
    if LearnSynParams.NormOn lp
    then Synapse.set_Norm (MaxNorm syns) <$> syns
    else syns in
  Some (syns, trsyns).

(** [MatrixPrjn.DWt].  [slay] are the units of the sending layer and [recv]
    is the receiving layer, which must be a Matrix layer. *)
Definition DWt (pj : MatrixPrjn.t F) (slay : list (Neuron.t F))
  (recv : NetLayer F) : option (MatrixPrjn.t F) :=
  if negb (LearnSynParams.Learn (MatrixPrjn.Learn pj)) then Some pj
  else
    match recv with
    | LMatrix rlay =>
        let da := MatrixLayer.DA rlay in
        let daLrn := MatrixLayer.DALrn rlay in
        let ach := MatrixLayer.ACh rlay in
        let achDk := achDecay pj ach in
        Go.for_state (λ si sn pj,
            nc ← Go.index (MatrixPrjn.SConN pj) si;
            st ← Go.index (MatrixPrjn.SConIdxSt pj) si;
            syns ← Go.slice (MatrixPrjn.Syns pj) st (st + nc);
            trsyns ← Go.slice (MatrixPrjn.TrSyns pj) st (st + nc);
            scons ← Go.slice (MatrixPrjn.SConIdx pj) st (st + nc);
            r ← SendDWt (MatrixPrjn.Learn pj) (MatrixPrjn.Trace pj) da daLrn
                  achDk (MatrixLayer.Neurons rlay) sn syns trsyns scons;
            Some (MatrixPrjn.set_Syns
                    (Go.splice (MatrixPrjn.Syns pj) st (fst r))
                    (Go.splice (MatrixPrjn.TrSyns pj) st (snd r)) pj))
          0 slay pj
    | _ => None
    end.

End methods.

Section more_methods.
Context {F : Type} `{Float32 F} `{Float32NaN F}.

(** Methods of the embedded [pcore.Layer] and [leabra.Prjn], and the
    variable list of package leabra, which the file uses and does not
    define.  The methods of [pcore.Layer] act on the embedded layer;
    [UnitVarIdx] and [Build] return a value and an error, [None] for
    [nil]. *)
Variable LayerInitActs : Layer.t F → Layer.t F.
Variable LayerUnitVarIdx : Layer.t F → string → Z * option string.
Variable LayerUnitVal1D : Layer.t F → Z → Z → F.
Variable NeuronVars : list string.
Variable PrjnBuild : MatrixPrjn.t F → MatrixPrjn.t F * option string.
Variable PrjnInitWts : MatrixPrjn.t F → MatrixPrjn.t F.

(** [GetACh] and [SetACh]. *)
Definition GetACh (ly : MatrixLayer.t F) : F := MatrixLayer.ACh ly.

Definition SetACh (ly : MatrixLayer.t F) (ach : F) : MatrixLayer.t F :=
  MatrixLayer.mk (MatrixLayer.Layer ly) (MatrixLayer.DaR ly)
    (MatrixLayer.Matrix ly) (MatrixLayer.DALrn ly) ach.

(** [MatrixLayer.InitActs]. *)
Definition InitActs (ly : MatrixLayer.t F) : MatrixLayer.t F :=
  let b := LayerInitActs (MatrixLayer.Layer ly) in
  let b := Layer.mk (Layer.Neurons b) (Layer.AlphaMaxs b) (Layer.AlphaMaxCyc b)
             (of_int 0) in
  MatrixLayer.mk b (MatrixLayer.DaR ly) (MatrixLayer.Matrix ly)
    (of_int 0) (of_int 0).

(** [MatrixLayer.UnitVarIdx]: the index and the error. *)
Definition UnitVarIdx (ly : MatrixLayer.t F) (varNm : string)
  : Z * option string :=
  let '(vidx, err) := LayerUnitVarIdx (MatrixLayer.Layer ly) varNm in
  match err with
  | None => (vidx, err)
  | Some _ =>
      if negb (String.eqb varNm "DALrn" || String.eqb varNm "ACh") then
        (-1, Some ("pcore.NeuronVars: variable named: " +:+ varNm
                   +:+ " not found")%string)
      else
        let nn := Go.len NeuronVars in
        if String.eqb varNm "DALrn" then (Go.add nn 1, None)
        else (Go.add nn 2, None)
  end.

(** [MatrixLayer.UnitVal1D]. *)
Definition UnitVal1D (ly : MatrixLayer.t F) (varIdx idx : Z) : F :=
  let nn := Go.len NeuronVars in
  if (varIdx <? 0) || (Go.add nn 2 <? varIdx) then NaN
  else if varIdx <=? nn then LayerUnitVal1D (MatrixLayer.Layer ly) varIdx idx
  else if (idx <? 0) || (Go.len (MatrixLayer.Neurons ly) <=? idx) then NaN
  else if Go.add nn 2 <? varIdx then NaN
  else if varIdx =? Go.add nn 1 then MatrixLayer.DALrn ly
  else MatrixLayer.ACh ly.

(** [MatrixPrjn.Build]: the traces are allocated whatever [Prjn.Build]
    returns. *)
Definition Build (pj : MatrixPrjn.t F) : MatrixPrjn.t F * option string :=
  let '(pj, err) := PrjnBuild pj in
  (MatrixPrjn.set_Syns (MatrixPrjn.Syns pj)
     (replicate (length (MatrixPrjn.SConIdx pj))
        (TraceSyn.mk (of_int 0) (of_int 0))) pj,
   err).

(** [MatrixPrjn.ClearTrace]. *)
Definition ClearTrace (pj : MatrixPrjn.t F) : MatrixPrjn.t F :=
  MatrixPrjn.set_Syns (MatrixPrjn.Syns pj)
    ((λ _, TraceSyn.mk (of_int 0) (of_int 0)) <$> MatrixPrjn.TrSyns pj) pj.

(** [MatrixPrjn.InitWts]. *)
Definition InitWts (pj : MatrixPrjn.t F) : MatrixPrjn.t F :=
  ClearTrace (PrjnInitWts pj).

End more_methods.

End pcore.

(** ** agate/neuron.go (package agate) *)

Module agate.

(** [init]: [NeuronVarsAll] is made from the variable lists of the packages
    deep, glong and pcore. *)
Definition init (deepVars glongVars pcoreVars : list string)
  : option (list string) :=
  let dln := Go.len deepVars in
  let gln := Go.len glongVars in
  let pln := Go.len pcoreVars in
  all ← Go.make EmptyString (Go.add (Go.add dln gln) pln);
  let all := Go.copy all deepVars in
  s ← Go.slice all dln (Go.len all);
  let all := Go.splice all dln (Go.copy s glongVars) in
  s ← Go.slice all (Go.add dln gln) (Go.len all);
  let all := Go.splice all (Go.add dln gln) (Go.copy s pcoreVars) in
  Some all.

End agate.

(** ** agate/neuron.go (package pbwm) *)

Module pbwm.

Import leabra.

Inductive GateTypes := Maint | Out.

(** Modelled from the spec: [GateState] is declared in package pbwm outside
    the file.  Section 3 gives it [Now], [Act] and the integer counter
    [Cnt], which the file compares with the [int] [MaxMaint]. *)
Module GateState.
Record t (F : Type) := mk { Act : F; Now : bool; Cnt : Z }.
Arguments mk {F}. Arguments Act {F}. Arguments Now {F}. Arguments Cnt {F}.
Definition set_Cnt {F} (c : Z) (gs : t F) : t F := mk (Act gs) (Now gs) c.
End GateState.

(** [GateQtr] is a [leabra.Quarters] bit set; the file only asks it
    [Has(quarter)], and the field is represented by that test. *)
Module PFCGateParams.
Record t := mk { GateQtr : Z → bool; OutGate : bool; OutQ1Only : bool }.

(** [leabra.Quarters.Set] on the representation of the set by its [Has]
    test: the quarter is added. *)
Definition SetQtr (qtr : Z) (qt : Z → bool) : Z → bool :=
  λ q, (q =? qtr) || qt q.

(** [Defaults]; [Q2] and [Q4] are the constants of package leabra. *)
Definition Defaults (Q2 Q4 : Z) (gp : t) : t :=
  mk (SetQtr Q4 (SetQtr Q2 (GateQtr gp))) (OutGate gp) true.
End PFCGateParams.

Module PFCMaintParams.
Record t (F : Type) := mk {
  UseDyn : bool; MaintGain : F; OutClearMaint : bool; Clear : F; MaxMaint : Z }.
Arguments mk {F}. Arguments UseDyn {F}. Arguments MaintGain {F}.
Arguments OutClearMaint {F}. Arguments Clear {F}. Arguments MaxMaint {F}.
Definition set_MaxMaint {F} (n : Z) (mp : t F) : t F :=
  mk (UseDyn mp) (MaintGain mp) (OutClearMaint mp) (Clear mp) n.
Definition set_UseDyn {F} (b : bool) (mp : t F) : t F :=
  mk b (MaintGain mp) (OutClearMaint mp) (Clear mp) (MaxMaint mp).

(** [Defaults]. *)
Definition Defaults {F} `{Float32 F} `{Float32Lit F} (mp : t F) : t F :=
  mk (UseDyn mp) (of_dec 8 (-1)) false (of_int 0) 100.
End PFCMaintParams.

Module PFCNeuron.
Record t (F : Type) := mk { ActG : F; Maint : F; MaintGe : F }.
Arguments mk {F}. Arguments ActG {F}. Arguments Maint {F}. Arguments MaintGe {F}.
Definition set_Maint {F} (v : F) (p : t F) : t F := mk (ActG p) v (MaintGe p).
Definition set_MaintGe {F} (v : F) (p : t F) : t F := mk (ActG p) (Maint p) v.
Definition set_ActG {F} (v : F) (p : t F) : t F := mk v (Maint p) (MaintGe p).
End PFCNeuron.

(** [PFCDeepLayer].  [Layer] and [GateStates] come from the embedded
    [GateLayer]; [Dyns] is a [PFCDyns] table, which the file only asks
    [Value(dyn, time)], and the field is represented by that function. *)
Module PFCDeepLayer.
Record t (F : Type) := mk {
  Layer : Layer.t F;
  GateStates : list (GateState.t F);
  Gate : PFCGateParams.t;
  Maint : PFCMaintParams.t F;
  Dyns : Z → F → F;
  PFCNeurs : list (PFCNeuron.t F) }.
Arguments mk {F}. Arguments Layer {F}. Arguments GateStates {F}.
Arguments Gate {F}. Arguments Maint {F}. Arguments Dyns {F}.
Arguments PFCNeurs {F}.
Definition set_GateStates {F} (gs : list (GateState.t F)) (l : t F) : t F :=
  mk (Layer l) gs (Gate l) (Maint l) (Dyns l) (PFCNeurs l).
Definition set_PFCNeurs {F} (ps : list (PFCNeuron.t F)) (l : t F) : t F :=
  mk (Layer l) (GateStates l) (Gate l) (Maint l) (Dyns l) ps.
Definition set_Layer {F} (b : Layer.t F) (l : t F) : t F :=
  mk b (GateStates l) (Gate l) (Maint l) (Dyns l) (PFCNeurs l).
Definition Neurons {F} (l : t F) := Layer.Neurons (Layer l).
End PFCDeepLayer.

(** The layers of a network by dynamic type: a PFC deep layer, or any other
    layer, of which the file uses the [leabra.Layer] that [AsLeabra]
    returns. *)
Inductive NetLayer (F : Type) :=
  | LPFCDeep (ly : PFCDeepLayer.t F)
  | LLeabra (ly : Layer.t F).
Arguments LPFCDeep {F}. Arguments LLeabra {F}.

Definition AsLeabra {F} (li : NetLayer F) : Layer.t F :=
  match li with
  | LPFCDeep ly => PFCDeepLayer.Layer ly
  | LLeabra ly => ly
  end.

Definition with_leabra {F} (b : Layer.t F) (li : NetLayer F) : NetLayer F :=
  match li with
  | LPFCDeep ly => LPFCDeep (PFCDeepLayer.set_Layer b ly)
  | LLeabra _ => LLeabra b
  end.

(** The values [DeepMaint] computes before its unit loop. *)
Module DeepDims.
Record t := mk { xN : Z; nn : Z; syN : Z; sxN : Z; snn : Z; dtyp : Z }.
End DeepDims.

Section methods.
Context {F : Type} `{Float32 F} `{LeabraExt F}.

(** The receiver [ly] of a method, found in the network under its name. *)
Definition getPFC (nt : gmap string (NetLayer F)) (nm : string)
  : option (PFCDeepLayer.t F) :=
  match nt !! nm with
  | Some (LPFCDeep ly) => Some ly
  | _ => None
  end.

Definition GateType (ly : PFCDeepLayer.t F) : GateTypes :=
  if PFCGateParams.OutGate (PFCDeepLayer.Gate ly) then Out else Maint.

(** The names of the paired layers: [ly.Nm[:sz-4] + "mntD"] for the
    maintenance layer and [ly.Nm[:len(ly.Nm)-1]] for the super layer. *)
Definition MaintName (nm : string) : string :=
  (substring 0 (String.length nm - 4) nm +:+ "mntD")%string.
Definition SuperName (nm : string) : string :=
  substring 0 (String.length nm - 1) nm.

(** [MaintPFC]: [Some None] is the nil result, [None] a panic (the slice
    bound of the name, or the type assertion). *)
Definition MaintPFC (nt : gmap string (NetLayer F)) (nm : string)
  : option (option (string * PFCDeepLayer.t F)) :=
  if (String.length nm <? 4)%nat then None
  else
    match nt !! MaintName nm with
    | None => Some None
    | Some (LPFCDeep pfcm) => Some (Some (MaintName nm, pfcm))
    | Some (LLeabra _) => None
    end.

(** [SuperPFC]: [Some None] is the nil result, [None] the panic of the
    slice bound of the name. *)
Definition SuperPFC (nt : gmap string (NetLayer F)) (nm : string)
  : option (option (string * NetLayer F)) :=
  if (String.length nm <? 1)%nat then None
  else
    match nt !! SuperName nm with
    | None => Some None
    | Some li => Some (Some (SuperName nm, li))
    end.

(** [x.AsLeabra().DecayStatePool(pool, decay)] on the result [x] of
    [SuperPFC]: a nil [x] is a nil dereference. *)
Definition DecaySuper (nt : gmap string (NetLayer F))
  (x : option (string * NetLayer F)) (pool : Z) (decay : F)
  : option (gmap string (NetLayer F)) :=
  match x with
  | None => None
  | Some (dnm, li) =>
      b ← DecayStatePool (AsLeabra li) pool decay;
      Some (<[dnm := with_leabra b li]> nt)
  end.

(** [ClearMaint]. *)
Definition ClearMaint (nt : gmap string (NetLayer F)) (nm : string) (pool : Z)
  : option (gmap string (NetLayer F)) :=
  m ← MaintPFC nt nm;
  match m with
  | None => Some nt
  | Some (mnm, pfcm) =>
      gs ← Go.index (PFCDeepLayer.GateStates pfcm) pool;
      if 1 <=? GateState.Cnt gs then
        gsl ← Go.store (PFCDeepLayer.GateStates pfcm) pool
                (GateState.set_Cnt (-1) gs);
        let nt := <[mnm := LPFCDeep (PFCDeepLayer.set_GateStates gsl pfcm)]> nt in
        x ← SuperPFC nt mnm;
        DecaySuper nt x pool (PFCMaintParams.Clear (PFCDeepLayer.Maint pfcm))
      else Some nt
  end.

(** The assignment [gs.Cnt = c] through the pointer [gs] into the
    receiver's [GateStates]. *)
Definition setCnt (nt : gmap string (NetLayer F)) (nm : string) (gi c : Z)
  : option (gmap string (NetLayer F)) :=
  ly ← getPFC nt nm;
  gs ← Go.index (PFCDeepLayer.GateStates ly) gi;
  gsl ← Go.store (PFCDeepLayer.GateStates ly) gi (GateState.set_Cnt c gs);
  Some (<[nm := LPFCDeep (PFCDeepLayer.set_GateStates gsl ly)]> nt).

(** The body of the pool loop of [Gating].  [gs] points into the receiver's
    [GateStates], so it is read again after the calls that can write it. *)
Definition GatingPool (nm : string) (gi : Z) (nt : gmap string (NetLayer F))
  : option (gmap string (NetLayer F)) :=
  ly ← getPFC nt nm;
  gs ← Go.index (PFCDeepLayer.GateStates ly) gi;
  if negb (GateState.Now gs) then Some nt
  else
    nt ← (if fgt (GateState.Act gs) (of_int 0) then
            nt ← setCnt nt nm gi 0;
            if PFCGateParams.OutGate (PFCDeepLayer.Gate ly) then
              if PFCMaintParams.OutClearMaint (PFCDeepLayer.Maint ly)
              then ClearMaint nt nm gi
              else Some nt
            else
              x ← SuperPFC nt nm;
              DecaySuper nt x gi (PFCMaintParams.Clear (PFCDeepLayer.Maint ly))
          else Some nt);
    ly ← getPFC nt nm;
    gs ← Go.index (PFCDeepLayer.GateStates ly) gi;
    if PFCMaintParams.MaxMaint (PFCDeepLayer.Maint ly) <=? GateState.Cnt gs
    then setCnt nt nm gi (-1)
    else Some nt.

(** [Gating]. *)
Definition Gating (nt : gmap string (NetLayer F)) (nm : string)
  (ltime : Time.t) : option (gmap string (NetLayer F)) :=
  ly ← getPFC nt nm;
  if PFCGateParams.OutGate (PFCDeepLayer.Gate ly)
     && PFCGateParams.OutQ1Only (PFCDeepLayer.Gate ly)
     && (1 <? Time.Quarter ltime)
  then Some nt
  else
    Go.for_state (λ gi _ nt, GatingPool nm gi nt) 0
      (PFCDeepLayer.GateStates ly) nt.

(** [UpdtGateCnt]: it touches the receiver only. *)
Definition UpdtCnt (gs : GateState.t F) : GateState.t F :=
  if GateState.Cnt gs <? 0
  then GateState.set_Cnt (Go.sub (GateState.Cnt gs) 1) gs
  else GateState.set_Cnt (Go.add (GateState.Cnt gs) 1) gs.

Definition UpdtGateCnt (ly : PFCDeepLayer.t F) (ltime : Time.t)
  : PFCDeepLayer.t F :=
  if negb (PFCGateParams.GateQtr (PFCDeepLayer.Gate ly) (Time.Quarter ltime))
  then ly
  else PFCDeepLayer.set_GateStates (UpdtCnt <$> PFCDeepLayer.GateStates ly) ly.

Definition DeepMaintDims (ly : PFCDeepLayer.t F) (sly : Layer.t F)
  : option DeepDims.t :=
  yN ← Layer.Dim (PFCDeepLayer.Layer ly) 2;
  xN ← Layer.Dim (PFCDeepLayer.Layer ly) 3;
  let nn := Go.mul yN xN in
  syN ← Layer.Dim sly 2;
  sxN ← Layer.Dim sly 3;
  let snn := Go.mul syN sxN in
  dper ← Go.quo yN syN;
  dtyp ← Go.quo yN dper;
  Some (DeepDims.mk xN nn syN sxN snn dtyp).

(** [ui], [pi], [uy] and [ux] of unit [ni]: the result is [(pi, uy, ux)]. *)
Definition UnitCoords (d : DeepDims.t) (ni : Z) : option (Z * Z * Z) :=
  ui ← Go.rem ni (DeepDims.nn d);
  pi ← Go.quo ni (DeepDims.nn d);
  uy ← Go.quo ui (DeepDims.xN d);
  ux ← Go.rem ui (DeepDims.xN d);
  Some (pi, uy, ux).

(** The index [si] of the super-layer unit that a unit copies. *)
Definition SuperIdx (d : DeepDims.t) (c : Z * Z * Z) : option Z :=
  let '(pi, uy, ux) := c in
  sy ← Go.rem uy (DeepDims.syN d);
  Some (Go.add (Go.add (Go.mul pi (DeepDims.snn d))
                       (Go.mul sy (DeepDims.sxN d))) ux).

(** The first conditional of the unit loop of [DeepMaint]. *)
Definition MaintFmCnt (ly : PFCDeepLayer.t F) (sly : Layer.t F)
  (d : DeepDims.t) (c : Z * Z * Z) (gs : GateState.t F) (pnr : PFCNeuron.t F)
  : option (PFCNeuron.t F) :=
  if GateState.Cnt gs <? 0 then
    Some (PFCNeuron.set_MaintGe (of_int 0) (PFCNeuron.set_Maint (of_int 0) pnr))
  else if GateState.Cnt gs <=? 1 then
    si ← SuperIdx d c;
    snr ← Go.index (Layer.Neurons sly) si;
    Some (PFCNeuron.set_Maint
            (PFCMaintParams.MaintGain (PFCDeepLayer.Maint ly) ⊗ Neuron.Act snr)
            pnr)
  else Some pnr.

(** The second conditional of the unit loop of [DeepMaint]. *)
Definition MaintGeFmMaint (ly : PFCDeepLayer.t F) (d : DeepDims.t)
  (gs : GateState.t F) (pnr : PFCNeuron.t F) : PFCNeuron.t F :=
  if PFCMaintParams.UseDyn (PFCDeepLayer.Maint ly) then
    PFCNeuron.set_MaintGe
      (PFCNeuron.Maint pnr
         ⊗ PFCDeepLayer.Dyns ly (DeepDims.dtyp d)
             (of_int (Go.sub (GateState.Cnt gs) 1))) pnr
  else PFCNeuron.set_MaintGe (PFCNeuron.Maint pnr) pnr.

(** The body of the unit loop of [DeepMaint]: the state is [ly.PFCNeurs]. *)
Definition DeepMaintUnit (ly : PFCDeepLayer.t F) (sly : Layer.t F)
  (d : DeepDims.t) (ni : Z) (nrn : Neuron.t F)
  (pnrs : list (PFCNeuron.t F)) : option (list (PFCNeuron.t F)) :=
  if Neuron.Off nrn then Some pnrs
  else
    c ← UnitCoords d ni;
    pnr ← Go.index pnrs ni;
    gs ← Go.index (PFCDeepLayer.GateStates ly) (Neuron.SubPool nrn - 1);
    pnr ← MaintFmCnt ly sly d c gs pnr;
    Go.store pnrs ni (MaintGeFmMaint ly d gs pnr).

(** [DeepMaint]: it writes the receiver only, and reads the super layer. *)
Definition DeepMaint (nt : gmap string (NetLayer F)) (nm : string)
  (ly : PFCDeepLayer.t F) (ltime : Time.t) : option (PFCDeepLayer.t F) :=
  if negb (PFCGateParams.GateQtr (PFCDeepLayer.Gate ly) (Time.Quarter ltime))
  then Some ly
  else
    slyi ← SuperPFC nt nm;
    match slyi with
    | None => Some ly
    | Some (_, li) =>
        let sly := AsLeabra li in
        d ← DeepMaintDims ly sly;
        pnrs ← Go.for_state (DeepMaintUnit ly sly d) 0
                 (PFCDeepLayer.Neurons ly) (PFCDeepLayer.PFCNeurs ly);
        Some (PFCDeepLayer.set_PFCNeurs pnrs ly)
    end.

End methods.

(** [leabra.Pool], declared in package leabra: the unit range of a pool. *)
Module Pool.
Record t := mk { StIdx : Z; EdIdx : Z }.
End Pool.

Section more_methods.
Context {F : Type} `{Float32 F} `{Float32Lit F} `{LeabraExt F}.

(** The embedded [GateLayer] of a PFC deep layer. *)
Definition GateLayer : Type := Layer.t F * list (GateState.t F).

Definition AsGateLayer (ly : PFCDeepLayer.t F) : GateLayer :=
  (PFCDeepLayer.Layer ly, PFCDeepLayer.GateStates ly).

Definition with_GateLayer (g : GateLayer) (ly : PFCDeepLayer.t F)
  : PFCDeepLayer.t F :=
  PFCDeepLayer.mk (fst g) (snd g) (PFCDeepLayer.Gate ly) (PFCDeepLayer.Maint ly)
    (PFCDeepLayer.Dyns ly) (PFCDeepLayer.PFCNeurs ly).

(** The quarter constants of package leabra, and the methods of the
    embedded [GateLayer] that the file calls and does not define: they act
    on the embedded layer, and [Build] returns an error, [None] for
    [nil]. *)
Variable Q1 Q2 Q4 : Z.
Variable GateLayerDefaults : GateLayer → GateLayer.
Variable GateLayerBuild : GateLayer → GateLayer * option string.
Variable GateLayerInitActs : GateLayer → GateLayer.
Variable GateLayerQuarterFinal : GateLayer → Time.t → GateLayer.

(** [PFCDeepLayer.Defaults]; [nDyns] is [len(ly.Dyns)]. *)
Definition Defaults (nDyns : Z) (ly : PFCDeepLayer.t F) : PFCDeepLayer.t F :=
  let ly := with_GateLayer (GateLayerDefaults (AsGateLayer ly)) ly in
  let gate := PFCGateParams.Defaults Q2 Q4 (PFCDeepLayer.Gate ly) in
  let maint := PFCMaintParams.Defaults (PFCDeepLayer.Maint ly) in
  let '(gate, maint) :=
    if PFCGateParams.OutGate gate && PFCGateParams.OutQ1Only gate then
      (PFCGateParams.mk (PFCGateParams.SetQtr Q1 (λ _, false))
         (PFCGateParams.OutGate gate) (PFCGateParams.OutQ1Only gate),
       PFCMaintParams.set_MaxMaint 1 maint)
    else (gate, maint) in
  let maint :=
    if 0 <? nDyns then PFCMaintParams.set_UseDyn true maint
    else PFCMaintParams.set_UseDyn false maint in
  PFCDeepLayer.mk (PFCDeepLayer.Layer ly) (PFCDeepLayer.GateStates ly) gate maint
    (PFCDeepLayer.Dyns ly) (PFCDeepLayer.PFCNeurs ly).

(** [PFCDeepLayer.Build]. *)
Definition Build (ly : PFCDeepLayer.t F) : PFCDeepLayer.t F * option string :=
  let '(g, err) := GateLayerBuild (AsGateLayer ly) in
  let ly := with_GateLayer g ly in
  match err with
  | Some e => (ly, Some e)
  | None =>
      (PFCDeepLayer.set_PFCNeurs
         (replicate (length (PFCDeepLayer.Neurons ly))
            (PFCNeuron.mk (of_int 0) (of_int 0) (of_int 0))) ly,
       None)
  end.

(** [PFCDeepLayer.InitActs]. *)
Definition InitActs (ly : PFCDeepLayer.t F) : PFCDeepLayer.t F :=
  let ly := with_GateLayer (GateLayerInitActs (AsGateLayer ly)) ly in
  PFCDeepLayer.set_PFCNeurs
    ((λ _, PFCNeuron.mk (of_int 0) (of_int 0) (of_int 0))
       <$> PFCDeepLayer.PFCNeurs ly) ly.

(** [PFCDeepLayer.QuarterFinal]. *)
Definition QuarterFinal (nt : gmap string (NetLayer F)) (nm : string)
  (ltime : Time.t) : option (gmap string (NetLayer F)) :=
  ly ← getPFC nt nm;
  let ly := with_GateLayer (GateLayerQuarterFinal (AsGateLayer ly) ltime) ly in
  let ly := UpdtGateCnt ly ltime in
  ly ← DeepMaint nt nm ly ltime;
  Some (<[nm := LPFCDeep ly]> nt).

(** The body of the unit loop of [RecGateAct]: the state is
    [ly.PFCNeurs]. *)
Definition RecGateUnit (ly : PFCDeepLayer.t F) (ni : Z)
  (pnrs : list (PFCNeuron.t F)) : option (list (PFCNeuron.t F)) :=
  nrn ← Go.index (PFCDeepLayer.Neurons ly) ni;
  if Neuron.Off nrn then Some pnrs
  else
    pnr ← Go.index pnrs ni;
    Go.store pnrs ni (PFCNeuron.set_ActG (Neuron.Act nrn) pnr).

(** The body of the pool loop of [RecGateAct]; [pools] is [ly.Pools]. *)
Definition RecGatePool (pools : list Pool.t) (ly : PFCDeepLayer.t F) (gi : Z)
  (gs : GateState.t F) (pnrs : list (PFCNeuron.t F))
  : option (list (PFCNeuron.t F)) :=
  if negb (GateState.Now gs) then Some pnrs
  else
    pl ← Go.index pools (1 + gi);
    Go.for_count (RecGateUnit ly) (Pool.StIdx pl) (Pool.EdIdx pl) pnrs.

(** [PFCDeepLayer.RecGateAct]. *)
Definition RecGateAct (pools : list Pool.t) (ly : PFCDeepLayer.t F)
  : option (PFCDeepLayer.t F) :=
  pnrs ← Go.for_state (RecGatePool pools ly) 0 (PFCDeepLayer.GateStates ly)
           (PFCDeepLayer.PFCNeurs ly);
  Some (PFCDeepLayer.set_PFCNeurs pnrs ly).

(** [PFCDeepLayer.DoQuarter2DWt]. *)
Definition DoQuarter2DWt (ly : PFCDeepLayer.t F) : bool :=
  if negb (PFCGateParams.GateQtr (PFCDeepLayer.Gate ly) 1) then false else true.

End more_methods.

End pbwm.

(** ** pvlv/pv_layer.go *)

Module pvlv.

Import leabra.

(** Modelled from the spec: [ModNeuron] is declared in another file of
    package pvlv.  Section 4.1 names its field [PVAct], the only one the
    file writes. *)
Module ModNeuron.
Record t (F : Type) := mk { PVAct : F }.
Arguments mk {F}. Arguments PVAct {F}.
End ModNeuron.

Module ModLayer.
Record t (F : Type) := mk { ModNeurs : list (ModNeuron.t F); IsPVReceiver : bool }.
Arguments mk {F}. Arguments ModNeurs {F}. Arguments IsPVReceiver {F}.
Definition set_ModNeurs {F} (ms : list (ModNeuron.t F)) (l : t F) : t F :=
  mk ms (IsPVReceiver l).
End ModLayer.

(** The layers of a network by dynamic type: one that implements
    [IModLayer], with the [ModLayer] that [AsMod] returns, or another. *)
Inductive NetLayer (F : Type) :=
  | LMod (ly : ModLayer.t F)
  | LOther.
Arguments LMod {F}. Arguments LOther {F}.

Module PVLayer.
Record t (F : Type) := mk {
  Neurons : list (Neuron.t F);
  SendPVQuarter : Z;
  PVReceivers : list string }.
Arguments mk {F}. Arguments Neurons {F}. Arguments SendPVQuarter {F}.
Arguments PVReceivers {F}.
End PVLayer.

Section methods.
Context {F : Type} `{Float32 F}.

(** [AddPVReceiver]: the assertion on the looked-up layer panics when the
    layer is absent or is no [IModLayer]. *)
Definition AddPVReceiver (nt : gmap string (NetLayer F)) (ly : PVLayer.t F)
  (lyNm : string) : option (gmap string (NetLayer F) * PVLayer.t F) :=
  let ly := PVLayer.mk (PVLayer.Neurons ly) (PVLayer.SendPVQuarter ly)
              (PVLayer.PVReceivers ly ++ [lyNm]) in
  match nt !! lyNm with
  | Some (LMod rly) =>
      Some (<[lyNm := LMod (ModLayer.mk (ModLayer.ModNeurs rly) true)]> nt, ly)
  | _ => None
  end.

(** The body of the unit loop of [SendPVAct]: the state is [rly.ModNeurs]. *)
Definition SendPVUnit (pi : Z) (pnr : Neuron.t F)
  (mnrs : list (ModNeuron.t F)) : option (list (ModNeuron.t F)) :=
  _ ← Go.index mnrs pi;
  Go.store mnrs pi (ModNeuron.mk (fmax (Neuron.Act pnr) (Neuron.Ext pnr))).

(** The body of the receiver loop of [SendPVAct]. *)
Definition SendPVTo (ly : PVLayer.t F) (li : Z) (rnm : string)
  (nt : gmap string (NetLayer F)) : option (gmap string (NetLayer F)) :=
  match nt !! rnm with
  | Some (LMod rly) =>
      mnrs ← Go.for_state SendPVUnit 0 (PVLayer.Neurons ly) (ModLayer.ModNeurs rly);
      Some (<[rnm := LMod (ModLayer.set_ModNeurs mnrs rly)]> nt)
  | _ => None
  end.

Definition SendPVAct (nt : gmap string (NetLayer F)) (ly : PVLayer.t F)
  : option (gmap string (NetLayer F)) :=
  Go.for_state (SendPVTo ly) 0 (PVLayer.PVReceivers ly) nt.

Definition CyclePost (nt : gmap string (NetLayer F)) (ly : PVLayer.t F)
  (ltime : Time.t) : option (gmap string (NetLayer F)) :=
  if Time.Quarter ltime =? PVLayer.SendPVQuarter ly
  then SendPVAct nt ly
  else Some nt.

End methods.

Section more_methods.
Context {F : Type} `{Float32 F}.

(** The constant [leabra.Q4], and [Build] of the embedded [leabra.Layer],
    which acts on the embedded layer and returns an error, [None] for
    [nil]. *)
Variable Q4 : Z.
Variable LayerBuild : list (Neuron.t F) → list (Neuron.t F) * option string.

(** [PVLayer.Build]. *)
Definition Build (ly : PVLayer.t F) : PVLayer.t F * option string :=
  let '(nrns, err) := LayerBuild (PVLayer.Neurons ly) in
  let ly := PVLayer.mk nrns (PVLayer.SendPVQuarter ly) (PVLayer.PVReceivers ly) in
  match err with
  | Some e => (ly, Some e)
  | None => (PVLayer.mk (PVLayer.Neurons ly) Q4 (PVLayer.PVReceivers ly), None)
  end.

End more_methods.

End pvlv.

(** ** A stand-in for the functions of package leabra

    It runs the definitions on concrete inputs; no statement below depends
    on what these functions compute.  [DecayStatePool] scales the activation
    of the units of the pool by [1 - decay]. *)

#[export] Instance LeabraExt_Q : LeabraExt Q := {
  NormFmAbsDWt := λ norm absDwt,
    let n := Qmax norm absDwt in (n, if Qeq_bool n 0 then 1%Q else Qinv n);
  MomentFmDWt := λ moment dwt, let m := Qplus moment dwt in (m, m);
  PrjnDefaults := λ lp, lp;
  DecayStatePool := λ ly pool decay,
    Some (leabra.Layer.set_Neurons
            ((λ n, if leabra.Neuron.SubPool n =? pool + 1
                   then leabra.Neuron.mk (leabra.Neuron.Off n)
                          (leabra.Neuron.SubPool n)
                          (Qmult (leabra.Neuron.Act n) (Qminus 1 decay))
                          (leabra.Neuron.Ext n) (leabra.Neuron.ActLrn n)
                   else n) <$> leabra.Layer.Neurons ly) ly)
}.

(** ** Concrete inputs

    Small networks on which the definitions are run. *)

Module Ex.
Import leabra.
Local Open Scope Q_scope.

Definition unit (sub : Z) (act lrn : Q) : Neuron.t Q := Neuron.mk false sub act 0 lrn.

(** A Matrix layer of two units in one pool, its thalamic layer, and a
    projection from a layer of two units: the first sends to both Matrix
    units, the second to the second one. *)
Definition rlay (daR : pcore.DaReceptors) : pcore.MatrixLayer.t Q :=
  pcore.MatrixLayer.mk
    (pcore.Layer.mk [unit 1 0 (1 # 2); unit 1 0 (1 # 4)] [1 # 2; 3 # 4] 10 (1 # 2))
    daR (pcore.MatrixParams.mk "VThal" (1 # 4) true 1 1) (1 # 2) (1 # 4).

Definition thal : pcore.VThalLayer.t Q :=
  pcore.VThalLayer.mk (pcore.Layer.mk [] [1 # 2] 10 0).

Definition mnet : gmap string (pcore.NetLayer Q) :=
  <["VThal"%string := pcore.LVThal thal]> ∅.

Definition slay : list (Neuron.t Q) := [unit 1 0 1; unit 1 0 2].

Definition pj (curTrlDA : bool) : pcore.MatrixPrjn.t Q :=
  pcore.MatrixPrjn.mk (LearnSynParams.mk true 1 false false 1 false)
    [2; 1]%Z [0; 2]%Z [0; 1; 1]%Z
    [Synapse.mk 0 0 7 9; Synapse.mk 0 0 7 9; Synapse.mk 0 0 7 9]
    (pcore.MatrixTraceParams.mk curTrlDA 2)
    [pcore.TraceSyn.mk 0 1; pcore.TraceSyn.mk 0 1; pcore.TraceSyn.mk 0 1].

(** A maintenance PFC deep layer "PFCmntD" of one pool of two units, with
    [MaxMaint = 3] and the gating quarters 1 and 3, and its super layer
    "PFCmnt". *)
Definition gate : pbwm.PFCGateParams.t :=
  pbwm.PFCGateParams.mk (λ q : Z, (q =? 1)%Z || (q =? 3)%Z) false true.

Definition deep (gs : pbwm.GateState.t Q) : pbwm.PFCDeepLayer.t Q :=
  pbwm.PFCDeepLayer.mk
    (Layer.mk [1; 1; 1; 2]%Z [unit 1 0 0; unit 1 0 0])
    [gs] gate (pbwm.PFCMaintParams.mk true (4 # 5) false 0 3)
    (λ dyn time, if Qle_bool time 0 then 1 else 1 # 2)
    [pbwm.PFCNeuron.mk 0 (1 # 3) (1 # 3); pbwm.PFCNeuron.mk 0 (1 # 3) (1 # 3)].

Definition super : Layer.t Q :=
  Layer.mk [1; 1; 1; 2]%Z [unit 1 (1 # 2) 0; unit 1 (1 # 4) 0].

Definition pnet (gs : pbwm.GateState.t Q) : gmap string (pbwm.NetLayer Q) :=
  <["PFCmntD"%string := pbwm.LPFCDeep (deep gs)]>
    (<["PFCmnt"%string := pbwm.LLeabra super]> ∅).

(** The same network without the super layer. *)
Definition pnet_alone (gs : pbwm.GateState.t Q) : gmap string (pbwm.NetLayer Q) :=
  <["PFCmntD"%string := pbwm.LPFCDeep (deep gs)]> ∅.

(** A primary value layer of two units with one registered receiver. *)
Definition pv : pvlv.PVLayer.t Q :=
  pvlv.PVLayer.mk
    [Neuron.mk false 1 (1 # 2) (3 # 4) 0; Neuron.mk false 1 (1 # 3) 0 0]
    3 ["VSPatch"%string].

Definition vnet : gmap string (pvlv.NetLayer Q) :=
  <["VSPatch"%string :=
      pvlv.LMod (pvlv.ModLayer.mk [pvlv.ModNeuron.mk 0; pvlv.ModNeuron.mk 0] true)]> ∅.


(** A Matrix layer over the rationals with NaN, and the variable list and
    the lookup of a base layer that knows the variable "Act". *)
Definition nlay : pcore.MatrixLayer.t (option Q) :=
  pcore.MatrixLayer.mk
    (pcore.Layer.mk [Neuron.mk false 1%Z None None None] [] 10%Z (Some (1 # 2)))
    pcore.D1R (pcore.MatrixParams.mk "VThal" None true None None)
    (Some (1 # 3)) (Some (1 # 4)).

Definition base_vars : list string := ["Act"; "Ge"]%string.

Definition base_idx (ly : pcore.Layer.t (option Q)) (varNm : string)
  : Z * option string :=
  if String.eqb varNm "Act" then (0%Z, None) else ((-1)%Z, Some "not found"%string).

(** An output-gate layer "PFCoutD" that clears the maintenance layer
    "PFCmntD" of the example, and a network with both, the super layer
    "PFCmnt" and one more layer. *)
Definition out_deep (gs : pbwm.GateState.t Q) : pbwm.PFCDeepLayer.t Q :=
  pbwm.PFCDeepLayer.mk
    (Layer.mk [1; 1; 1; 2]%Z [unit 1 (1 # 2) 0; unit 1 (1 # 4) 0])
    [gs] (pbwm.PFCGateParams.mk (λ q : Z, (q =? 0)%Z) true true)
    (pbwm.PFCMaintParams.mk false (4 # 5) true 0 1)
    (λ dyn time, 1)
    [pbwm.PFCNeuron.mk 0 (1 # 3) (1 # 3); pbwm.PFCNeuron.mk 0 (1 # 3) (1 # 3)].

Definition onet (gs gsm : pbwm.GateState.t Q) : gmap string (pbwm.NetLayer Q) :=
  <["PFCoutD"%string := pbwm.LPFCDeep (out_deep gs)]>
    (<["Other"%string := pbwm.LLeabra super]> (pnet gsm)).

(** [ly.Pools] of a layer of one pool of two units: the pool of the layer
    and the pool of the stripe. *)
Definition pools : list pbwm.Pool.t := [pbwm.Pool.mk 0 2; pbwm.Pool.mk 0 2].

(** A super layer with more rows than the deep layer of the example. *)
Definition super_tall : Layer.t Q :=
  Layer.mk [1; 1; 2; 2]%Z [unit 1 0 0; unit 1 0 0; unit 1 0 0; unit 1 0 0].

(** A receiver of three units and one of a single unit, for the source of
    two units, and the source with the receivers [rs]. *)
Definition vnet_mixed : gmap string (pvlv.NetLayer Q) :=
  <["Wide"%string :=
      pvlv.LMod (pvlv.ModLayer.mk
                   [pvlv.ModNeuron.mk 0; pvlv.ModNeuron.mk 0; pvlv.ModNeuron.mk 5]
                   false)]>
  (<["Narrow"%string := pvlv.LMod (pvlv.ModLayer.mk [pvlv.ModNeuron.mk 0] false)]> ∅).

Definition pv_to (rs : list string) : pvlv.PVLayer.t Q :=
  pvlv.PVLayer.mk (pvlv.PVLayer.Neurons pv) 3%Z rs.

End Ex.

(** ** The gating scenario of the specification *)

Module Run.
Import leabra pbwm.

(** The gate decision of the upstream layer, written into the pool of the
    example layer: [Act] and [Now]. *)
Definition decide_gate (act : Q) (now : bool) (nt : gmap string (NetLayer Q))
  : option (gmap string (NetLayer Q)) :=
  ly ← getPFC nt "PFCmntD";
  Some (<["PFCmntD"%string :=
            LPFCDeep (PFCDeepLayer.set_GateStates
                        ((λ gs, GateState.mk act now (GateState.Cnt gs))
                           <$> PFCDeepLayer.GateStates ly) ly)]> nt).

(** [QuarterFinal] of the example layer: the counter update, then
    [DeepMaint]. *)
Definition quarter_final (q : Z) (nt : gmap string (NetLayer Q))
  : option (gmap string (NetLayer Q)) :=
  ly ← getPFC nt "PFCmntD";
  ly ← DeepMaint nt "PFCmntD" (UpdtGateCnt ly (Time.mk 0 q)) (Time.mk 0 q);
  Some (<["PFCmntD"%string := LPFCDeep ly]> nt).

(** [Cnt] of the pool, and [Maint] and [MaintGe] of the first unit. *)
Definition observe (nt : gmap string (NetLayer Q)) : option (Z * Q * Q) :=
  ly ← getPFC nt "PFCmntD";
  gs ← PFCDeepLayer.GateStates ly !! 0%nat;
  pnr ← PFCDeepLayer.PFCNeurs ly !! 0%nat;
  Some (GateState.Cnt gs, Qred (PFCNeuron.Maint pnr), Qred (PFCNeuron.MaintGe pnr)).

(** The scenario of section 8 with [MaxMaint = 3]: a gate event, three
    eligible quarters, a gating evaluation without a gate event, and one
    more eligible quarter. *)
Definition scenario : option (list (Z * Q * Q)) :=
  let nt0 := Ex.pnet (GateState.mk 0%Q false (-1)) in
  nt1 ← decide_gate 1 true nt0 ≫= λ nt, Gating nt "PFCmntD" (Time.mk 0 0);
  nt2 ← decide_gate 0 false nt1 ≫= quarter_final 1;
  nt3 ← quarter_final 3 nt2;
  nt4 ← quarter_final 1 nt3;
  nt5 ← decide_gate 0 true nt4 ≫= λ nt, Gating nt "PFCmntD" (Time.mk 0 0);
  nt6 ← decide_gate 0 false nt5 ≫= quarter_final 1;
  mapM observe [nt1; nt2; nt3; nt4; nt5; nt6].

End Run.

(** ** Predicates of the statements about [DWt] *)

Section DWt_predicates.
Import leabra pcore.
Context {F : Type} `{Float32 F} `{LeabraExt F}.

(** The connection arrays of a projection as [Build] lays them out: one
    entry per synapse in the three synapse arrays, for each sending unit a
    block inside them, the blocks in the order of the senders without
    overlap, and every receiver index that of a unit of the receiving
    layer. *)
Definition Prjn_wf (pj : MatrixPrjn.t F) (slay : list (Neuron.t F))
  (rlay : MatrixLayer.t F) : Prop :=
  length (MatrixPrjn.TrSyns pj) = length (MatrixPrjn.Syns pj) ∧
  length (MatrixPrjn.SConIdx pj) = length (MatrixPrjn.Syns pj) ∧
  (∀ si : nat, (si < length slay)%nat →
     ∃ st nc, MatrixPrjn.SConIdxSt pj !! si = Some st ∧
              MatrixPrjn.SConN pj !! si = Some nc ∧
              0 <= st ∧ 0 <= nc ∧ st + nc <= Go.len (MatrixPrjn.Syns pj)) ∧
  (∀ (si sj : nat) st_i nc_i st_j, (si < sj)%nat →
     MatrixPrjn.SConIdxSt pj !! si = Some st_i →
     MatrixPrjn.SConN pj !! si = Some nc_i →
     MatrixPrjn.SConIdxSt pj !! sj = Some st_j → st_i + nc_i <= st_j) ∧
  (∀ (k : nat) ri, MatrixPrjn.SConIdx pj !! k = Some ri →
     is_Some (Go.index (MatrixLayer.Neurons rlay) ri)).

(** Synapse [k], of sending unit [sn], holds in [pj'] the result of the
    synapse loop body on its state in [pj]; [Norm] is left out when the
    normalization pass rewrites it. *)
Definition SynDone (pj pj' : MatrixPrjn.t F) (rlay : MatrixLayer.t F)
  (sn : Neuron.t F) (k : nat) : Prop :=
  ∃ sy trsy ri rn sy',
    MatrixPrjn.Syns pj !! k = Some sy ∧
    MatrixPrjn.TrSyns pj !! k = Some trsy ∧
    MatrixPrjn.SConIdx pj !! k = Some ri ∧
    Go.index (MatrixLayer.Neurons rlay) ri = Some rn ∧
    let r := SynDWt (MatrixPrjn.Learn pj) (MatrixPrjn.Trace pj)
               (MatrixLayer.DA rlay) (MatrixLayer.DALrn rlay)
               (achDecay pj (MatrixLayer.ACh rlay)) rn sn sy trsy in
    MatrixPrjn.TrSyns pj' !! k = Some (snd r) ∧
    MatrixPrjn.Syns pj' !! k = Some sy' ∧
    Synapse.Wt sy' = Synapse.Wt (fst r) ∧
    Synapse.DWt sy' = Synapse.DWt (fst r) ∧
    Synapse.Moment sy' = Synapse.Moment (fst r) ∧
    (LearnSynParams.NormOn (MatrixPrjn.Learn pj) = false → sy' = fst r).

(** The fields of a projection that [DWt] does not write. *)
Definition params_eq (pj1 pj : MatrixPrjn.t F) : Prop :=
  MatrixPrjn.Learn pj1 = MatrixPrjn.Learn pj ∧
  MatrixPrjn.SConN pj1 = MatrixPrjn.SConN pj ∧
  MatrixPrjn.SConIdxSt pj1 = MatrixPrjn.SConIdxSt pj ∧
  MatrixPrjn.SConIdx pj1 = MatrixPrjn.SConIdx pj ∧
  MatrixPrjn.Trace pj1 = MatrixPrjn.Trace pj.

(** The invariant of the sender loop of [DWt] after [n] senders. *)
Definition DWt_inv (pj : MatrixPrjn.t F) (slay : list (Neuron.t F))
  (rlay : MatrixLayer.t F) (n : nat) (pj1 : MatrixPrjn.t F) : Prop :=
  params_eq pj1 pj ∧
  length (MatrixPrjn.Syns pj1) = length (MatrixPrjn.Syns pj) ∧
  length (MatrixPrjn.TrSyns pj1) = length (MatrixPrjn.TrSyns pj) ∧
  (∀ k : nat,
     (∀ (si : nat) st nc, (si < n)%nat →
        MatrixPrjn.SConIdxSt pj !! si = Some st →
        MatrixPrjn.SConN pj !! si = Some nc →
        ¬ (st <= Z.of_nat k < st + nc)) →
     MatrixPrjn.Syns pj1 !! k = MatrixPrjn.Syns pj !! k ∧
     MatrixPrjn.TrSyns pj1 !! k = MatrixPrjn.TrSyns pj !! k) ∧
  (∀ (si : nat) sn st nc ci, (si < n)%nat → slay !! si = Some sn →
     MatrixPrjn.SConIdxSt pj !! si = Some st →
     MatrixPrjn.SConN pj !! si = Some nc → 0 <= ci < nc →
     SynDone pj pj1 rlay sn (Z.to_nat (st + ci))).

End DWt_predicates.

(** ** Predicates of the statements about the gating state machine *)

Section shape_defs.
Import leabra pbwm.
Context {F : Type}.

(** Two layers have the same dynamic type and, for PFC deep layers, the
    same number of pools. *)
Definition same_kind (a b : NetLayer F) : Prop :=
  match a, b with
  | LPFCDeep x, LPFCDeep y =>
      length (PFCDeepLayer.GateStates x) = length (PFCDeepLayer.GateStates y)
  | LLeabra _, LLeabra _ => True
  | _, _ => False
  end.

(** Two networks have the same layers, each of the same kind. *)
Definition same_shape (nt nt' : gmap string (NetLayer F)) : Prop :=
  ∀ k, option_Forall2 same_kind (nt !! k) (nt' !! k).

End shape_defs.

Section gating_defs.
Import leabra pbwm.
Context {F : Type} `{Float32 F} `{LeabraExt F}.

(** The counter that the loop body of [Gating] leaves in a pool. *)
Definition GateCnt (mp : PFCMaintParams.t F) (gs : GateState.t F) : Z :=
  if negb (GateState.Now gs) then GateState.Cnt gs
  else
    let c := if fgt (GateState.Act gs) (of_int 0) then 0 else GateState.Cnt gs in
    if PFCMaintParams.MaxMaint mp <=? c then -1 else c.

(** What [ClearMaint] needs to run for the first [n] pools: a name of four
    bytes or more, and a maintenance layer that is absent, or is a PFC deep
    layer with these pools whose super layer is present. *)
Definition Maint_resolved (nt : gmap string (NetLayer F)) (nm : string)
  (n : nat) : Prop :=
  (4 ≤ String.length nm)%nat ∧
  match nt !! MaintName nm with
  | None => True
  | Some (LPFCDeep pfcm) =>
      (n ≤ length (PFCDeepLayer.GateStates pfcm))%nat ∧
      is_Some (nt !! SuperName (MaintName nm))
  | Some (LLeabra _) => False
  end.

(** What [Gating] needs to run: [DecayStatePool] returns, the maintenance
    layer is as [ClearMaint] needs it for an output gate that clears, and
    the super layer is present for a maintenance gate. *)
Definition Gating_resolved (nt : gmap string (NetLayer F)) (nm : string)
  (ly : PFCDeepLayer.t F) : Prop :=
  (∀ b pool decay, is_Some (DecayStatePool b pool decay)) ∧
  if PFCGateParams.OutGate (PFCDeepLayer.Gate ly) then
    PFCMaintParams.OutClearMaint (PFCDeepLayer.Maint ly) = true →
    Maint_resolved nt nm (length (PFCDeepLayer.GateStates ly))
  else
    (1 ≤ String.length nm)%nat ∧ is_Some (nt !! SuperName nm).

End gating_defs.

Section gating_pool_defs.
Import leabra pbwm.
Context {F : Type} `{Float32 F} `{LeabraExt F}.
Implicit Types nt : gmap string (NetLayer F).

(** The receiver after the loop body of pool [gi]. *)
Definition Gated (ly : PFCDeepLayer.t F) (gi : nat) (gs : GateState.t F)
  : PFCDeepLayer.t F :=
  PFCDeepLayer.set_GateStates
    (<[gi := GateState.set_Cnt (GateCnt (PFCDeepLayer.Maint ly) gs) gs]>
       (PFCDeepLayer.GateStates ly)) ly.

End gating_pool_defs.

Section gating_loop_defs.
Import leabra pbwm.
Context {F : Type} `{Float32 F} `{LeabraExt F}.
Implicit Types nt : gmap string (NetLayer F).

(** [Gating] returns before its pool loop. *)
Definition GatingSkipped (ly : PFCDeepLayer.t F) (ltime : Time.t) : bool :=
  PFCGateParams.OutGate (PFCDeepLayer.Gate ly)
  && PFCGateParams.OutQ1Only (PFCDeepLayer.Gate ly)
  && (1 <? Time.Quarter ltime).

(** The invariant of the pool loop of [Gating] after [k] pools. *)
Definition Gating_inv (nt : gmap string (NetLayer F)) (nm : string)
  (ly : PFCDeepLayer.t F) (k : nat) (nt1 : gmap string (NetLayer F)) : Prop :=
  same_shape nt nt1 ∧
  ∃ ly1, getPFC nt1 nm = Some ly1 ∧
    PFCDeepLayer.Gate ly1 = PFCDeepLayer.Gate ly ∧
    PFCDeepLayer.Maint ly1 = PFCDeepLayer.Maint ly ∧
    PFCDeepLayer.PFCNeurs ly1 = PFCDeepLayer.PFCNeurs ly ∧
    ∀ (gi : nat) gs, PFCDeepLayer.GateStates ly !! gi = Some gs →
      PFCDeepLayer.GateStates ly1 !! gi =
        Some (if decide (gi < k)%nat
              then GateState.set_Cnt (GateCnt (PFCDeepLayer.Maint ly) gs) gs
              else gs).

End gating_loop_defs.

Section deep_defs.
Import leabra pbwm.
Context {F : Type} `{Float32 F}.

(** The divisions and index expressions of the unit loop of [DeepMaint] are
    defined and in range, for the units that are not off. *)
Definition DeepMaint_in_range (ly : PFCDeepLayer.t F) (sly : Layer.t F)
  (d : DeepDims.t) : Prop :=
  ∀ (ni : nat) (nrn : Neuron.t F),
    PFCDeepLayer.Neurons ly !! ni = Some nrn → Neuron.Off nrn = false →
    ∃ c gs,
      UnitCoords d (Z.of_nat ni) = Some c ∧
      is_Some (PFCDeepLayer.PFCNeurs ly !! ni) ∧
      Go.index (PFCDeepLayer.GateStates ly) (Neuron.SubPool nrn - 1) = Some gs ∧
      (0 <= GateState.Cnt gs <= 1 →
       ∃ si, SuperIdx d c = Some si ∧ is_Some (Go.index (Layer.Neurons sly) si)).

(** What the loop body leaves in [PFCNeurs[ni]]. *)
Definition DeepUnit (ly : PFCDeepLayer.t F) (sly : Layer.t F) (d : DeepDims.t)
  (ni : nat) (pnr : PFCNeuron.t F) : PFCNeuron.t F :=
  match PFCDeepLayer.Neurons ly !! ni with
  | Some nrn =>
      if Neuron.Off nrn then pnr
      else
        default pnr
          (c ← UnitCoords d (Z.of_nat ni);
           gs ← Go.index (PFCDeepLayer.GateStates ly) (Neuron.SubPool nrn - 1);
           pnr1 ← MaintFmCnt ly sly d c gs pnr;
           Some (MaintGeFmMaint ly d gs pnr1))
  | None => pnr
  end.

(** The invariant of the unit loop of [DeepMaint] after [k] units. *)
Definition DeepMaint_inv (ly : PFCDeepLayer.t F) (sly : Layer.t F)
  (d : DeepDims.t) (k : nat) (pnrs : list (PFCNeuron.t F)) : Prop :=
  ∀ (ni : nat),
    pnrs !! ni =
      (λ pnr, if decide (ni < k)%nat then DeepUnit ly sly d ni pnr else pnr)
        <$> PFCDeepLayer.PFCNeurs ly !! ni.

End deep_defs.

(** ** Predicates of the statements about the broadcast *)

Section pv_defs.
Import leabra pvlv.
Context {F : Type} `{Float32 F}.

(** The units of a receiver hold the broadcast of the units [nrns]. *)
Definition Sent (nrns : list (Neuron.t F)) (mnrs : list (ModNeuron.t F)) : Prop :=
  ∀ (pi : nat) pnr, nrns !! pi = Some pnr →
    ModNeuron.PVAct <$> mnrs !! pi = Some (fmax (Neuron.Act pnr) (Neuron.Ext pnr)).

(** Every registered receiver is a layer with [ModNeurs], of the shape of
    the source layer. *)
Definition Receivers_resolved (nt : gmap string (NetLayer F)) (ly : PVLayer.t F)
  : Prop :=
  ∀ r, r ∈ PVLayer.PVReceivers ly →
    ∃ rly, nt !! r = Some (LMod rly) ∧
           length (ModLayer.ModNeurs rly) = length (PVLayer.Neurons ly).

(** The invariant of the unit loop of [SendPVAct] after [k] units. *)
Definition SendPVUnit_inv (nrns : list (Neuron.t F))
  (mnrs : list (ModNeuron.t F)) (k : nat) (mnrs1 : list (ModNeuron.t F)) : Prop :=
  ∀ pi : nat,
    mnrs1 !! pi =
      if decide (pi < k)%nat
      then (λ pnr, ModNeuron.mk (fmax (Neuron.Act pnr) (Neuron.Ext pnr))) <$> nrns !! pi
      else mnrs !! pi.

(** The invariant of the receiver loop of [SendPVAct] after [k] receivers. *)
Definition SendPV_inv (nt : gmap string (NetLayer F)) (ly : PVLayer.t F)
  (k : nat) (nt1 : gmap string (NetLayer F)) : Prop :=
  ∀ r,
    (r ∉ take k (PVLayer.PVReceivers ly) → nt1 !! r = nt !! r) ∧
    (r ∈ PVLayer.PVReceivers ly →
     ∃ rly1, nt1 !! r = Some (LMod rly1) ∧
       length (ModLayer.ModNeurs rly1) = length (PVLayer.Neurons ly) ∧
       (r ∈ take k (PVLayer.PVReceivers ly) →
        Sent (PVLayer.Neurons ly) (ModLayer.ModNeurs rly1))).

End pv_defs.

(** ** Predicates of the further statements about [DWt] *)

Section DWt_more_predicates.
Import leabra pcore.
Context {F : Type} `{Float32 F} `{LeabraExt F}.

(** Synapse [k] is one of the synapses of the sending unit [sn]. *)
Definition SynOf (pj : MatrixPrjn.t F) (slay : list (Neuron.t F)) (k : nat)
  (sn : Neuron.t F) : Prop :=
  ∃ (si : nat) st nc ci,
    slay !! si = Some sn ∧
    MatrixPrjn.SConIdxSt pj !! si = Some st ∧
    MatrixPrjn.SConN pj !! si = Some nc ∧
    0 <= ci < nc ∧ k = Z.to_nat (st + ci).



End DWt_more_predicates.

(** ** Predicates of the further statements about the PFC deep layer *)

Section gating_frame_defs.
Import leabra pbwm.
Context {F : Type}.
Implicit Types nt : gmap string (NetLayer F).

(** The layers that [Gating] may write for the receiver [ly] of name [nm]:
    the receiver, its super layer for a maintenance gate, and the
    maintenance layer and that layer's super layer for an output gate that
    clears. *)
Definition GatingWrites (nm : string) (ly : PFCDeepLayer.t F) (k : string) : Prop :=
  k = nm ∨
  (PFCGateParams.OutGate (PFCDeepLayer.Gate ly) = false ∧ k = SuperName nm) ∨
  (PFCGateParams.OutGate (PFCDeepLayer.Gate ly) = true ∧
   PFCMaintParams.OutClearMaint (PFCDeepLayer.Maint ly) = true ∧
   (k = MaintName nm ∨ k = SuperName (MaintName nm))).

(** The layer of name [nm] is a PFC deep layer with the parameters of
    [ly]. *)
Definition KeepsParams nt nm (ly : PFCDeepLayer.t F) : Prop :=
  ∃ ly1, getPFC nt nm = Some ly1 ∧
    PFCDeepLayer.Gate ly1 = PFCDeepLayer.Gate ly ∧
    PFCDeepLayer.Maint ly1 = PFCDeepLayer.Maint ly.

(** Unit [ni] lies in the unit range of one of the first [k] pools that gate
    now. *)
Definition GatesNow (pools : list Pool.t) (ly : PFCDeepLayer.t F) (k : nat)
  (ni : nat) : Prop :=
  ∃ (gi : nat) gs pl, (gi < k)%nat ∧
    PFCDeepLayer.GateStates ly !! gi = Some gs ∧ GateState.Now gs = true ∧
    pools !! S gi = Some pl ∧ Pool.StIdx pl <= Z.of_nat ni < Pool.EdIdx pl.

(** What [RecGateAct] needs to run: one [PFCNeuron] per unit, and for every
    pool that gates now its entry in [ly.Pools] with a unit range inside the
    layer. *)
Definition RecGate_in_range (pools : list Pool.t) (ly : PFCDeepLayer.t F) : Prop :=
  length (PFCDeepLayer.PFCNeurs ly) = length (PFCDeepLayer.Neurons ly) ∧
  ∀ (gi : nat) gs, PFCDeepLayer.GateStates ly !! gi = Some gs →
    GateState.Now gs = true →
    ∃ pl, pools !! S gi = Some pl ∧
      (Pool.StIdx pl < Pool.EdIdx pl →
       0 <= Pool.StIdx pl ∧ Pool.EdIdx pl <= Go.len (PFCDeepLayer.Neurons ly)).

(** The state of the loops of [RecGateAct] when the units selected by [C]
    have been recorded. *)
Definition Recorded (ly : PFCDeepLayer.t F) (C : nat → Prop)
  (pnrs : list (PFCNeuron.t F)) : Prop :=
  length pnrs = length (PFCDeepLayer.PFCNeurs ly) ∧
  ∀ (ni : nat) pnr, PFCDeepLayer.PFCNeurs ly !! ni = Some pnr →
    ∃ pnr', pnrs !! ni = Some pnr' ∧
      PFCNeuron.Maint pnr' = PFCNeuron.Maint pnr ∧
      PFCNeuron.MaintGe pnr' = PFCNeuron.MaintGe pnr ∧
      (PFCNeuron.ActG pnr' = PFCNeuron.ActG pnr ∨
       ∃ nrn, PFCDeepLayer.Neurons ly !! ni = Some nrn ∧ Neuron.Off nrn = false ∧
              PFCNeuron.ActG pnr' = Neuron.Act nrn ∧ C ni) ∧
      (C ni → ∀ nrn, PFCDeepLayer.Neurons ly !! ni = Some nrn →
         Neuron.Off nrn = false → PFCNeuron.ActG pnr' = Neuron.Act nrn).

End gating_frame_defs.

(** ** Predicates of the further statements about the broadcast *)

Section pv_more_defs.
Import leabra pvlv.
Context {F : Type} `{Float32 F}.

(** The units of a receiver after the broadcast of the units [nrns]: the
    first [len(nrns)] hold the broadcast, the others are as before. *)
Definition Broadcast (nrns : list (Neuron.t F)) (mnrs : list (ModNeuron.t F))
  : list (ModNeuron.t F) :=
  ((λ pnr, ModNeuron.mk (fmax (Neuron.Act pnr) (Neuron.Ext pnr))) <$> nrns)
    ++ drop (length nrns) mnrs.

(** Every registered receiver is a layer with [ModNeurs] that has a unit for
    every unit of the source layer. *)
Definition Receivers_fit (nt : gmap string (NetLayer F)) (ly : PVLayer.t F)
  : Prop :=
  ∀ r, r ∈ PVLayer.PVReceivers ly →
    ∃ rly, nt !! r = Some (LMod rly) ∧
           (length (PVLayer.Neurons ly) ≤ length (ModLayer.ModNeurs rly))%nat.

(** The receiver [r] cannot take the broadcast: it is absent, has no
    [ModNeurs], or has fewer units than the source layer. *)
Definition Receiver_unfit (nt : gmap string (NetLayer F)) (ly : PVLayer.t F)
  (r : string) : Prop :=
  match nt !! r with
  | Some (LMod rly) =>
      (length (ModLayer.ModNeurs rly) < length (PVLayer.Neurons ly))%nat
  | _ => True
  end.

(** The receiver layer after the broadcast. *)
Definition Received (ly : PVLayer.t F) (rly : ModLayer.t F) : ModLayer.t F :=
  ModLayer.set_ModNeurs (Broadcast (PVLayer.Neurons ly) (ModLayer.ModNeurs rly)) rly.

(** The invariant of the receiver loop of [SendPVAct] after [k] receivers,
    for receivers that may have more units than the source layer. *)
Definition SendPV_fit_inv (nt : gmap string (NetLayer F)) (ly : PVLayer.t F)
  (k : nat) (nt1 : gmap string (NetLayer F)) : Prop :=
  ∀ r,
    (r ∉ take k (PVLayer.PVReceivers ly) → nt1 !! r = nt !! r) ∧
    (r ∈ take k (PVLayer.PVReceivers ly) →
     ∃ rly, nt !! r = Some (LMod rly) ∧ nt1 !! r = Some (LMod (Received ly rly))).

End pv_more_defs.

(** * Lemmas and theorems *)

(** ** Go integers, indexing and loops *)

Section go_lemmas.
Context {A B S : Type}.

Lemma wrap_id (z : Z) : Go.int_min <= z <= Go.int_max → Go.wrap z = z.
Proof.
  unfold Go.wrap, Go.int_min, Go.int_max. intros Hz.
  rewrite Z.mod_small; lia.
Qed.

Lemma index_of_nat (l : list A) (n : nat) : Go.index l (Z.of_nat n) = l !! n.
Proof.
  unfold Go.index. destruct (Z.ltb_spec (Z.of_nat n) 0); [lia|].
  by rewrite Nat2Z.id.
Qed.

Lemma store_Some (l : list A) (i : Z) (x y : A) :
  Go.index l i = Some y → Go.store l i x = Some (<[Z.to_nat i := x]> l).
Proof. unfold Go.store. by intros ->. Qed.

Lemma for_range_lookup (body : Z → A → option B) (l : list A) (k : list B) :
  Go.for_range body l = Some k →
  ∀ (i : nat) (x : A), l !! i = Some x →
    ∃ y, k !! i = Some y ∧ body (Z.of_nat i) x = Some y.
Proof.
  unfold Go.for_range. intros Hm i x Hx.
  apply mapM_Some_1 in Hm.
  eapply Forall2_lookup_l in Hm as (y & Hy & Hb).
  2:{ rewrite list_lookup_imap, Hx. reflexivity. }
  eauto.
Qed.

Lemma for_range_length (body : Z → A → option B) (l : list A) (k : list B) :
  Go.for_range body l = Some k → length k = length l.
Proof.
  unfold Go.for_range. intros Hm. apply length_mapM in Hm.
  by rewrite length_imap in Hm.
Qed.

Lemma for_range_total (body : Z → A → option B) (l : list A) :
  (∀ (i : nat) (x : A), l !! i = Some x → is_Some (body (Z.of_nat i) x)) →
  is_Some (Go.for_range body l).
Proof.
  unfold Go.for_range. intros Hb. apply mapM_is_Some_2.
  apply Forall_lookup_2. intros i [j x] Hix.
  rewrite list_lookup_imap in Hix.
  destruct (l !! i) as [x'|] eqn:Hx; simplify_eq/=.
  by apply Hb.
Qed.

(** The invariant rule of a loop with state. *)
Lemma for_state_inv (P : nat → S → Prop) (body : Z → A → S → option S)
  (l : list A) (s : S) :
  P 0%nat s →
  (∀ (k : nat) (x : A) (s1 : S), l !! k = Some x → P k s1 →
     ∃ s2, body (Z.of_nat k) x s1 = Some s2 ∧ P (Datatypes.S k) s2) →
  ∃ s', Go.for_state body 0 l s = Some s' ∧ P (length l) s'.
Proof.
  assert (G : ∀ (l : list A) (n : nat) (s : S),
    P n s →
    (∀ (k : nat) (x : A) (s1 : S), l !! k = Some x → P (n + k)%nat s1 →
       ∃ s2, body (Z.of_nat (n + k)) x s1 = Some s2 ∧ P (Datatypes.S (n + k)) s2) →
    ∃ s', Go.for_state body (Z.of_nat n) l s = Some s' ∧ P (n + length l)%nat s').
  { clear l s. induction l as [|x l IH]; intros n s HP Hstep; simpl.
    - exists s. by rewrite Nat.add_0_r.
    - destruct (Hstep 0%nat x s eq_refl) as (s2 & Hb & HP2).
      { by rewrite Nat.add_0_r. }
      rewrite Nat.add_0_r in Hb, HP2. rewrite Hb. simpl.
      replace (Z.of_nat n + 1) with (Z.of_nat (Datatypes.S n)) by lia.
      destruct (IH (Datatypes.S n) s2 HP2) as (s' & Hs' & HP').
      { intros k y s1 Hy HP1.
        replace (Datatypes.S n + k)%nat with (n + Datatypes.S k)%nat in * by lia.
        by apply Hstep. }
      exists s'. split; [done|].
      by replace (n + Datatypes.S (length l))%nat with (Datatypes.S n + length l)%nat by lia. }
  intros HP Hstep. apply (G l 0%nat s HP Hstep).
Qed.

End go_lemmas.

(** ** pcore: the dopamine derivation *)

Section DAActLrn_facts.
Import leabra pcore.
Context {F : Type} `{Float32 F}.

Lemma ActLrnUnit_total ly tly :
  ActLrn_in_range ly tly →
  ∀ (ni : nat) nrn, MatrixLayer.Neurons ly !! ni = Some nrn →
    is_Some (ActLrnUnit ly tly (Z.of_nat ni) nrn).
Proof.
  intros Hr ni nrn Hn. unfold ActLrnUnit.
  destruct (Neuron.Off nrn) eqn:Hoff; [by eexists|].
  destruct (Hr ni nrn Hn Hoff) as [[a Ha] [tact Ht]].
  rewrite index_of_nat, Ha. simpl. rewrite Ht. simpl.
  destruct (fgt _ _); by eexists.
Qed.

Lemma DAActLrn_DALrn nt ly ltime ly' :
  DAActLrn nt ly ltime = Some ly' → MatrixLayer.DALrn ly' = DALrnFmDA ly.
Proof.
  unfold DAActLrn. simpl.
  destruct (_ <? _); [by intros [= <-]|].
  destruct (ThalLayer _ _) as [[tly|]|]; simpl; [| by intros [= <-] | done].
  destruct (Go.for_range _ _); simpl; [by intros [= <-] | done].
Qed.

Lemma DAActLrn_total nt ly ltime :
  DAActLrn_runs nt ly ltime → is_Some (DAActLrn nt ly ltime).
Proof.
  unfold DAActLrn. simpl. intros Hruns.
  destruct (Z.ltb_spec (Time.Cycle ltime) (Layer.AlphaMaxCyc (MatrixLayer.Layer ly)));
    [by eexists|].
  destruct Hruns as [? | [Habs | (tly & Htly & Hr)]]; [lia | |].
  - unfold ThalLayer. simpl. rewrite Habs. by eexists.
  - unfold ThalLayer. simpl. rewrite Htly. simpl.
    destruct (for_range_total (ActLrnUnit (MatrixLayer.set_DALrn (DALrnFmDA ly) ly) tly)
                (MatrixLayer.Neurons ly)) as [k Hk].
    { intros i x Hx. by apply (ActLrnUnit_total ly tly Hr i x). }
    unfold MatrixLayer.Neurons in *. simpl. rewrite Hk. by eexists.
Qed.

End DAActLrn_facts.

Section DAActLrn_Q.
Import leabra pcore.

Lemma fgt_Q_true (a b : Q) : fgt a b = true ↔ (b < a)%Q.
Proof.
  simpl. rewrite negb_true_iff. split.
  - intros Hf. apply Qnot_le_lt. intros Hle. apply Qle_bool_iff in Hle. congruence.
  - intros Hlt. destruct (Qle_bool a b) eqn:E; [|done].
    apply Qle_bool_iff in E. apply Qlt_not_le in Hlt. done.
Qed.

Lemma fgt_Q_false (a b : Q) : fgt a b = false ↔ (a <= b)%Q.
Proof. simpl. rewrite negb_false_iff. apply Qle_bool_iff. Qed.

Lemma DALrnFmDA_Q (ly : MatrixLayer.t Q) :
  let da := MatrixLayer.DA ly in
  let mp := MatrixLayer.Matrix ly in
  let flip (x : Q) : Q := match MatrixLayer.DaR ly with D1R => x | D2R => (- x)%Q end in
  ((0 < da)%Q → DALrnFmDA ly == flip (da * MatrixParams.BurstGain mp)%Q) ∧
  ((da <= 0)%Q → DALrnFmDA ly == flip (da * MatrixParams.DipGain mp)%Q).
Proof.
  intros da mp flip. unfold DALrnFmDA. fold da mp. split; intros Hda.
  - assert (fgt da (of_int 0) = true) as ->.
    { apply fgt_Q_true. exact Hda. }
    unfold flip. destruct (MatrixLayer.DaR ly); simpl; [reflexivity | ring].
  - assert (fgt da (of_int 0) = false) as ->.
    { apply fgt_Q_false. exact Hda. }
    unfold flip. destruct (MatrixLayer.DaR ly); simpl; [reflexivity | ring].
Qed.

(** C5. [DAActLrn] stores in [DALrn] the raw [DA] times [BurstGain] when
    [DA > 0] and times [DipGain] otherwise, negated exactly for the D2R
    receptor; so two layers with the same gains and raw [DA = 1/2], one D1R
    and one D2R, get values that are the negation of each other, of strictly
    opposite sign when the burst gain is not zero. *)
Theorem DAActLrn_DALrn_polarity :
  (∀ (nt : gmap string (NetLayer Q)) (ly : MatrixLayer.t Q) (ltime : Time.t),
     DAActLrn_runs nt ly ltime →
     ∃ ly', DAActLrn nt ly ltime = Some ly' ∧
       let da := MatrixLayer.DA ly in
       let mp := MatrixLayer.Matrix ly in
       let flip (x : Q) : Q :=
         match MatrixLayer.DaR ly with D1R => x | D2R => (- x)%Q end in
       ((0 < da)%Q →
          MatrixLayer.DALrn ly' == flip (da * MatrixParams.BurstGain mp)%Q) ∧
       ((da <= 0)%Q →
          MatrixLayer.DALrn ly' == flip (da * MatrixParams.DipGain mp)%Q)) ∧
  (∀ (nt1 nt2 : gmap string (NetLayer Q)) (ly1 ly2 ly1' ly2' : MatrixLayer.t Q)
     (t1 t2 : Time.t),
     MatrixLayer.Matrix ly1 = MatrixLayer.Matrix ly2 →
     MatrixLayer.DA ly1 = (1 # 2)%Q → MatrixLayer.DA ly2 = (1 # 2)%Q →
     MatrixLayer.DaR ly1 = D1R → MatrixLayer.DaR ly2 = D2R →
     DAActLrn nt1 ly1 t1 = Some ly1' → DAActLrn nt2 ly2 t2 = Some ly2' →
     MatrixLayer.DALrn ly2' == (- MatrixLayer.DALrn ly1')%Q ∧
     (MatrixLayer.DALrn ly1' * MatrixLayer.DALrn ly2' <= 0)%Q ∧
     (¬ MatrixParams.BurstGain (MatrixLayer.Matrix ly1) == 0 →
      (MatrixLayer.DALrn ly1' * MatrixLayer.DALrn ly2' < 0)%Q)).
Proof.
  split.
  - intros nt ly ltime Hruns.
    destruct (DAActLrn_total nt ly ltime Hruns) as [ly' Hly'].
    exists ly'. split; [done|].
    rewrite (DAActLrn_DALrn nt ly ltime ly' Hly').
    apply DALrnFmDA_Q.
  - intros nt1 nt2 ly1 ly2 ly1' ly2' t1 t2 Hmp Hda1 Hda2 Hr1 Hr2 H1 H2.
    rewrite (DAActLrn_DALrn _ _ _ _ H1), (DAActLrn_DALrn _ _ _ _ H2).
    destruct (DALrnFmDA_Q ly1) as [E1 _]. destruct (DALrnFmDA_Q ly2) as [E2 _].
    rewrite Hda1, Hr1 in E1. rewrite Hda2, Hr2, <- Hmp in E2.
    specialize (E1 eq_refl). specialize (E2 eq_refl).
    set (g := MatrixParams.BurstGain (MatrixLayer.Matrix ly1)) in *.
    rewrite E1, E2. split; [reflexivity|]. split.
    + nra.
    + intros Hg. assert (g < 0 ∨ 0 < g)%Q as [?|?].
      { destruct (Q_dec g 0) as [[?|?]|?]; [by left | by right | done]. }
      all: nra.
Qed.

End DAActLrn_Q.

Section DAActLrn_contrast.
Import leabra pcore.
Context {F : Type} `{Float32 F}.

Lemma DAActLrn_early nt (ly : MatrixLayer.t F) ltime :
  Time.Cycle ltime < Layer.AlphaMaxCyc (MatrixLayer.Layer ly) →
  DAActLrn nt ly ltime = Some (MatrixLayer.set_DALrn (DALrnFmDA ly) ly).
Proof.
  intros Hc. unfold DAActLrn. simpl.
  by destruct (Z.ltb_spec (Time.Cycle ltime) (Layer.AlphaMaxCyc (MatrixLayer.Layer ly))); [|lia].
Qed.

Lemma DAActLrn_units nt (ly : MatrixLayer.t F) ltime tly ly' :
  Layer.AlphaMaxCyc (MatrixLayer.Layer ly) <= Time.Cycle ltime →
  nt !! MatrixParams.ThalLay (MatrixLayer.Matrix ly) = Some (LVThal tly) →
  DAActLrn nt ly ltime = Some ly' →
  Go.for_range (ActLrnUnit ly tly) (MatrixLayer.Neurons ly)
    = Some (MatrixLayer.Neurons ly').
Proof.
  intros Hc Ht. unfold DAActLrn, ThalLayer. simpl.
  destruct (Z.ltb_spec (Time.Cycle ltime) (Layer.AlphaMaxCyc (MatrixLayer.Layer ly))); [lia|].
  rewrite Ht. simpl.
  change (Go.for_range
            (ActLrnUnit (MatrixLayer.set_DALrn (DALrnFmDA ly) ly) tly)
            (MatrixLayer.Neurons (MatrixLayer.set_DALrn (DALrnFmDA ly) ly)))
    with (Go.for_range (ActLrnUnit ly tly) (MatrixLayer.Neurons ly)).
  destruct (Go.for_range _ _) as [k|]; simpl; [|done].
  by intros [= <-].
Qed.

(** C6. From cycle [AlphaMaxCyc] on and with the thalamic layer found,
    [DAActLrn] gives every unit that is not off the training signal
    [LrnFactor] of its alpha-max, positive when the peak of its pool in the
    thalamic layer exceeds [ThalThr] and negated otherwise; before cycle
    [AlphaMaxCyc] it leaves every unit as it is. *)
Theorem DAActLrn_contrastive_ActLrn (nt : gmap string (NetLayer F))
  (ly : MatrixLayer.t F) (ltime : Time.t) :
  (Time.Cycle ltime < Layer.AlphaMaxCyc (MatrixLayer.Layer ly) →
   ∃ ly', DAActLrn nt ly ltime = Some ly' ∧
          MatrixLayer.Neurons ly' = MatrixLayer.Neurons ly) ∧
  (∀ tly : VThalLayer.t F,
     Layer.AlphaMaxCyc (MatrixLayer.Layer ly) <= Time.Cycle ltime →
     nt !! MatrixParams.ThalLay (MatrixLayer.Matrix ly) = Some (LVThal tly) →
     ActLrn_in_range ly tly →
     ∃ ly', DAActLrn nt ly ltime = Some ly' ∧
       ∀ (ni : nat) (nrn : Neuron.t F),
         MatrixLayer.Neurons ly !! ni = Some nrn → Neuron.Off nrn = false →
         ∃ nrn' a tact,
           MatrixLayer.Neurons ly' !! ni = Some nrn' ∧
           Layer.AlphaMaxs (MatrixLayer.Layer ly) !! ni = Some a ∧
           Go.index (Layer.AlphaMaxs (VThalLayer.Layer tly))
             (Neuron.SubPool nrn - 1) = Some tact ∧
           Neuron.ActLrn nrn' =
             if fgt tact (MatrixParams.ThalThr (MatrixLayer.Matrix ly))
             then MatrixParams.LrnFactor (MatrixLayer.Matrix ly) a
             else fneg (MatrixParams.LrnFactor (MatrixLayer.Matrix ly) a)).
Proof.
  split.
  - intros Hc. eexists. split; [by apply DAActLrn_early|]. reflexivity.
  - intros tly Hc Ht Hr.
    destruct (DAActLrn_total nt ly ltime) as [ly' Hly'].
    { right. right. eauto. }
    exists ly'. split; [done|].
    intros ni nrn Hn Hoff.
    pose proof (DAActLrn_units nt ly ltime tly ly' Hc Ht Hly') as Hfr.
    destruct (for_range_lookup _ _ _ Hfr ni nrn Hn) as (nrn' & Hn' & Hb).
    destruct (Hr ni nrn Hn Hoff) as [[a Ha] [tact Htact]].
    exists nrn', a, tact. repeat split; try done.
    unfold ActLrnUnit in Hb. rewrite Hoff, index_of_nat, Ha in Hb. simpl in Hb.
    rewrite Htact in Hb. simpl in Hb.
    destruct (fgt tact _); by injection Hb as <-.
Qed.

End DAActLrn_contrast.

(** ** pcore: the trace learning rule *)

Section slice_lemmas.
Context {A : Type}.

Lemma slice_block (l : list A) (lo n : Z) :
  0 <= lo → 0 <= n → lo + n <= Go.len l →
  Go.slice l lo (lo + n) = Some (take (Z.to_nat n) (drop (Z.to_nat lo) l)).
Proof.
  intros Hlo Hn Hlen. unfold Go.slice.
  destruct (Z.leb_spec 0 lo); [|lia].
  destruct (Z.leb_spec lo (lo + n)); [|lia].
  destruct (Z.leb_spec (lo + n) (Go.len l)); [|lia].
  simpl. by replace (lo + n - lo) with n by lia.
Qed.

Lemma block_length (l : list A) (lo n : nat) :
  (lo + n ≤ length l)%nat → length (take n (drop lo l)) = n.
Proof. intros. rewrite length_take_le; [done|]. rewrite length_drop. lia. Qed.

Lemma block_lookup (l : list A) (lo n ci : nat) :
  (ci < n)%nat → take n (drop lo l) !! ci = l !! (lo + ci)%nat.
Proof. intros. by rewrite lookup_take_lt, lookup_drop. Qed.

Lemma splice_length (l blk : list A) (lo : Z) :
  (Z.to_nat lo + length blk ≤ length l)%nat →
  length (Go.splice l lo blk) = length l.
Proof.
  intros. unfold Go.splice.
  rewrite !length_app, length_take_le, length_drop; lia.
Qed.

Lemma splice_lookup_in (l blk : list A) (lo : Z) (ci : nat) :
  (Z.to_nat lo + length blk ≤ length l)%nat → (ci < length blk)%nat →
  Go.splice l lo blk !! (Z.to_nat lo + ci)%nat = blk !! ci.
Proof.
  intros Hl Hci. unfold Go.splice.
  rewrite lookup_app_r; rewrite length_take_le; try lia.
  rewrite lookup_app_l by lia. f_equal. lia.
Qed.

Lemma splice_lookup_out (l blk : list A) (lo : Z) (k : nat) :
  (Z.to_nat lo + length blk ≤ length l)%nat →
  (k < Z.to_nat lo ∨ Z.to_nat lo + length blk ≤ k)%nat →
  Go.splice l lo blk !! k = l !! k.
Proof.
  intros Hl Hk. unfold Go.splice. destruct Hk as [Hk|Hk].
  - rewrite lookup_app_l by (rewrite length_take_le; lia).
    by rewrite lookup_take_lt.
  - rewrite lookup_app_r; rewrite length_take_le; try lia.
    rewrite lookup_app_r by lia. rewrite lookup_drop. f_equal. lia.
Qed.

End slice_lemmas.

Section DWt_facts.
Import leabra pcore.
Context {F : Type} `{Float32 F} `{LeabraExt F}.

Lemma SendDWt_total lp tp da daLrn achDk rnrns sn syns trsyns scons :
  (∀ (ci : nat) sy, syns !! ci = Some sy →
     is_Some (trsyns !! ci) ∧
     ∃ ri, scons !! ci = Some ri ∧ is_Some (Go.index rnrns ri)) →
  is_Some (SendDWt lp tp da daLrn achDk rnrns sn syns trsyns scons).
Proof.
  intros Hin. unfold SendDWt.
  match goal with |- context [Go.for_range ?b syns] =>
    destruct (for_range_total b syns) as [res Hres] end.
  { intros ci sy Hsy. destruct (Hin ci sy Hsy) as [[trsy Htr] (ri & Hri & [rn Hrn])].
    rewrite !index_of_nat, Htr. simpl. rewrite Hri. simpl. rewrite Hrn. simpl.
    by eexists. }
  rewrite Hres. simpl. by eexists.
Qed.

Lemma SendDWt_lookup lp tp da daLrn achDk rnrns sn syns trsyns scons syns' trsyns' :
  SendDWt lp tp da daLrn achDk rnrns sn syns trsyns scons = Some (syns', trsyns') →
  length syns' = length syns ∧ length trsyns' = length syns ∧
  ∀ (ci : nat) sy, syns !! ci = Some sy →
    ∃ trsy ri rn sy',
      trsyns !! ci = Some trsy ∧ scons !! ci = Some ri ∧
      Go.index rnrns ri = Some rn ∧
      let r := SynDWt lp tp da daLrn achDk rn sn sy trsy in
      trsyns' !! ci = Some (snd r) ∧ syns' !! ci = Some sy' ∧
      Synapse.Wt sy' = Synapse.Wt (fst r) ∧
      Synapse.DWt sy' = Synapse.DWt (fst r) ∧
      Synapse.Moment sy' = Synapse.Moment (fst r) ∧
      (LearnSynParams.NormOn lp = false → sy' = fst r).
Proof.
  unfold SendDWt.
  match goal with |- context [Go.for_range ?b syns] =>
    destruct (Go.for_range b syns) as [res|] eqn:Hres end; simpl; [|done].
  intros [= <- <-].
  pose proof (for_range_length _ _ _ Hres) as Hlen.
  split. { destruct (LearnSynParams.NormOn lp); by rewrite !length_fmap. }
  split. { by rewrite length_fmap. }
  intros ci sy Hsy.
  destruct (for_range_lookup _ _ _ Hres ci sy Hsy) as (r & Hr & Hb).
  rewrite !index_of_nat in Hb.
  destruct (trsyns !! ci) as [trsy|] eqn:Htr; simpl in Hb; [|done].
  destruct (scons !! ci) as [ri|] eqn:Hri; simpl in Hb; [|done].
  destruct (Go.index rnrns ri) as [rn|] eqn:Hrn; simpl in Hb; [|done].
  injection Hb as <-.
  exists trsy, ri, rn.
  destruct (LearnSynParams.NormOn lp) eqn:Hnorm.
  - eexists. split; [done|]. split; [done|]. split; [done|]. simpl.
    rewrite !list_lookup_fmap, Hr. simpl. repeat split; try done.
  - eexists. split; [done|]. split; [done|]. split; [done|]. simpl.
    rewrite !list_lookup_fmap, Hr. simpl. repeat split; try done.
Qed.

Lemma SynDone_ext pj pj1 pj2 rlay sn k :
  MatrixPrjn.Syns pj2 !! k = MatrixPrjn.Syns pj1 !! k →
  MatrixPrjn.TrSyns pj2 !! k = MatrixPrjn.TrSyns pj1 !! k →
  SynDone pj pj1 rlay sn k → SynDone pj pj2 rlay sn k.
Proof.
  intros E1 E2 (sy & trsy & ri & rn & sy' & H1 & H2 & H3 & H4 & H5).
  exists sy, trsy, ri, rn, sy'. simpl in *. rewrite E1, E2. done.
Qed.

Lemma DWt_step pj slay rlay (n : nat) sn pj1 :
  Prjn_wf pj slay rlay → slay !! n = Some sn → DWt_inv pj slay rlay n pj1 →
  ∃ pj2,
    (nc ← Go.index (MatrixPrjn.SConN pj1) (Z.of_nat n);
     st ← Go.index (MatrixPrjn.SConIdxSt pj1) (Z.of_nat n);
     syns ← Go.slice (MatrixPrjn.Syns pj1) st (st + nc);
     trsyns ← Go.slice (MatrixPrjn.TrSyns pj1) st (st + nc);
     scons ← Go.slice (MatrixPrjn.SConIdx pj1) st (st + nc);
     r ← SendDWt (MatrixPrjn.Learn pj1) (MatrixPrjn.Trace pj1)
           (MatrixLayer.DA rlay) (MatrixLayer.DALrn rlay)
           (achDecay pj (MatrixLayer.ACh rlay)) (MatrixLayer.Neurons rlay) sn
           syns trsyns scons;
     Some (MatrixPrjn.set_Syns
             (Go.splice (MatrixPrjn.Syns pj1) st (fst r))
             (Go.splice (MatrixPrjn.TrSyns pj1) st (snd r)) pj1)) = Some pj2 ∧
    DWt_inv pj slay rlay (S n) pj2.
Proof.
  intros (HlenT & HlenC & Hblk & Hord & Hri) Hsn
    ((ELearn & EN & ESt & EIdx & ETrace) & HlS & HlT & Hout & Hdone).
  assert (Hn : (n < length slay)%nat) by (by eapply lookup_lt_Some).
  destruct (Hblk n Hn) as (st & nc & Hst & Hnc & Hst0 & Hnc0 & Hend).
  rewrite !index_of_nat, EN, ESt, Hnc, Hst. simpl.
  unfold Go.len in Hend.
  rewrite !slice_block; try (unfold Go.len; rewrite ?EIdx; lia). simpl.
  remember (Z.to_nat st) as st' eqn:Est'. remember (Z.to_nat nc) as nc' eqn:Enc'.
  assert (Hfit : (st' + nc' ≤ length (MatrixPrjn.Syns pj))%nat) by lia.
  (* the block of sender n is as in pj *)
  assert (Hfresh : ∀ ci : nat, (ci < nc')%nat →
            MatrixPrjn.Syns pj1 !! (st' + ci)%nat = MatrixPrjn.Syns pj !! (st' + ci)%nat ∧
            MatrixPrjn.TrSyns pj1 !! (st' + ci)%nat = MatrixPrjn.TrSyns pj !! (st' + ci)%nat).
  { intros ci Hci. apply Hout. intros si st_i nc_i Hsi Hst_i Hnc_i.
    pose proof (Hord si n st_i nc_i st Hsi Hst_i Hnc_i Hst). lia. }
  set (syns := take nc' (drop st' (MatrixPrjn.Syns pj1))).
  set (trsyns := take nc' (drop st' (MatrixPrjn.TrSyns pj1))).
  set (scons := take nc' (drop st' (MatrixPrjn.SConIdx pj1))).
  assert (Hsyl : length syns = nc') by (apply block_length; lia).
  assert (Htrl : length trsyns = nc') by (apply block_length; lia).
  assert (Hscl : length scons = nc') by (apply block_length; rewrite EIdx; lia).
  destruct (SendDWt_total (MatrixPrjn.Learn pj1) (MatrixPrjn.Trace pj1)
              (MatrixLayer.DA rlay) (MatrixLayer.DALrn rlay)
              (achDecay pj (MatrixLayer.ACh rlay)) (MatrixLayer.Neurons rlay) sn
              syns trsyns scons) as [[syns2 trsyns2] Hsend].
  { intros ci sy Hsy.
    assert (Hci : (ci < nc')%nat) by (rewrite <- Hsyl; by eapply lookup_lt_Some).
    split. { apply lookup_lt_is_Some. lia. }
    destruct (lookup_lt_is_Some_2 scons ci) as [ri Hri']; [lia|].
    exists ri. split; [done|].
    unfold scons in Hri'. rewrite block_lookup, EIdx in Hri' by done.
    by eapply Hri. }
  rewrite Hsend. simpl. eexists. split; [reflexivity|].
  destruct (SendDWt_lookup _ _ _ _ _ _ _ _ _ _ _ _ Hsend) as (Hl2 & Hl2' & Hlook).
  split; [done|]. simpl.
  split. { rewrite splice_length; lia. }
  split. { rewrite splice_length; lia. }
  split.
  - intros k Hk.
    assert (Hkn : ¬ (st <= Z.of_nat k < st + nc)) by (by apply (Hk n st nc); [lia|..]).
    rewrite !splice_lookup_out by lia.
    apply Hout. intros si st_i nc_i Hsi. apply Hk. lia.
  - intros si sn_i st_i nc_i ci Hsi Hsn_i Hst_i Hnc_i Hci.
    destruct (decide (si = n)) as [->|Hne].
    + assert (sn_i = sn) as -> by congruence.
      assert (st_i = st) as -> by congruence.
      assert (nc_i = nc) as -> by congruence.
      replace (Z.to_nat (st + ci)) with (st' + Z.to_nat ci)%nat by lia.
      set (ci' := Z.to_nat ci). assert (Hci' : (ci' < nc')%nat) by lia.
      destruct (lookup_lt_is_Some_2 syns ci') as [sy Hsy]; [lia|].
      destruct (Hlook ci' sy Hsy) as (trsy & ri & rn & sy' & Htr & Hri' & Hrn & Hres).
      simpl in Hres. destruct Hres as (R1 & R2 & R3 & R4 & R5 & R6).
      destruct (Hfresh ci' Hci') as [F1 F2].
      unfold syns in Hsy. rewrite block_lookup, F1 in Hsy by done.
      unfold trsyns in Htr. rewrite block_lookup, F2 in Htr by done.
      unfold scons in Hri'. rewrite block_lookup, EIdx in Hri' by done.
      exists sy, trsy, ri, rn, sy'. simpl. subst st'.
      rewrite !splice_lookup_in by lia.
      rewrite <- ELearn, <- ETrace. done.
    + assert (Hsi' : (si < n)%nat) by lia.
      pose proof (Hord si n st_i nc_i st Hsi' Hst_i Hnc_i Hst).
      destruct (Hblk si) as (st0 & nc0 & Hst0' & Hnc0' & ? & ? & ?); [lia|].
      assert (st0 = st_i) as -> by congruence.
      apply (SynDone_ext pj pj1).
      * simpl. apply splice_lookup_out; lia.
      * simpl. apply splice_lookup_out; lia.
      * by apply (Hdone si sn_i st_i nc_i ci).
Qed.

(** With the learning flag off [DWt] returns at once. *)
Lemma DWt_learn_off (pj : MatrixPrjn.t F) slay recv :
  LearnSynParams.Learn (MatrixPrjn.Learn pj) = false → DWt pj slay recv = Some pj.
Proof. intros HL. unfold DWt. by rewrite HL. Qed.

Lemma DWt_synapses (pj : MatrixPrjn.t F) slay rlay :
  LearnSynParams.Learn (MatrixPrjn.Learn pj) = true →
  Prjn_wf pj slay rlay →
  ∃ pj', DWt pj slay (LMatrix rlay) = Some pj' ∧
         DWt_inv pj slay rlay (length slay) pj'.
Proof.
  intros HL Hwf. unfold DWt. rewrite HL. simpl.
  apply (for_state_inv (DWt_inv pj slay rlay)).
  - split; [done|]. split; [done|]. split; [done|]. split; [done|].
    intros. lia.
  - intros k sn pj1 Hsn Hinv. by apply DWt_step.
Qed.

Lemma TraceDWt_cur da daLrn achDk rnA snA (trsy : TraceSyn.t F) :
  TraceDWt true da daLrn achDk rnA snA trsy =
    (TraceSyn.mk (rnA ⊗ snA)
       (DecayTrace achDk (TraceSyn.Tr trsy ⊕ rnA ⊗ snA)),
     if fne da (of_int 0) then daLrn ⊗ (TraceSyn.Tr trsy ⊕ rnA ⊗ snA)
     else of_int 0).
Proof. reflexivity. Qed.

Lemma TraceDWt_delayed da daLrn achDk rnA snA (trsy : TraceSyn.t F) :
  TraceDWt false da daLrn achDk rnA snA trsy =
    (TraceSyn.mk (rnA ⊗ snA)
       (DecayTrace achDk (TraceSyn.Tr trsy) ⊕ rnA ⊗ snA),
     if fne da (of_int 0) then daLrn ⊗ TraceSyn.Tr trsy else of_int 0).
Proof. reflexivity. Qed.

Lemma ApplyDWt_plain lp (trsy : TraceSyn.t F) dwt sy :
  LearnSynParams.NormOn lp = false → LearnSynParams.MomentumOn lp = false →
  ApplyDWt lp trsy dwt sy =
    Synapse.mk (Synapse.Wt sy)
      (Synapse.DWt sy ⊕ LearnSynParams.Lrate lp ⊗ (dwt ⊗ of_int 1))
      (TraceSyn.NTr trsy) (TraceSyn.Tr trsy).
Proof. intros Hn Hm. unfold ApplyDWt. rewrite Hn, Hm. reflexivity. Qed.


(** C1. In a learning pass every synapse is rewritten by the policy of the
    projection.  With [ntr] the product of the receiving and the sending
    unit's [ActLrn]: under current-trial DA the delta is [DALrn * (Tr + ntr)]
    and the new trace is the decayed [Tr + ntr]; under delayed DA the delta
    is [DALrn * Tr], from the trace without [ntr], and the new trace is the
    decayed [Tr] plus [ntr].  In both the delta is zero when the raw [DA] is
    zero, and [NTr] records [ntr]. *)
Theorem DWt_trace_policy (pj : MatrixPrjn.t F) (slay : list (Neuron.t F))
  (rlay : MatrixLayer.t F) :
  LearnSynParams.Learn (MatrixPrjn.Learn pj) = true →
  Prjn_wf pj slay rlay →
  ∃ pj', DWt pj slay (LMatrix rlay) = Some pj' ∧
    ∀ (si : nat) sn st nc ci,
      slay !! si = Some sn →
      MatrixPrjn.SConIdxSt pj !! si = Some st →
      MatrixPrjn.SConN pj !! si = Some nc → 0 <= ci < nc →
      ∃ sy trsy ri rn sy' trsy' dwt,
        let k := Z.to_nat (st + ci) in
        let ntr := Neuron.ActLrn rn ⊗ Neuron.ActLrn sn in
        let tr := TraceSyn.Tr trsy in
        let da := MatrixLayer.DA rlay in
        let daLrn := MatrixLayer.DALrn rlay in
        let achDk := achDecay pj (MatrixLayer.ACh rlay) in
        let lp := MatrixPrjn.Learn pj in
        MatrixPrjn.Syns pj !! k = Some sy ∧
        MatrixPrjn.TrSyns pj !! k = Some trsy ∧
        MatrixPrjn.SConIdx pj !! k = Some ri ∧
        Go.index (MatrixLayer.Neurons rlay) ri = Some rn ∧
        MatrixPrjn.Syns pj' !! k = Some sy' ∧
        MatrixPrjn.TrSyns pj' !! k = Some trsy' ∧
        TraceSyn.NTr trsy' = ntr ∧
        Synapse.DWt sy' = Synapse.DWt (ApplyDWt lp trsy' dwt sy) ∧
        (LearnSynParams.NormOn lp = false →
         LearnSynParams.MomentumOn lp = false →
         Synapse.DWt sy' =
           Synapse.DWt sy ⊕ LearnSynParams.Lrate lp ⊗ (dwt ⊗ of_int 1)) ∧
        if MatrixTraceParams.CurTrlDA (MatrixPrjn.Trace pj) then
          dwt = (if fne da (of_int 0) then daLrn ⊗ (tr ⊕ ntr) else of_int 0) ∧
          TraceSyn.Tr trsy' = (tr ⊕ ntr) ⊖ achDk ⊗ (tr ⊕ ntr)
        else
          dwt = (if fne da (of_int 0) then daLrn ⊗ tr else of_int 0) ∧
          TraceSyn.Tr trsy' = (tr ⊖ achDk ⊗ tr) ⊕ ntr.
Proof.
  intros HL Hwf.
  destruct (DWt_synapses pj slay rlay HL Hwf) as (pj' & Hpj' & _ & _ & _ & _ & Hdone).
  exists pj'. split; [done|].
  intros si sn st nc ci Hsn Hst Hnc Hci.
  assert (Hsi : (si < length slay)%nat) by (by eapply lookup_lt_Some).
  destruct (Hdone si sn st nc ci Hsi Hsn Hst Hnc Hci)
    as (sy & trsy & ri & rn & sy' & Hsy & Htrsy & Hri & Hrn & Hres).
  cbv zeta in Hres. destruct Hres as (Htr' & Hsy' & _ & HD & _ & _).
  unfold SynDWt in Htr', HD.
  destruct (MatrixTraceParams.CurTrlDA (MatrixPrjn.Trace pj)) eqn:Hcur.
  - rewrite TraceDWt_cur in Htr', HD. simpl in Htr', HD.
    eexists sy, trsy, ri, rn, sy', _, _. cbv zeta.
    repeat (split; [done|]).
    split; [| by split].
    intros Hn Hm. rewrite HD. by rewrite ApplyDWt_plain.
  - rewrite TraceDWt_delayed in Htr', HD. simpl in Htr', HD.
    eexists sy, trsy, ri, rn, sy', _, _. cbv zeta.
    repeat (split; [done|]).
    split; [| by split].
    intros Hn Hm. rewrite HD. by rewrite ApplyDWt_plain.
Qed.

End DWt_facts.

Section DWt_frame.
Import leabra pcore.
Context {F : Type} `{Float32 F} `{LeabraExt F}.


End DWt_frame.

Section DWt_decay.
Import leabra pcore.

Lemma achDecay_Q (pj : MatrixPrjn.t Q) (ach : Q) :
  (0 <= ach)%Q → (0 <= MatrixTraceParams.Decay (MatrixPrjn.Trace pj))%Q →
  achDecay pj ach = Qmin 1 (ach * MatrixTraceParams.Decay (MatrixPrjn.Trace pj)) ∧
  (0 <= achDecay pj ach)%Q ∧ (achDecay pj ach <= 1)%Q.
Proof.
  intros Ha Hd.
  set (d := MatrixTraceParams.Decay (MatrixPrjn.Trace pj)) in *.
  change (achDecay pj ach) with (Qmin 1 (ach * d)).
  split; [reflexivity|]. split.
  - apply Q.min_glb; [lra|]. apply Qmult_le_0_compat; assumption.
  - apply Q.le_min_l.
Qed.

Lemma DecayTrace_Q (a tr : Q) :
  (0 <= a)%Q → (a <= 1)%Q → (Qabs (DecayTrace a tr) <= Qabs tr)%Q.
Proof.
  intros H0 H1.
  change (DecayTrace a tr) with (tr - a * tr)%Q.
  apply Qabs_Qle_condition.
  apply (Qabs_case tr (λ x, (- x <= tr - a * tr <= x)%Q)); intros Ht; split; nra.
Qed.

(** C7. For [ACh >= 0] and a decay gain [>= 0] the decay factor of a
    learning pass is [min(1, ACh * Decay)], it lies between 0 and 1, and the
    decay statement never enlarges a trace in absolute value; so for every
    synapse the decayed trace of the pass is bounded by the trace that was
    decayed. *)
Theorem DWt_decay_bounded (pj : MatrixPrjn.t Q) (slay : list (Neuron.t Q))
  (rlay : MatrixLayer.t Q) :
  (0 <= MatrixLayer.ACh rlay)%Q →
  (0 <= MatrixTraceParams.Decay (MatrixPrjn.Trace pj))%Q →
  let achDk := achDecay pj (MatrixLayer.ACh rlay) in
  achDk = Qmin 1 (MatrixLayer.ACh rlay
                  * MatrixTraceParams.Decay (MatrixPrjn.Trace pj)) ∧
  (0 <= achDk)%Q ∧ (achDk <= 1)%Q ∧
  (∀ tr : Q, (Qabs (DecayTrace achDk tr) <= Qabs tr)%Q) ∧
  (LearnSynParams.Learn (MatrixPrjn.Learn pj) = true →
   Prjn_wf pj slay rlay →
   ∃ pj', DWt pj slay (LMatrix rlay) = Some pj' ∧
     ∀ (si : nat) sn st nc ci,
       slay !! si = Some sn →
       MatrixPrjn.SConIdxSt pj !! si = Some st →
       MatrixPrjn.SConN pj !! si = Some nc → 0 <= ci < nc →
       ∃ trsy ri rn trsy',
         let k := Z.to_nat (st + ci) in
         let ntr := (Neuron.ActLrn rn * Neuron.ActLrn sn)%Q in
         let tr := TraceSyn.Tr trsy in
         MatrixPrjn.TrSyns pj !! k = Some trsy ∧
         MatrixPrjn.SConIdx pj !! k = Some ri ∧
         Go.index (MatrixLayer.Neurons rlay) ri = Some rn ∧
         MatrixPrjn.TrSyns pj' !! k = Some trsy' ∧
         if MatrixTraceParams.CurTrlDA (MatrixPrjn.Trace pj) then
           TraceSyn.Tr trsy' = DecayTrace achDk (tr + ntr)%Q ∧
           (Qabs (TraceSyn.Tr trsy') <= Qabs (tr + ntr))%Q
         else
           TraceSyn.Tr trsy' = (DecayTrace achDk tr + ntr)%Q ∧
           (Qabs (TraceSyn.Tr trsy' - ntr) <= Qabs tr)%Q).
Proof.
  intros Ha Hd achDk.
  destruct (achDecay_Q pj (MatrixLayer.ACh rlay) Ha Hd) as (E & L0 & L1).
  split; [exact E|]. split; [exact L0|]. split; [exact L1|].
  split. { intros tr. by apply DecayTrace_Q. }
  intros HL Hwf.
  destruct (DWt_trace_policy pj slay rlay HL Hwf) as (pj' & Hpj' & Hsyn).
  exists pj'. split; [done|].
  intros si sn st nc ci Hsn Hst Hnc Hci.
  destruct (Hsyn si sn st nc ci Hsn Hst Hnc Hci)
    as (sy & trsy & ri & rn & sy' & trsy' & dwt & Hres).
  cbv zeta in Hres.
  destruct Hres as (_ & Htrsy & Hri & Hrn & _ & Htrsy' & _ & _ & _ & Hpol).
  exists trsy, ri, rn, trsy'. cbv zeta.
  repeat (split; [done|]).
  destruct (MatrixTraceParams.CurTrlDA (MatrixPrjn.Trace pj)).
  - destruct Hpol as [_ ->]. split; [reflexivity|].
    apply (DecayTrace_Q _ _ L0 L1).
  - destruct Hpol as [_ ->]. split; [reflexivity|].
    fold achDk. simpl fadd. simpl fsub. simpl fmul.
    set (d := (TraceSyn.Tr trsy - achDk * TraceSyn.Tr trsy)%Q).
    set (n := (Neuron.ActLrn rn * Neuron.ActLrn sn)%Q).
    assert (Hd' : (d + n - n == d)%Q) by ring.
    rewrite Hd'. apply (DecayTrace_Q _ _ L0 L1).
Qed.

End DWt_decay.

(** ** pbwm: the gating state machine *)

Section name_lemmas.
Import pbwm.

Lemma substring_0_length (s : string) (n : nat) :
  (n ≤ String.length s)%nat → String.length (substring 0 n s) = n.
Proof.
  revert n. induction s as [|c s IH]; intros [|n] Hn; simpl in *; try lia; try done.
  rewrite IH; lia.
Qed.

Lemma append_length (s1 s2 : string) :
  String.length (s1 +:+ s2) = (String.length s1 + String.length s2)%nat.
Proof. induction s1 as [|c s1 IH]; simpl; [done|]. by rewrite IH. Qed.

Lemma SuperName_length (nm : string) :
  String.length (SuperName nm) = (String.length nm - 1)%nat.
Proof. unfold SuperName. apply substring_0_length. lia. Qed.

Lemma MaintName_length (nm : string) :
  String.length (MaintName nm) = (String.length nm - 4 + 4)%nat.
Proof.
  unfold MaintName. rewrite append_length, substring_0_length by lia. done.
Qed.

Lemma SuperName_ne (nm : string) :
  (1 ≤ String.length nm)%nat → SuperName nm ≠ nm.
Proof.
  intros Hl E. pose proof (SuperName_length nm) as Hs. rewrite E in Hs. lia.
Qed.

Lemma SuperName_MaintName_ne (nm : string) :
  (4 ≤ String.length nm)%nat → SuperName (MaintName nm) ≠ nm.
Proof.
  intros Hl E. pose proof (SuperName_length (MaintName nm)) as Hs.
  rewrite MaintName_length, E in Hs. lia.
Qed.

End name_lemmas.

Section shape.
Import leabra pbwm.
Context {F : Type}.

Lemma same_kind_refl (a : NetLayer F) : same_kind a a.
Proof. by destruct a. Qed.

Lemma same_kind_trans (a b c : NetLayer F) :
  same_kind a b → same_kind b c → same_kind a c.
Proof. destruct a, b, c; simpl; try done. congruence. Qed.

Lemma same_shape_refl (nt : gmap string (NetLayer F)) : same_shape nt nt.
Proof. intros k. destruct (nt !! k); constructor. apply same_kind_refl. Qed.

Lemma same_shape_trans (nt1 nt2 nt3 : gmap string (NetLayer F)) :
  same_shape nt1 nt2 → same_shape nt2 nt3 → same_shape nt1 nt3.
Proof.
  intros H1 H2 k. specialize (H1 k). specialize (H2 k).
  destruct H1 as [a b Hab|]; inversion H2; subst; constructor.
  by eapply same_kind_trans.
Qed.

Lemma same_shape_insert (nt : gmap string (NetLayer F)) k a b :
  nt !! k = Some a → same_kind a b → same_shape nt (<[k := b]> nt).
Proof.
  intros Ha Hab j. destruct (decide (k = j)) as [<-|Hne].
  - rewrite lookup_insert_eq, Ha. by constructor.
  - rewrite lookup_insert_ne by done. apply same_shape_refl.
Qed.

Lemma with_leabra_kind (b : Layer.t F) li : same_kind li (with_leabra b li).
Proof. by destruct li. Qed.

End shape.

Section gating_lemmas.
Import leabra pbwm.
Context {F : Type} `{Float32 F} `{LeabraExt F}.
Implicit Types nt : gmap string (NetLayer F).

Lemma getPFC_Some nt nm ly :
  getPFC nt nm = Some ly ↔ nt !! nm = Some (LPFCDeep ly).
Proof.
  unfold getPFC. destruct (nt !! nm) as [[?|?]|]; split; intros E; by simplify_eq.
Qed.

Lemma getPFC_insert nt nm ly : getPFC (<[nm := LPFCDeep ly]> nt) nm = Some ly.
Proof. unfold getPFC. by rewrite lookup_insert_eq. Qed.

Lemma getPFC_insert_ne nt nm k x :
  k ≠ nm → getPFC (<[k := x]> nt) nm = getPFC nt nm.
Proof. intros. unfold getPFC. by rewrite lookup_insert_ne. Qed.

Lemma set_Cnt_id (gs : GateState.t F) : GateState.set_Cnt (GateState.Cnt gs) gs = gs.
Proof. by destruct gs. Qed.

Lemma setCnt_spec nt nm ly (gi : nat) gs c :
  getPFC nt nm = Some ly → PFCDeepLayer.GateStates ly !! gi = Some gs →
  setCnt nt nm (Z.of_nat gi) c =
    Some (<[nm := LPFCDeep (PFCDeepLayer.set_GateStates
                          (<[gi := GateState.set_Cnt c gs]> (PFCDeepLayer.GateStates ly)) ly)]> nt).
Proof.
  intros Hly Hgs. unfold setCnt. rewrite Hly. simpl.
  rewrite index_of_nat, Hgs. simpl.
  rewrite (store_Some _ _ _ gs) by (by rewrite index_of_nat).
  simpl. by rewrite Nat2Z.id.
Qed.

Lemma setCnt_shape nt nm ly (gi : nat) gs c nt' :
  getPFC nt nm = Some ly → PFCDeepLayer.GateStates ly !! gi = Some gs →
  setCnt nt nm (Z.of_nat gi) c = Some nt' → same_shape nt nt'.
Proof.
  intros Hly Hgs. rewrite (setCnt_spec nt nm ly gi gs c Hly Hgs). intros [= <-].
  apply (same_shape_insert _ _ (LPFCDeep ly)); [by apply getPFC_Some|].
  simpl. by rewrite length_insert.
Qed.

Lemma SuperPFC_spec nt nm :
  (1 ≤ String.length nm)%nat →
  SuperPFC nt nm = Some (match nt !! SuperName nm with
                         | None => None
                         | Some li => Some (SuperName nm, li)
                         end).
Proof.
  intros Hl. unfold SuperPFC.
  destruct (Nat.ltb_spec (String.length nm) 1); [lia|].
  by destruct (nt !! SuperName nm).
Qed.

Lemma DecaySuper_spec nt nm dnm li pool decay :
  (∀ b pool decay, is_Some (DecayStatePool b pool decay)) →
  nt !! dnm = Some li → dnm ≠ nm →
  ∃ nt', DecaySuper nt (Some (dnm, li)) pool decay = Some nt' ∧
         same_shape nt nt' ∧ getPFC nt' nm = getPFC nt nm.
Proof.
  intros Htot Hli Hne. unfold DecaySuper.
  destruct (Htot (AsLeabra li) pool decay) as [b Hb]. rewrite Hb. simpl.
  eexists. split; [done|]. split.
  - apply (same_shape_insert _ _ li); [done|]. apply with_leabra_kind.
  - by apply getPFC_insert_ne.
Qed.

Lemma ClearMaint_spec nt nm ly (gi : nat) gs :
  (∀ b pool decay, is_Some (DecayStatePool b pool decay)) →
  getPFC nt nm = Some ly → PFCDeepLayer.GateStates ly !! gi = Some gs →
  GateState.Cnt gs < 1 →
  Maint_resolved nt nm (length (PFCDeepLayer.GateStates ly)) →
  ∃ nt', ClearMaint nt nm (Z.of_nat gi) = Some nt' ∧
         same_shape nt nt' ∧ getPFC nt' nm = Some ly.
Proof.
  intros Htot Hly Hgs Hcnt [Hlen Hm]. unfold ClearMaint, MaintPFC.
  destruct (Nat.ltb_spec (String.length nm) 4); [lia|].
  destruct (nt !! MaintName nm) as [[pfcm|?]|] eqn:Hmnt; [| done |].
  2:{ simpl. exists nt. split; [done|]. split; [apply same_shape_refl | done]. }
  simpl. destruct Hm as [Hpools [sli Hsli]].
  assert (Hgi : (gi < length (PFCDeepLayer.GateStates pfcm))%nat).
  { apply lookup_lt_Some in Hgs. lia. }
  destruct (lookup_lt_is_Some_2 _ _ Hgi) as [mgs Hmgs].
  rewrite index_of_nat, Hmgs. simpl.
  destruct (Z.leb_spec 1 (GateState.Cnt mgs)).
  - (* the maintenance layer is another layer: this pool of the receiver
       has just been gated *)
    assert (Hne : MaintName nm ≠ nm).
    { intros E. rewrite E in Hmnt. apply getPFC_Some in Hly.
      rewrite Hly in Hmnt. simplify_eq. lia. }
    rewrite (store_Some _ _ _ mgs) by (by rewrite index_of_nat). simpl.
    rewrite Nat2Z.id.
    set (nt1 := <[MaintName nm := _]> nt).
    assert (Hl1 : (1 ≤ String.length (MaintName nm))%nat).
    { rewrite MaintName_length. lia. }
    rewrite (SuperPFC_spec nt1 (MaintName nm) Hl1). simpl.
    assert (Hs1 : nt1 !! SuperName (MaintName nm) = Some sli).
    { unfold nt1. rewrite lookup_insert_ne; [done|].
      intros E. symmetry in E. by apply SuperName_ne in E. }
    rewrite Hs1.
    destruct (DecaySuper_spec nt1 nm (SuperName (MaintName nm)) sli (Z.of_nat gi)
                (PFCMaintParams.Clear (PFCDeepLayer.Maint pfcm)) Htot Hs1)
      as (nt' & Hd & Hsh & Hget).
    { by apply SuperName_MaintName_ne. }
    exists nt'. split; [done|]. split.
    + eapply same_shape_trans; [|exact Hsh].
      apply (same_shape_insert _ _ (LPFCDeep pfcm)); [done|].
      simpl. by rewrite length_insert.
    + rewrite Hget. unfold nt1. by rewrite getPFC_insert_ne.
  - exists nt. split; [done|]. split; [apply same_shape_refl | done].
Qed.

(** What a run of the assignment, of the lookup of the super layer and of
    the decay tells, when it returns. *)
Lemma setCnt_run nt nm gi c nt' :
  setCnt nt nm gi c = Some nt' →
  ∃ ly gsl, getPFC nt nm = Some ly ∧
    nt' = <[nm := LPFCDeep (PFCDeepLayer.set_GateStates gsl ly)]> nt.
Proof.
  unfold setCnt. destruct (getPFC nt nm) as [ly|]; simpl; [|done].
  destruct (Go.index _ gi) as [gs|]; simpl; [|done].
  destruct (Go.store _ _ _) as [gsl|]; simpl; [|done].
  intros [= <-]. eauto.
Qed.

Lemma SuperPFC_run nt nm x :
  SuperPFC nt nm = Some x →
  (1 ≤ String.length nm)%nat ∧
  match x with
  | None => nt !! SuperName nm = None
  | Some (dnm, li) => dnm = SuperName nm ∧ nt !! SuperName nm = Some li
  end.
Proof.
  unfold SuperPFC. destruct (Nat.ltb_spec (String.length nm) 1); [done|].
  destruct (nt !! SuperName nm) as [li|]; intros [= <-]; split; done.
Qed.

Lemma DecaySuper_run nt x pool decay nt' :
  DecaySuper nt x pool decay = Some nt' →
  ∃ dnm li b, x = Some (dnm, li) ∧ nt' = <[dnm := with_leabra b li]> nt.
Proof.
  unfold DecaySuper. destruct x as [[dnm li]|]; [|done].
  destruct (DecayStatePool _ _ _) as [b|]; simpl; [|done].
  intros [= <-]. eauto.
Qed.

End gating_lemmas.

Section gating_pool.
Import leabra pbwm.
Context {F : Type} `{Float32 F} `{LeabraExt F}.
Implicit Types nt : gmap string (NetLayer F).

Lemma Gated_id (ly : PFCDeepLayer.t F) gi gs :
  PFCDeepLayer.GateStates ly !! gi = Some gs →
  GateCnt (PFCDeepLayer.Maint ly) gs = GateState.Cnt gs → Gated ly gi gs = ly.
Proof.
  intros Hgs E. unfold Gated. rewrite E, set_Cnt_id, list_insert_id by done.
  by destruct ly.
Qed.

Lemma GatingPool_spec nt nm ly (gi : nat) gs :
  getPFC nt nm = Some ly → PFCDeepLayer.GateStates ly !! gi = Some gs →
  Gating_resolved nt nm ly →
  ∃ nt', GatingPool nm (Z.of_nat gi) nt = Some nt' ∧ same_shape nt nt' ∧
         getPFC nt' nm = Some (Gated ly gi gs).
Proof.
  intros Hly Hgs [Htot Hres]. unfold GatingPool. rewrite Hly. simpl.
  rewrite index_of_nat, Hgs. simpl.
  destruct (GateState.Now gs) eqn:Hnow; simpl.
  2:{ exists nt. split; [done|]. split; [apply same_shape_refl|].
      rewrite Gated_id; [done..|]. unfold GateCnt. by rewrite Hnow. }
  (* the state after the conditional on [gs.Act > 0] *)
  set (c := if fgt (GateState.Act gs) (of_int 0) then 0 else GateState.Cnt gs).
  set (ly1 := PFCDeepLayer.set_GateStates
                (<[gi := GateState.set_Cnt c gs]> (PFCDeepLayer.GateStates ly)) ly).
  assert (Hgi : (gi < length (PFCDeepLayer.GateStates ly))%nat)
    by (by eapply lookup_lt_Some).
  match goal with |- ∃ nt', (?m ≫= ?k) = Some nt' ∧ _ =>
    assert (∃ nt1, m = Some nt1 ∧ same_shape nt nt1 ∧ getPFC nt1 nm = Some ly1)
      as (nt1 & -> & Hsh1 & Hly1) end.
  { unfold ly1, c. destruct (fgt (GateState.Act gs) (of_int 0)) eqn:Hact.
    - rewrite (setCnt_spec nt nm ly gi gs 0 Hly Hgs). simpl.
      set (nt0 := <[nm := _]> nt).
      assert (Hly0 : getPFC nt0 nm = Some ly1) by apply getPFC_insert.
      assert (Hsh0 : same_shape nt nt0).
      { apply (same_shape_insert _ _ (LPFCDeep ly)); [by apply getPFC_Some|].
        simpl. by rewrite length_insert. }
      destruct (PFCGateParams.OutGate (PFCDeepLayer.Gate ly)) eqn:Hout.
      + destruct (PFCMaintParams.OutClearMaint (PFCDeepLayer.Maint ly)) eqn:Hclr.
        * destruct (Hres eq_refl) as [Hlen Hm].
          destruct (ClearMaint_spec nt0 nm ly1 gi (GateState.set_Cnt 0 gs) Htot Hly0)
            as (nt1 & Hc & Hsh & Hget).
          { unfold ly1, c. simpl. by apply list_lookup_insert_eq. }
          { simpl. lia. }
          { split; [done|]. unfold ly1. simpl. rewrite length_insert.
            specialize (Hsh0 (MaintName nm)).
            destruct (nt !! MaintName nm) as [[pfcm|?]|] eqn:Hmnt;
              inversion Hsh0 as [a b Hk Ea Eb|]; subst; [| done | done].
            destruct b as [pfcm'|?]; [|done]. simpl in Hk.
            destruct Hm as [Hp [sli Hsli]]. split; [lia|].
            unfold nt0. destruct (decide (nm = SuperName (MaintName nm))) as [E|Hne].
            - rewrite <- E, lookup_insert_eq. by eexists.
            - rewrite lookup_insert_ne by done. by eexists. }
          exists nt1. unfold ly1, c in *.
          split; [done|]. split; [by eapply same_shape_trans|done].
        * exists nt0. unfold ly1, c in *. done.
      + destruct Hres as [Hl [sli Hsli]].
        rewrite (SuperPFC_spec nt0 nm Hl). simpl.
        assert (Hs0 : nt0 !! SuperName nm = Some sli).
        { unfold nt0. rewrite lookup_insert_ne; [done|].
          intros E. symmetry in E. by apply SuperName_ne in E. }
        rewrite Hs0.
        destruct (DecaySuper_spec nt0 nm (SuperName nm) sli (Z.of_nat gi)
                    (PFCMaintParams.Clear (PFCDeepLayer.Maint ly)) Htot Hs0)
          as (nt1 & Hd & Hsh & Hget); [by apply SuperName_ne|].
        exists nt1. unfold ly1, c in *.
        split; [done|]. split; [by eapply same_shape_trans|]. by rewrite Hget.
    - exists nt. split; [done|]. split; [apply same_shape_refl|].
      rewrite set_Cnt_id, list_insert_id by done. rewrite Hly. by destruct ly. }
  assert (Hgc : GateCnt (PFCDeepLayer.Maint ly) gs =
                if PFCMaintParams.MaxMaint (PFCDeepLayer.Maint ly) <=? c then -1 else c).
  { unfold GateCnt. by rewrite Hnow. }
  assert (Hgs1 : PFCDeepLayer.GateStates ly1 !! gi = Some (GateState.set_Cnt c gs)).
  { unfold ly1. simpl. by apply list_lookup_insert_eq. }
  assert (Hmp1 : PFCDeepLayer.Maint ly1 = PFCDeepLayer.Maint ly) by done.
  assert (Ely1 : ly1 = PFCDeepLayer.set_GateStates
                (<[gi := GateState.set_Cnt c gs]> (PFCDeepLayer.GateStates ly)) ly)
    by done.
  clearbody ly1 c.
  simpl. rewrite Hly1. simpl.
  rewrite index_of_nat, Hgs1. simpl. rewrite Hmp1.
  destruct (PFCMaintParams.MaxMaint (PFCDeepLayer.Maint ly) <=? c) eqn:Hmax.
  - rewrite (setCnt_spec nt1 nm ly1 gi _ (-1) Hly1 Hgs1).
    eexists. split; [done|]. split.
    + eapply same_shape_trans; [exact Hsh1|].
      apply (same_shape_insert _ _ (LPFCDeep ly1)); [by apply getPFC_Some|].
      simpl. by rewrite !length_insert.
    + rewrite getPFC_insert. unfold Gated. rewrite Hgc, Ely1. simpl.
      by rewrite list_insert_insert_eq.
  - exists nt1. split; [done|]. split; [done|].
    rewrite Hly1. unfold Gated. by rewrite Hgc, Ely1.
Qed.

End gating_pool.

Section gating_loop.
Import leabra pbwm.
Context {F : Type} `{Float32 F} `{LeabraExt F}.
Implicit Types nt : gmap string (NetLayer F).

Lemma Gating_resolved_shape nt nt1 nm ly ly1 :
  same_shape nt nt1 →
  PFCDeepLayer.Gate ly1 = PFCDeepLayer.Gate ly →
  PFCDeepLayer.Maint ly1 = PFCDeepLayer.Maint ly →
  length (PFCDeepLayer.GateStates ly1) = length (PFCDeepLayer.GateStates ly) →
  Gating_resolved nt nm ly → Gating_resolved nt1 nm ly1.
Proof.
  intros Hsh EG EM EL [Htot Hres]. split; [done|]. rewrite EG, EM, EL.
  destruct (PFCGateParams.OutGate (PFCDeepLayer.Gate ly)).
  - intros Hclr. destruct (Hres Hclr) as [Hlen Hm]. split; [done|].
    pose proof (Hsh (MaintName nm)) as Hk.
    destruct (nt !! MaintName nm) as [[pfcm|?]|];
      inversion Hk as [a b Hab Ea Eb|]; subst; [| done | done].
    destruct b as [pfcm'|?]; [|done]. simpl in Hab.
    destruct Hm as [Hp [sli Hsli]]. split; [lia|].
    pose proof (Hsh (SuperName (MaintName nm))) as Hs. rewrite Hsli in Hs.
    inversion Hs; subst. by eexists.
  - destruct Hres as [Hl [sli Hsli]]. split; [done|].
    pose proof (Hsh (SuperName nm)) as Hs. rewrite Hsli in Hs.
    inversion Hs; subst. by eexists.
Qed.

Lemma Gating_pools nt nm ly ltime :
  getPFC nt nm = Some ly → Gating_resolved nt nm ly →
  ∃ nt' ly', Gating nt nm ltime = Some nt' ∧ getPFC nt' nm = Some ly' ∧
    PFCDeepLayer.Gate ly' = PFCDeepLayer.Gate ly ∧
    PFCDeepLayer.Maint ly' = PFCDeepLayer.Maint ly ∧
    PFCDeepLayer.PFCNeurs ly' = PFCDeepLayer.PFCNeurs ly ∧
    ∀ (gi : nat) gs, PFCDeepLayer.GateStates ly !! gi = Some gs →
      PFCDeepLayer.GateStates ly' !! gi =
        Some (if GatingSkipped ly ltime then gs
              else GateState.set_Cnt (GateCnt (PFCDeepLayer.Maint ly) gs) gs).
Proof.
  intros Hly Hres. unfold Gating. rewrite Hly. simpl.
  fold (GatingSkipped ly ltime).
  destruct (GatingSkipped ly ltime).
  { exists nt, ly. repeat (split; [done|]). done. }
  destruct (for_state_inv (Gating_inv nt nm ly)
              (λ gi (_ : GateState.t F) nt, GatingPool nm gi nt)
              (PFCDeepLayer.GateStates ly) nt) as (nt' & Hnt' & Hinv).
  - split; [apply same_shape_refl|]. exists ly. repeat (split; [done|]).
    intros gi gs Hgs. destruct (decide (gi < 0)%nat); [lia|done].
  - intros k gs nt1 Hgs (Hsh & ly1 & Hly1 & EG & EM & EP & Hpools).
    assert (Hgs1 : PFCDeepLayer.GateStates ly1 !! k = Some gs).
    { rewrite (Hpools k gs Hgs). destruct (decide (k < k)%nat); [lia|done]. }
    assert (EL : length (PFCDeepLayer.GateStates ly1)
                 = length (PFCDeepLayer.GateStates ly)).
    { pose proof (Hsh nm) as Hk.
      rewrite (proj1 (getPFC_Some _ _ _) Hly), (proj1 (getPFC_Some _ _ _) Hly1) in Hk.
      inversion Hk as [a b Hab|]; subst. simpl in Hab. lia. }
    destruct (GatingPool_spec nt1 nm ly1 k gs Hly1 Hgs1) as (nt2 & Hg & Hsh2 & Hly2).
    { by apply (Gating_resolved_shape nt nt1 nm ly ly1). }
    exists nt2. split; [done|]. split; [by eapply same_shape_trans|].
    exists (Gated ly1 k gs). repeat (split; [done|]).
    intros gi gs' Hgs'. unfold Gated. simpl.
    destruct (decide (gi = k)) as [->|Hne].
    + assert (gs' = gs) as -> by congruence.
      rewrite list_lookup_insert_eq by (by eapply lookup_lt_Some).
      destruct (decide (k < S k)%nat); [|lia]. by rewrite EM.
    + rewrite list_lookup_insert_ne by done. rewrite (Hpools gi gs' Hgs').
      destruct (decide (gi < k)%nat), (decide (gi < S k)%nat); try lia; done.
  - destruct Hinv as (_ & ly' & Hly' & EG & EM & EP & Hpools).
    exists nt', ly'. repeat (split; [done|]).
    intros gi gs Hgs. rewrite (Hpools gi gs Hgs).
    destruct (decide (gi < length (PFCDeepLayer.GateStates ly))%nat) as [|Hn]; [done|].
    apply lookup_lt_Some in Hgs. lia.
Qed.

End gating_loop.

(** ** The pools of the other layers in a gating pass *)

Section gating_others.
Import leabra pbwm.
Context {F : Type} `{Float32 F} `{LeabraExt F}.
Implicit Types nt : gmap string (NetLayer F).

(** The decay of a layer of the network keeps the pools of every PFC deep
    layer. *)
Lemma DecaySuper_pools nt dnm li pool decay nt' k lk :
  nt !! dnm = Some li →
  DecaySuper nt (Some (dnm, li)) pool decay = Some nt' → getPFC nt k = Some lk →
  ∃ lk', getPFC nt' k = Some lk' ∧
    PFCDeepLayer.GateStates lk' = PFCDeepLayer.GateStates lk.
Proof.
  intros Hli Hrun Hk. apply DecaySuper_run in Hrun as (d & l & b & [= <- <-] & ->).
  destruct (decide (dnm = k)) as [->|Hne].
  - apply getPFC_Some in Hk. assert (li = LPFCDeep lk) as -> by congruence.
    simpl. rewrite getPFC_insert. by eexists.
  - exists lk. by rewrite getPFC_insert_ne.
Qed.

(** What [ClearMaint] does to the pools of the PFC deep layers: pool [pool]
    of the maintenance layer goes to -1 when its [Cnt] is 1 or more, and
    nothing else changes. *)
Lemma ClearMaint_pools nt nm pool nt' k lk :
  ClearMaint nt nm pool = Some nt' → getPFC nt k = Some lk →
  ∃ lk', getPFC nt' k = Some lk' ∧
    ((k = MaintName nm ∧
      ∃ gsm, Go.index (PFCDeepLayer.GateStates lk) pool = Some gsm ∧
        1 <= GateState.Cnt gsm ∧
        PFCDeepLayer.GateStates lk' =
          <[Z.to_nat pool := GateState.set_Cnt (-1) gsm]> (PFCDeepLayer.GateStates lk))
     ∨ (PFCDeepLayer.GateStates lk' = PFCDeepLayer.GateStates lk ∧
        (k = MaintName nm →
         ∃ gsm, Go.index (PFCDeepLayer.GateStates lk) pool = Some gsm ∧
           GateState.Cnt gsm < 1))).
Proof.
  unfold ClearMaint. intros Hrun Hk.
  destruct (MaintPFC nt nm) as [[[mnm pfcm]|]|] eqn:Hm; simpl in Hrun; [| |done].
  2:{ injection Hrun as <-. exists lk. split; [done|]. right. split; [done|].
      intros ->. unfold MaintPFC in Hm.
      destruct (String.length nm <? 4)%nat; [done|].
      apply getPFC_Some in Hk. by rewrite Hk in Hm. }
  unfold MaintPFC in Hm.
  destruct (Nat.ltb_spec (String.length nm) 4) as [|Hlen]; [done|].
  destruct (nt !! MaintName nm) as [[p|?]|] eqn:Hlk; [|done|done].
  injection Hm as <- <-.
  destruct (Go.index _ pool) as [gs|] eqn:Hgs; simpl in Hrun; [|done].
  destruct (Z.leb_spec 1 (GateState.Cnt gs)) as [Hc|Hc].
  2:{ injection Hrun as <-. exists lk. split; [done|]. right. split; [done|].
      intros ->. apply getPFC_Some in Hk. assert (p = lk) as -> by congruence.
      by exists gs. }
  rewrite (store_Some _ _ _ gs) in Hrun by done. simpl in Hrun.
  destruct (SuperPFC _ _) as [x|] eqn:Hs; simpl in Hrun; [|done].
  apply SuperPFC_run in Hs as [Hl1 Hx].
  destruct x as [[dnm li]|]; [|done]. destruct Hx as [-> Hli].
  destruct (decide (k = MaintName nm)) as [->|Hne].
  - apply getPFC_Some in Hk. assert (p = lk) as -> by congruence.
    destruct (DecaySuper_pools _ _ _ _ _ _ (MaintName nm) _ Hli Hrun
                (getPFC_insert _ _ _)) as (lk' & Hlk' & E).
    exists lk'. split; [done|]. left. split; [done|]. exists gs.
    split; [done|]. split; [done|]. by rewrite E.
  - destruct (DecaySuper_pools _ _ _ _ _ _ k lk Hli Hrun) as (lk' & Hlk' & E).
    { by rewrite getPFC_insert_ne. }
    exists lk'. split; [done|]. right. split; [done|]. done.
Qed.

(** What the loop body of [Gating] does to the pools of the other PFC deep
    layers: a gate event of pool [gi] of an output gate that clears sends
    pool [gi] of the maintenance layer to -1 when its [Cnt] is 1 or more. *)
Lemma GatingPool_pools nt nm (gi : nat) nt' ly1 gs k lk :
  GatingPool nm (Z.of_nat gi) nt = Some nt' →
  getPFC nt nm = Some ly1 → PFCDeepLayer.GateStates ly1 !! gi = Some gs →
  k ≠ nm → getPFC nt k = Some lk →
  let fires :=
    GateState.Now gs = true ∧ fgt (GateState.Act gs) (of_int 0) = true ∧
    PFCGateParams.OutGate (PFCDeepLayer.Gate ly1) = true ∧
    PFCMaintParams.OutClearMaint (PFCDeepLayer.Maint ly1) = true ∧
    k = MaintName nm in
  ∃ lk', getPFC nt' k = Some lk' ∧
    ((fires ∧
      ∃ gsm, PFCDeepLayer.GateStates lk !! gi = Some gsm ∧
        1 <= GateState.Cnt gsm ∧
        PFCDeepLayer.GateStates lk' =
          <[gi := GateState.set_Cnt (-1) gsm]> (PFCDeepLayer.GateStates lk))
     ∨ (PFCDeepLayer.GateStates lk' = PFCDeepLayer.GateStates lk ∧
        (fires →
         ∃ gsm, PFCDeepLayer.GateStates lk !! gi = Some gsm ∧
           GateState.Cnt gsm < 1))).
Proof.
  intros Hrun Hly1 Hgs Hne Hk fires. unfold GatingPool in Hrun.
  rewrite Hly1 in Hrun. simpl in Hrun.
  rewrite index_of_nat, Hgs in Hrun. simpl in Hrun.
  destruct (GateState.Now gs) eqn:Hnow; simpl in Hrun.
  2:{ injection Hrun as <-. exists lk. split; [done|]. right. split; [done|].
      by intros (? & _). }
  match type of Hrun with
  | (mbind _ ?m) = _ => destruct m as [nt1|] eqn:Hmid end; simpl in Hrun; [|done].
  (* the last assignment writes the receiver only *)
  assert (Hlast : getPFC nt' k = getPFC nt1 k).
  { destruct (getPFC nt1 nm) as [ly2|]; simpl in Hrun; [|done].
    destruct (Go.index _ _) as [gs2|]; simpl in Hrun; [|done].
    destruct (_ <=? _).
    - apply setCnt_run in Hrun as (ly3 & gsl & _ & ->). by rewrite getPFC_insert_ne.
    - by injection Hrun as <-. }
  rewrite Hlast. clear Hrun Hlast.
  destruct (fgt (GateState.Act gs) (of_int 0)) eqn:Hact.
  2:{ injection Hmid as <-. exists lk. split; [done|]. right. split; [done|].
      by intros (_ & ? & _). }
  destruct (setCnt nt nm (Z.of_nat gi) 0) as [nt0|] eqn:Hset; simpl in Hmid; [|done].
  apply setCnt_run in Hset as (ly0 & gsl & Hly0 & ->).
  assert (Hk0 : getPFC (<[nm := LPFCDeep (PFCDeepLayer.set_GateStates gsl ly0)]> nt) k
                = Some lk) by (by rewrite getPFC_insert_ne).
  destruct (PFCGateParams.OutGate (PFCDeepLayer.Gate ly1)) eqn:Hout.
  - destruct (PFCMaintParams.OutClearMaint (PFCDeepLayer.Maint ly1)) eqn:Hclr.
    + destruct (ClearMaint_pools _ _ _ _ k lk Hmid Hk0) as (lk' & Hlk' & Hcase).
      exists lk'. split; [done|]. rewrite index_of_nat, Nat2Z.id in Hcase.
      destruct Hcase as [(-> & gsm & Hg & Hc & E)|[E Hc]].
      * left. split; [done|]. by exists gsm.
      * right. split; [done|]. intros (_ & _ & _ & _ & ->). by apply Hc.
    + injection Hmid as <-. exists lk. split; [done|]. right. split; [done|].
      by intros (_ & _ & _ & ? & _).
  - destruct (SuperPFC _ _) as [x|] eqn:Hs; simpl in Hmid; [|done].
    apply SuperPFC_run in Hs as [Hl1 Hx].
    destruct x as [[dnm li]|]; [|done]. destruct Hx as [-> Hli].
    destruct (DecaySuper_pools _ _ _ _ _ _ k lk Hli Hmid Hk0) as (lk' & Hlk' & E).
    exists lk'. split; [done|]. right. split; [done|].
    by intros (_ & _ & ? & _).
Qed.

(** A pass of [Gating] on the pools of the receiver and on the pools of the
    other PFC deep layers of the network. *)
Lemma Gating_all_pools nt nm ly ltime :
  getPFC nt nm = Some ly → Gating_resolved nt nm ly →
  ∃ nt' ly', Gating nt nm ltime = Some nt' ∧ getPFC nt' nm = Some ly' ∧
    (∀ (gi : nat) gs, PFCDeepLayer.GateStates ly !! gi = Some gs →
       PFCDeepLayer.GateStates ly' !! gi =
         Some (if GatingSkipped ly ltime then gs
               else GateState.set_Cnt (GateCnt (PFCDeepLayer.Maint ly) gs) gs)) ∧
    ∀ k lk, k ≠ nm → getPFC nt k = Some lk →
      ∃ lk', getPFC nt' k = Some lk' ∧
        ∀ (gi : nat) gsm, PFCDeepLayer.GateStates lk !! gi = Some gsm →
          let cleared :=
            GatingSkipped ly ltime = false ∧
            PFCGateParams.OutGate (PFCDeepLayer.Gate ly) = true ∧
            PFCMaintParams.OutClearMaint (PFCDeepLayer.Maint ly) = true ∧
            k = MaintName nm ∧ 1 <= GateState.Cnt gsm ∧
            ∃ gs, PFCDeepLayer.GateStates ly !! gi = Some gs ∧
              GateState.Now gs = true ∧ fgt (GateState.Act gs) (of_int 0) = true in
          ∃ gsm', PFCDeepLayer.GateStates lk' !! gi = Some gsm' ∧
            (cleared → gsm' = GateState.set_Cnt (-1) gsm) ∧
            (¬ cleared → gsm' = gsm).
Proof.
  intros Hly Hres. unfold Gating. rewrite Hly. simpl.
  fold (GatingSkipped ly ltime).
  destruct (GatingSkipped ly ltime) eqn:Hskip.
  { exists nt, ly. repeat (split; [done|]).
    intros k lk _ Hk. exists lk. split; [done|]. intros gi gsm Hgsm. cbv zeta.
    exists gsm. split; [done|]. split; [|done]. by intros (? & _). }
  set (CL := λ (k : string) (gi : nat) (gsm : GateState.t F),
         PFCGateParams.OutGate (PFCDeepLayer.Gate ly) = true ∧
         PFCMaintParams.OutClearMaint (PFCDeepLayer.Maint ly) = true ∧
         k = MaintName nm ∧ 1 <= GateState.Cnt gsm ∧
         ∃ gs, PFCDeepLayer.GateStates ly !! gi = Some gs ∧
           GateState.Now gs = true ∧ fgt (GateState.Act gs) (of_int 0) = true).
  destruct (for_state_inv
              (λ j nt1, Gating_inv nt nm ly j nt1 ∧
                 ∀ k lk, k ≠ nm → getPFC nt k = Some lk →
                   ∃ lk1, getPFC nt1 k = Some lk1 ∧
                     ∀ (gi : nat) gsm, PFCDeepLayer.GateStates lk !! gi = Some gsm →
                       ∃ gsm1, PFCDeepLayer.GateStates lk1 !! gi = Some gsm1 ∧
                         (CL k gi gsm ∧ (gi < j)%nat →
                          gsm1 = GateState.set_Cnt (-1) gsm) ∧
                         (¬ (CL k gi gsm ∧ (gi < j)%nat) → gsm1 = gsm))
              (λ gi (_ : GateState.t F) nt, GatingPool nm gi nt)
              (PFCDeepLayer.GateStates ly) nt) as (nt' & Hnt' & Hinv & Hoth).
  - split.
    + split; [apply same_shape_refl|]. exists ly. repeat (split; [done|]).
      intros gi gs Hgs. destruct (decide (gi < 0)%nat); [lia|done].
    + intros k lk _ Hk. exists lk. split; [done|]. intros gi gsm Hgsm.
      exists gsm. split; [done|]. split; [|done]. intros [_ ?]. lia.
  - intros j gs nt1 Hgs [(Hsh & ly1 & Hly1 & EG & EM & EP & Hpools) Hoth].
    assert (Hgs1 : PFCDeepLayer.GateStates ly1 !! j = Some gs).
    { rewrite (Hpools j gs Hgs). destruct (decide (j < j)%nat); [lia|done]. }
    assert (EL : length (PFCDeepLayer.GateStates ly1)
                 = length (PFCDeepLayer.GateStates ly)).
    { pose proof (Hsh nm) as Hk.
      rewrite (proj1 (getPFC_Some _ _ _) Hly), (proj1 (getPFC_Some _ _ _) Hly1) in Hk.
      inversion Hk as [a b Hab|]; subst. simpl in Hab. lia. }
    destruct (GatingPool_spec nt1 nm ly1 j gs Hly1 Hgs1) as (nt2 & Hg & Hsh2 & Hly2).
    { by apply (Gating_resolved_shape nt nt1 nm ly ly1). }
    exists nt2. split; [done|]. split.
    { split; [by eapply same_shape_trans|].
      exists (Gated ly1 j gs). repeat (split; [done|]).
      intros gi gs' Hgs'. unfold Gated. simpl.
      destruct (decide (gi = j)) as [->|Hne].
      + assert (gs' = gs) as -> by congruence.
        rewrite list_lookup_insert_eq by (by eapply lookup_lt_Some).
        destruct (decide (j < S j)%nat); [|lia]. by rewrite EM.
      + rewrite list_lookup_insert_ne by done. rewrite (Hpools gi gs' Hgs').
        destruct (decide (gi < j)%nat), (decide (gi < S j)%nat); try lia; done. }
    intros k lk Hne Hk. destruct (Hoth k lk Hne Hk) as (lk1 & Hlk1 & Hst).
    destruct (GatingPool_pools nt1 nm j nt2 ly1 gs k lk1 Hg Hly1 Hgs1 Hne Hlk1)
      as (lk2 & Hlk2 & Hcase).
    exists lk2. split; [done|]. intros gi gsm Hgsm.
    destruct (Hst gi gsm Hgsm) as (gsm1 & Hgsm1 & Hc1 & Hc2).
    destruct (decide (gi = j)) as [->|Hgi].
    + assert (gsm1 = gsm) as -> by (apply Hc2; intros [_ ?]; lia).
      destruct Hcase as [((Hnow & Hact & Hout & Hclr & ->) & g & Hg1 & Hcnt & E)
                        |[E Hno]].
      * assert (g = gsm) as -> by congruence.
        exists (GateState.set_Cnt (-1) gsm). split.
        { rewrite E. apply list_lookup_insert_eq. by eapply lookup_lt_Some. }
        split; [done|]. intros Hn. exfalso. apply Hn. split; [|lia].
        unfold CL. rewrite <- EG, <- EM. repeat (split; [done|]). by exists gs.
      * exists gsm. split; [by rewrite E|]. split; [|done].
        intros [(Hout & Hclr & -> & Hcnt & gs0 & Hgs0 & Hnow & Hact) _].
        assert (gs0 = gs) as -> by congruence.
        destruct Hno as (g & Hg1 & Hlt).
        { rewrite EG, EM. done. }
        assert (g = gsm) as -> by congruence. lia.
    + assert (Hiff : (gi < S j)%nat ↔ (gi < j)%nat) by lia.
      exists gsm1. split.
      { destruct Hcase as [(_ & g & _ & _ & E)|[E _]]; rewrite E; [|done].
        by rewrite list_lookup_insert_ne. }
      split.
      * intros [? ?]. apply Hc1. split; [done|]. by apply Hiff.
      * intros Hn. apply Hc2. intros [? ?]. apply Hn. split; [done|]. by apply Hiff.
  - destruct Hinv as (_ & ly' & Hly' & EG & EM & EP & Hpools).
    exists nt', ly'. repeat (split; [done|]). split.
    + intros gi gs Hgs. rewrite (Hpools gi gs Hgs).
      destruct (decide (gi < length (PFCDeepLayer.GateStates ly))%nat) as [|Hn]; [done|].
      apply lookup_lt_Some in Hgs. lia.
    + intros k lk Hne Hk. destruct (Hoth k lk Hne Hk) as (lk' & Hlk' & Hst).
      exists lk'. split; [done|]. intros gi gsm Hgsm. cbv zeta.
      destruct (Hst gi gsm Hgsm) as (gsm' & Hgsm' & Hc1 & Hc2).
      exists gsm'. split; [done|]. split.
      * intros (_ & Hout & Hclr & Hkk & Hcnt & gs & Hgs & Hx).
        apply Hc1. split; [|by eapply lookup_lt_Some].
        unfold CL. repeat (split; [done|]). by exists gs.
      * intros Hn. apply Hc2. intros [(Hout & Hclr & Hkk & Hcnt & Hx) _].
        apply Hn. done.
Qed.

End gating_others.

Section gating_thms.
Import leabra pbwm.
Context {F : Type} `{Float32 F} `{LeabraExt F}.

(** C3. In a gating cycle that evaluates a pool (the pass is not skipped for
    an output gate after the first quarters, and the pool's [Now] is set),
    a pool whose [Cnt] has reached [MaxMaint] ends with [Cnt = -1], whatever
    its state was, unless a gate event ([Act > 0]) of the same cycle has set
    [Cnt] to 0; the gate event itself ends in -1 only when [MaxMaint] is not
    positive. *)
Theorem Gating_forced_clear (nt : gmap string (NetLayer F)) (nm : string)
  (ly : PFCDeepLayer.t F) (ltime : Time.t) (gi : nat) (gs : GateState.t F) :
  getPFC nt nm = Some ly → Gating_resolved nt nm ly →
  GatingSkipped ly ltime = false →
  PFCDeepLayer.GateStates ly !! gi = Some gs →
  GateState.Now gs = true →
  PFCMaintParams.MaxMaint (PFCDeepLayer.Maint ly) <= GateState.Cnt gs →
  ∃ nt' ly' gs',
    Gating nt nm ltime = Some nt' ∧ getPFC nt' nm = Some ly' ∧
    PFCDeepLayer.GateStates ly' !! gi = Some gs' ∧
    (GateState.Cnt gs' = -1 ∨
     (fgt (GateState.Act gs) (of_int 0) = true ∧ GateState.Cnt gs' = 0)) ∧
    (fgt (GateState.Act gs) (of_int 0) = false → GateState.Cnt gs' = -1) ∧
    (fgt (GateState.Act gs) (of_int 0) = true →
     0 < PFCMaintParams.MaxMaint (PFCDeepLayer.Maint ly) →
     GateState.Cnt gs' = 0).
Proof.
  intros Hly Hres Hskip Hgs Hnow Hmax.
  destruct (Gating_pools nt nm ly ltime Hly Hres)
    as (nt' & ly' & Hrun & Hly' & _ & _ & _ & Hpools).
  specialize (Hpools gi gs Hgs). rewrite Hskip in Hpools.
  exists nt', ly'. eexists. split; [done|]. split; [done|]. split; [done|].
  simpl. unfold GateCnt. rewrite Hnow. simpl.
  destruct (fgt (GateState.Act gs) (of_int 0)).
  - destruct (Z.leb_spec (PFCMaintParams.MaxMaint (PFCDeepLayer.Maint ly)) 0).
    + split; [by left|]. split; [done|]. intros _ ?. lia.
    + split; [by right|]. done.
  - destruct (Z.leb_spec (PFCMaintParams.MaxMaint (PFCDeepLayer.Maint ly))
                (GateState.Cnt gs)); [|lia].
    split; [by left|]. done.
Qed.

Lemma UpdtCnt_spec (gs : GateState.t F) :
  GateState.Act (UpdtCnt gs) = GateState.Act gs ∧
  GateState.Now (UpdtCnt gs) = GateState.Now gs ∧
  (0 <= GateState.Cnt gs < Go.int_max →
   GateState.Cnt (UpdtCnt gs) = GateState.Cnt gs + 1) ∧
  (Go.int_min < GateState.Cnt gs < 0 →
   GateState.Cnt (UpdtCnt gs) = GateState.Cnt gs - 1).
Proof.
  unfold UpdtCnt. destruct (Z.ltb_spec (GateState.Cnt gs) 0); simpl.
  - repeat split; try done; try lia. intros ?.
    unfold Go.sub. apply wrap_id. unfold Go.int_min, Go.int_max in *. lia.
  - repeat split; try done; try lia. intros ?.
    unfold Go.add. apply wrap_id. unfold Go.int_min, Go.int_max in *. lia.
Qed.

(** C4, as amended.  A counter update of an eligible quarter adds one to a
    [Cnt >= 0] and subtracts one from a [Cnt < 0], as long as the result is
    a machine integer, and changes nothing else; in another quarter it
    changes nothing.  A gating pass of a layer that is skipped, and any pass
    on a pool of that layer whose [Now] is not set, leaves the pool as it
    is; on a pool whose [Now] is set it ends with [Cnt = 0] after a gate
    event ([Act > 0]) and with the old [Cnt] without one, replaced by -1,
    the forced clear, when that value is [MaxMaint] or more.  Of the pools
    of the other PFC deep layers the pass changes those of the maintenance
    layer of an output gate with [OutClearMaint] only: the pool of the
    index of a gate event goes to -1 when its [Cnt] is 1 or more, whatever
    its own [Now]. *)
Theorem GateCnt_steps :
  (∀ (ly : PFCDeepLayer.t F) (ltime : Time.t) (gi : nat) (gs : GateState.t F),
     PFCGateParams.GateQtr (PFCDeepLayer.Gate ly) (Time.Quarter ltime) = true →
     PFCDeepLayer.GateStates ly !! gi = Some gs →
     ∃ gs', PFCDeepLayer.GateStates (UpdtGateCnt ly ltime) !! gi = Some gs' ∧
       GateState.Act gs' = GateState.Act gs ∧
       GateState.Now gs' = GateState.Now gs ∧
       (0 <= GateState.Cnt gs < Go.int_max →
        GateState.Cnt gs' = GateState.Cnt gs + 1) ∧
       (Go.int_min < GateState.Cnt gs < 0 →
        GateState.Cnt gs' = GateState.Cnt gs - 1)) ∧
  (∀ (ly : PFCDeepLayer.t F) (ltime : Time.t),
     PFCGateParams.GateQtr (PFCDeepLayer.Gate ly) (Time.Quarter ltime) = false →
     UpdtGateCnt ly ltime = ly) ∧
  (∀ (nt : gmap string (NetLayer F)) (nm : string) (ly : PFCDeepLayer.t F)
     (ltime : Time.t),
     getPFC nt nm = Some ly → Gating_resolved nt nm ly →
     ∃ nt', Gating nt nm ltime = Some nt' ∧
       (∃ ly', getPFC nt' nm = Some ly' ∧
          ∀ (gi : nat) (gs : GateState.t F),
            PFCDeepLayer.GateStates ly !! gi = Some gs →
            ∃ gs', PFCDeepLayer.GateStates ly' !! gi = Some gs' ∧
              GateState.Act gs' = GateState.Act gs ∧
              GateState.Now gs' = GateState.Now gs ∧
              (GatingSkipped ly ltime = true ∨ GateState.Now gs = false →
               GateState.Cnt gs' = GateState.Cnt gs) ∧
              (GatingSkipped ly ltime = false → GateState.Now gs = true →
               GateState.Cnt gs' =
                 if fgt (GateState.Act gs) (of_int 0)
                 then (if PFCMaintParams.MaxMaint (PFCDeepLayer.Maint ly) <=? 0
                       then -1 else 0)
                 else (if PFCMaintParams.MaxMaint (PFCDeepLayer.Maint ly)
                          <=? GateState.Cnt gs
                       then -1 else GateState.Cnt gs))) ∧
       (∀ (k : string) (lk : PFCDeepLayer.t F), k ≠ nm → getPFC nt k = Some lk →
          ∃ lk', getPFC nt' k = Some lk' ∧
            ∀ (gi : nat) (gsm : GateState.t F),
              PFCDeepLayer.GateStates lk !! gi = Some gsm →
              let cleared :=
                GatingSkipped ly ltime = false ∧
                PFCGateParams.OutGate (PFCDeepLayer.Gate ly) = true ∧
                PFCMaintParams.OutClearMaint (PFCDeepLayer.Maint ly) = true ∧
                k = MaintName nm ∧ 1 <= GateState.Cnt gsm ∧
                ∃ gs, PFCDeepLayer.GateStates ly !! gi = Some gs ∧
                  GateState.Now gs = true ∧
                  fgt (GateState.Act gs) (of_int 0) = true in
              ∃ gsm', PFCDeepLayer.GateStates lk' !! gi = Some gsm' ∧
                GateState.Act gsm' = GateState.Act gsm ∧
                GateState.Now gsm' = GateState.Now gsm ∧
                (cleared → GateState.Cnt gsm' = -1) ∧
                (¬ cleared → GateState.Cnt gsm' = GateState.Cnt gsm))).
Proof.
  split; [|split].
  - intros ly ltime gi gs Hq Hgs. unfold UpdtGateCnt. rewrite Hq. simpl.
    exists (UpdtCnt gs). rewrite list_lookup_fmap, Hgs. split; [done|].
    apply UpdtCnt_spec.
  - intros ly ltime Hq. unfold UpdtGateCnt. by rewrite Hq.
  - intros nt nm ly ltime Hly Hres.
    destruct (Gating_all_pools nt nm ly ltime Hly Hres)
      as (nt' & ly' & Hrun & Hly' & Hpools & Hoth).
    exists nt'. split; [done|]. split.
    + exists ly'. split; [done|]. intros gi gs Hgs.
      eexists. split; [exact (Hpools gi gs Hgs)|].
      destruct (GatingSkipped ly ltime).
      { repeat (split; [done|]). done. }
      simpl. repeat (split; [done|]). unfold GateCnt. split.
      * intros [?| ->]; [done|]. done.
      * intros _ ->. simpl. by destruct (fgt (GateState.Act gs) (of_int 0)).
    + intros k lk Hne Hk. destruct (Hoth k lk Hne Hk) as (lk' & Hlk' & Hst).
      exists lk'. split; [done|]. intros gi gsm Hgsm. cbv zeta.
      destruct (Hst gi gsm Hgsm) as (gsm' & Hgsm' & Hc1 & Hc2).
      exists gsm'. split; [done|].
      assert (Hor : gsm' = GateState.set_Cnt (-1) gsm ∨ gsm' = gsm).
      { destruct (PFCDeepLayer.GateStates ly !! gi) as [gs|] eqn:Hgs.
        2:{ right. apply Hc2. by intros (_ & _ & _ & _ & _ & ? & ? & _). }
        destruct (GatingSkipped ly ltime) eqn:Hs.
        { right. apply Hc2. by intros (? & _). }
        destruct (PFCGateParams.OutGate (PFCDeepLayer.Gate ly)) eqn:Ho.
        2:{ right. apply Hc2. by intros (_ & ? & _). }
        destruct (PFCMaintParams.OutClearMaint (PFCDeepLayer.Maint ly)) eqn:Hc.
        2:{ right. apply Hc2. by intros (_ & _ & ? & _). }
        destruct (decide (k = MaintName nm)) as [Hkm|Hkm].
        2:{ right. apply Hc2. by intros (_ & _ & _ & ? & _). }
        destruct (Z.le_gt_cases 1 (GateState.Cnt gsm)) as [Hcnt|Hcnt].
        2:{ right. apply Hc2. intros (_ & _ & _ & _ & ? & _). lia. }
        destruct (GateState.Now gs) eqn:Hnow.
        2:{ right. apply Hc2. intros (_ & _ & _ & _ & _ & g & Hg & ? & _).
            assert (g = gs) as -> by congruence. congruence. }
        destruct (fgt (GateState.Act gs) (of_int 0)) eqn:Hact.
        2:{ right. apply Hc2. intros (_ & _ & _ & _ & _ & g & Hg & _ & ?).
            assert (g = gs) as -> by congruence. congruence. }
        left. apply Hc1.
        repeat (split; [done|]). by exists gs. }
      split; [by destruct Hor as [-> | ->]|].
      split; [by destruct Hor as [-> | ->]|]. split.
      * intros Hcl. by rewrite (Hc1 Hcl).
      * intros Hn. by rewrite (Hc2 Hn).
Qed.

End gating_thms.

Section soft_miss.
Import leabra pbwm.
Context {F : Type} `{Float32 F} `{LeabraExt F}.

(** The absent layers that are tested: [ClearMaint] and [DeepMaint] return
    and change nothing. *)
Lemma ClearMaint_maint_absent (nt : gmap string (NetLayer F)) nm pool :
  (4 ≤ String.length nm)%nat → nt !! MaintName nm = None →
  ClearMaint nt nm pool = Some nt.
Proof.
  intros Hl Hm. unfold ClearMaint, MaintPFC.
  destruct (Nat.ltb_spec (String.length nm) 4); [lia|]. by rewrite Hm.
Qed.

Lemma DeepMaint_super_absent (nt : gmap string (NetLayer F)) nm ly ltime :
  (1 ≤ String.length nm)%nat → nt !! SuperName nm = None →
  DeepMaint nt nm ly ltime = Some ly.
Proof.
  intros Hl Hs. unfold DeepMaint.
  destruct (negb _); [done|]. by rewrite (SuperPFC_spec nt nm Hl), Hs.
Qed.

(** The absent super layer that is not tested: a gate event of a
    maintenance gate panics. *)
Lemma GatingPool_super_absent (nt : gmap string (NetLayer F)) nm ly (gi : nat) gs :
  getPFC nt nm = Some ly → PFCDeepLayer.GateStates ly !! gi = Some gs →
  GateState.Now gs = true → fgt (GateState.Act gs) (of_int 0) = true →
  PFCGateParams.OutGate (PFCDeepLayer.Gate ly) = false →
  (1 ≤ String.length nm)%nat → nt !! SuperName nm = None →
  GatingPool nm (Z.of_nat gi) nt = None.
Proof.
  intros Hly Hgs Hnow Hact Hout Hl Hs. unfold GatingPool.
  rewrite Hly. simpl. rewrite index_of_nat, Hgs. simpl.
  rewrite Hnow, Hact, Hout. simpl.
  rewrite (setCnt_spec nt nm ly gi gs 0 Hly Hgs). simpl.
  rewrite SuperPFC_spec by done.
  rewrite lookup_insert_ne; [by rewrite Hs|].
  intros E. symmetry in E. by apply SuperName_ne in E.
Qed.

End soft_miss.

Section deep_lemmas.
Import leabra pbwm.
Context {F : Type} `{Float32 F} `{LeabraExt F}.

Lemma MaintFmCnt_total (ly : PFCDeepLayer.t F) sly d c gs pnr :
  (0 <= GateState.Cnt gs <= 1 →
   ∃ si, SuperIdx d c = Some si ∧ is_Some (Go.index (Layer.Neurons sly) si)) →
  is_Some (MaintFmCnt ly sly d c gs pnr).
Proof.
  intros Hsi. unfold MaintFmCnt.
  destruct (Z.ltb_spec (GateState.Cnt gs) 0); [by eexists|].
  destruct (Z.leb_spec (GateState.Cnt gs) 1); [|by eexists].
  destruct Hsi as (si & Hsi & [snr Hsnr]); [lia|].
  rewrite Hsi. simpl. rewrite Hsnr. simpl. by eexists.
Qed.

Lemma DeepMaint_loop (ly : PFCDeepLayer.t F) sly d :
  DeepMaint_in_range ly sly d →
  ∃ pnrs, Go.for_state (DeepMaintUnit ly sly d) 0 (PFCDeepLayer.Neurons ly)
            (PFCDeepLayer.PFCNeurs ly) = Some pnrs ∧
          DeepMaint_inv ly sly d (length (PFCDeepLayer.Neurons ly)) pnrs.
Proof.
  intros Hr. apply (for_state_inv (DeepMaint_inv ly sly d)).
  - intros ni. destruct (decide (ni < 0)%nat); [lia|].
    by destruct (PFCDeepLayer.PFCNeurs ly !! ni).
  - intros k nrn pnrs Hnrn Hinv. unfold DeepMaintUnit.
    destruct (Neuron.Off nrn) eqn:Hoff.
    + exists pnrs. split; [done|]. intros ni. rewrite (Hinv ni).
      destruct (PFCDeepLayer.PFCNeurs ly !! ni) as [pnr|]; simpl; [|done].
      destruct (decide (ni < k)%nat), (decide (ni < S k)%nat); try lia; try done.
      assert (ni = k) as -> by lia. unfold DeepUnit. by rewrite Hnrn, Hoff.
    + destruct (Hr k nrn Hnrn Hoff) as (c & gs & Hc & [pnr Hpnr] & Hgs & Hsi).
      rewrite Hc. simpl.
      assert (Hk : pnrs !! k = Some pnr).
      { rewrite (Hinv k), Hpnr. simpl. destruct (decide (k < k)%nat); [lia|done]. }
      rewrite index_of_nat, Hk. simpl. rewrite Hgs. simpl.
      destruct (MaintFmCnt_total ly sly d c gs pnr Hsi) as [pnr1 Hpnr1].
      rewrite Hpnr1. simpl.
      rewrite (store_Some _ _ _ pnr) by (by rewrite index_of_nat).
      rewrite Nat2Z.id. eexists. split; [done|].
      intros ni. destruct (decide (ni = k)) as [->|Hne].
      * rewrite list_lookup_insert_eq by (by eapply lookup_lt_Some).
        rewrite Hpnr. simpl. destruct (decide (k < S k)%nat); [|lia].
        unfold DeepUnit. rewrite Hnrn, Hoff, Hc. simpl. rewrite Hgs. simpl.
        by rewrite Hpnr1.
      * rewrite list_lookup_insert_ne by done. rewrite (Hinv ni).
        destruct (PFCDeepLayer.PFCNeurs ly !! ni) as [p|]; simpl; [|done].
        destruct (decide (ni < k)%nat), (decide (ni < S k)%nat); try lia; done.
Qed.

End deep_lemmas.

(** ** The divisions and the index of the super unit, written out

    For shapes of positive sizes whose products are machine integers the
    values that [DeepMaint] computes are the quotients and remainders of the
    integers. *)

Section deep_shape.
Import leabra pbwm.
Context {F : Type} `{Float32 F} `{LeabraExt F}.

Lemma quo_nonneg (a b : Z) :
  0 <= a <= Go.int_max → 0 < b → Go.quo a b = Some (a / b).
Proof.
  intros Ha Hb. unfold Go.quo. destruct (Z.eqb_spec b 0); [lia|].
  rewrite Z.quot_div_nonneg by lia. rewrite wrap_id; [done|].
  pose proof (Z.div_pos a b). pose proof (Z.div_le_upper_bound a b a).
  unfold Go.int_min, Go.int_max in *. nia.
Qed.

Lemma rem_nonneg (a b : Z) : 0 <= a → 0 < b → Go.rem a b = Some (a mod b).
Proof.
  intros Ha Hb. unfold Go.rem. destruct (Z.eqb_spec b 0); [lia|].
  by rewrite Z.rem_mod_nonneg by lia.
Qed.

Lemma mul_nonneg (a b : Z) :
  0 <= a → 0 <= b → a * b <= Go.int_max → Go.mul a b = a * b.
Proof.
  intros. unfold Go.mul. apply wrap_id. unfold Go.int_min, Go.int_max in *. nia.
Qed.

Lemma add_nonneg (a b : Z) :
  0 <= a → 0 <= b → a + b <= Go.int_max → Go.add a b = a + b.
Proof.
  intros. unfold Go.add. apply wrap_id. unfold Go.int_min, Go.int_max in *. lia.
Qed.

Lemma DeepMaintDims_shape (ly : PFCDeepLayer.t F) (sly : Layer.t F)
  (yN xN syN sxN : Z) :
  Layer.Dim (PFCDeepLayer.Layer ly) 2 = Some yN →
  Layer.Dim (PFCDeepLayer.Layer ly) 3 = Some xN →
  Layer.Dim sly 2 = Some syN → Layer.Dim sly 3 = Some sxN →
  0 < xN → 0 < syN <= yN → 0 <= sxN →
  yN * xN <= Go.int_max → syN * sxN <= Go.int_max →
  DeepMaintDims ly sly =
    Some (DeepDims.mk xN (yN * xN) syN sxN (syN * sxN) (yN / (yN / syN))).
Proof.
  intros Hy Hx Hsy Hsx Hx0 Hsy0 Hsx0 Hnn Hsnn. unfold DeepMaintDims.
  rewrite Hy, Hx, Hsy, Hsx. simpl.
  assert (HyN : yN <= Go.int_max) by nia.
  assert (Hd : 0 < yN / syN). { apply Z.div_str_pos. lia. }
  rewrite (quo_nonneg yN syN) by lia. simpl.
  rewrite (quo_nonneg yN (yN / syN)) by lia. simpl.
  by rewrite !mul_nonneg by lia.
Qed.

Lemma UnitCoords_shape (xN nn syN sxN snn dt ni : Z) :
  0 < xN → 0 < nn → 0 <= ni <= Go.int_max →
  UnitCoords (DeepDims.mk xN nn syN sxN snn dt) ni =
    Some (ni / nn, ni mod nn / xN, (ni mod nn) mod xN).
Proof.
  intros Hx Hn Hni. unfold UnitCoords. simpl.
  rewrite (rem_nonneg ni nn) by lia. simpl.
  rewrite (quo_nonneg ni nn) by lia. simpl.
  pose proof (Z.mod_pos_bound ni nn Hn).
  pose proof (Z.mod_le ni nn ltac:(lia) Hn).
  rewrite (quo_nonneg (ni mod nn) xN) by lia. simpl.
  by rewrite (rem_nonneg (ni mod nn) xN) by lia.
Qed.

Lemma SuperIdx_shape (xN nn syN sxN snn dt pi uy ux : Z) :
  0 < syN → 0 <= sxN → 0 <= snn → 0 <= pi → 0 <= uy → 0 <= ux →
  pi * snn + uy mod syN * sxN + ux <= Go.int_max →
  SuperIdx (DeepDims.mk xN nn syN sxN snn dt) (pi, uy, ux) =
    Some (pi * snn + uy mod syN * sxN + ux).
Proof.
  intros Hsy Hsx Hsn Hp Hu Hx Hle. unfold SuperIdx. simpl.
  rewrite (rem_nonneg uy syN) by lia. simpl.
  pose proof (Z.mod_pos_bound uy syN Hsy).
  assert (0 <= pi * snn) by nia. assert (0 <= uy mod syN * sxN) by nia.
  rewrite !mul_nonneg by lia.
  rewrite (add_nonneg (pi * snn) (uy mod syN * sxN)) by lia.
  by rewrite add_nonneg by lia.
Qed.

(** With a super layer of the shape of the deep layer, the super unit of a
    unit is the unit of the same index. *)
Lemma SuperUnit_same_shape (yN xN ni : Z) :
  0 < xN → 0 < yN → 0 <= ni →
  ni / (yN * xN) * (yN * xN) + (ni mod (yN * xN) / xN) mod yN * xN
    + (ni mod (yN * xN)) mod xN = ni.
Proof.
  intros Hx Hy Hni.
  assert (Hn : 0 < yN * xN) by nia.
  pose proof (Z.mod_pos_bound ni (yN * xN) Hn) as Hm.
  rewrite (Z.mod_small (ni mod (yN * xN) / xN) yN).
  2:{ split; [apply Z.div_pos; lia|]. apply Z.div_lt_upper_bound; lia. }
  pose proof (Z.div_mod (ni mod (yN * xN)) xN ltac:(lia)).
  pose proof (Z.div_mod ni (yN * xN) ltac:(lia)). lia.
Qed.

Lemma DeepMaint_in_range_shape (ly : PFCDeepLayer.t F) (sly : Layer.t F)
  (yN xN syN sxN dt : Z) :
  0 < xN → 0 < yN → 0 < syN → 0 <= sxN →
  Go.len (PFCDeepLayer.Neurons ly) <= Go.int_max →
  Go.len (Layer.Neurons sly) <= Go.int_max →
  (∀ (ni : nat) (nrn : Neuron.t F),
     PFCDeepLayer.Neurons ly !! ni = Some nrn → Neuron.Off nrn = false →
     is_Some (PFCDeepLayer.PFCNeurs ly !! ni) ∧
     ∃ gs, Go.index (PFCDeepLayer.GateStates ly) (Neuron.SubPool nrn - 1) = Some gs ∧
       (0 <= GateState.Cnt gs <= 1 →
        Z.of_nat ni / (yN * xN) * (syN * sxN)
          + (Z.of_nat ni mod (yN * xN) / xN) mod syN * sxN
          + (Z.of_nat ni mod (yN * xN)) mod xN < Go.len (Layer.Neurons sly))) →
  DeepMaint_in_range ly sly (DeepDims.mk xN (yN * xN) syN sxN (syN * sxN) dt).
Proof.
  intros Hx Hy Hsy Hsx Hl Hsl Hr ni nrn Hnrn Hoff.
  destruct (Hr ni nrn Hnrn Hoff) as (Hp & gs & Hgs & Hsi).
  assert (Hni : 0 <= Z.of_nat ni <= Go.int_max).
  { apply lookup_lt_Some in Hnrn. unfold Go.len in Hl. lia. }
  assert (Hn : 0 < yN * xN) by nia.
  eexists _, gs. split; [by apply UnitCoords_shape|].
  split; [done|]. split; [done|]. intros Hc. specialize (Hsi Hc).
  pose proof (Z.mod_pos_bound (Z.of_nat ni) (yN * xN) Hn) as Hm.
  assert (0 <= Z.of_nat ni / (yN * xN)) by (apply Z.div_pos; lia).
  assert (0 <= Z.of_nat ni mod (yN * xN) / xN) by (apply Z.div_pos; lia).
  pose proof (Z.mod_pos_bound (Z.of_nat ni mod (yN * xN)) xN Hx).
  pose proof (Z.mod_pos_bound (Z.of_nat ni mod (yN * xN) / xN) syN Hsy).
  eexists. split.
  - apply SuperIdx_shape; try lia; nia.
  - unfold Go.index.
    match goal with |- is_Some (if ?s <? 0 then _ else _) =>
      assert (0 <= s) by nia; destruct (Z.ltb_spec s 0); [lia|] end.
    apply lookup_lt_is_Some. unfold Go.len in Hsi. lia.
Qed.

End deep_shape.

Section deep_thm.
Import leabra pbwm.

(** The units after [DeepMaint], through the values that the code computes
    before and in its unit loop. *)
Lemma DeepMaint_units_dims (nt : gmap string (NetLayer Q)) (nm : string)
  (ly : PFCDeepLayer.t Q) (ltime : Time.t) (li : NetLayer Q) (d : DeepDims.t) :
  PFCGateParams.GateQtr (PFCDeepLayer.Gate ly) (Time.Quarter ltime) = true →
  (1 ≤ String.length nm)%nat →
  nt !! SuperName nm = Some li →
  DeepMaintDims ly (AsLeabra li) = Some d →
  DeepMaint_in_range ly (AsLeabra li) d →
  ∃ ly', DeepMaint nt nm ly ltime = Some ly' ∧
    ∀ (ni : nat) (nrn : Neuron.t Q),
      PFCDeepLayer.Neurons ly !! ni = Some nrn → Neuron.Off nrn = false →
      ∃ pnr pnr' gs c,
        PFCDeepLayer.PFCNeurs ly !! ni = Some pnr ∧
        PFCDeepLayer.PFCNeurs ly' !! ni = Some pnr' ∧
        Go.index (PFCDeepLayer.GateStates ly) (Neuron.SubPool nrn - 1) = Some gs ∧
        UnitCoords d (Z.of_nat ni) = Some c ∧
        (GateState.Cnt gs < 0 →
         PFCNeuron.Maint pnr' == 0 ∧ PFCNeuron.MaintGe pnr' == 0) ∧
        (0 <= GateState.Cnt gs <= 1 →
         ∃ si snr, SuperIdx d c = Some si ∧
           Go.index (Layer.Neurons (AsLeabra li)) si = Some snr ∧
           PFCNeuron.Maint pnr' =
             (PFCMaintParams.MaintGain (PFCDeepLayer.Maint ly) * Neuron.Act snr)%Q) ∧
        (1 < GateState.Cnt gs → PFCNeuron.Maint pnr' = PFCNeuron.Maint pnr) ∧
        (0 <= GateState.Cnt gs →
         PFCNeuron.MaintGe pnr' =
           if PFCMaintParams.UseDyn (PFCDeepLayer.Maint ly)
           then (PFCNeuron.Maint pnr'
                 * PFCDeepLayer.Dyns ly (DeepDims.dtyp d)
                     (inject_Z (Go.sub (GateState.Cnt gs) 1)))%Q
           else PFCNeuron.Maint pnr').
Proof.
  intros Hq Hl Hli Hd Hr. unfold DeepMaint. rewrite Hq. simpl.
  rewrite (SuperPFC_spec nt nm Hl), Hli. simpl. rewrite Hd. simpl.
  destruct (DeepMaint_loop ly (AsLeabra li) d Hr) as (pnrs & Hloop & Hinv).
  rewrite Hloop. simpl. eexists. split; [done|]. simpl.
  intros ni nrn Hnrn Hoff.
  destruct (Hr ni nrn Hnrn Hoff) as (c & gs & Hc & [pnr Hpnr] & Hgs & Hsi).
  specialize (Hinv ni). rewrite Hpnr in Hinv. simpl in Hinv.
  destruct (decide (ni < length (PFCDeepLayer.Neurons ly))%nat) as [_|Hn].
  2:{ apply lookup_lt_Some in Hnrn. lia. }
  unfold DeepUnit in Hinv. rewrite Hnrn, Hoff, Hc in Hinv. simpl in Hinv.
  rewrite Hgs in Hinv. simpl in Hinv.
  exists pnr. unfold MaintFmCnt, MaintGeFmMaint in Hinv.
  destruct (Z.ltb_spec (GateState.Cnt gs) 0) as [Hneg|Hnn].
  - simpl in Hinv. eexists _, gs, c. repeat (split; [done|]).
    split; [|repeat split; intros; lia].
    intros _. destruct (PFCMaintParams.UseDyn (PFCDeepLayer.Maint ly)); simpl.
    + split; [reflexivity|]. ring.
    + split; reflexivity.
  - destruct (Z.leb_spec (GateState.Cnt gs) 1) as [Hle|Hgt].
    + destruct Hsi as (si & Hsi & [snr Hsnr]); [lia|].
      rewrite Hsi in Hinv. simpl in Hinv. rewrite Hsnr in Hinv. simpl in Hinv.
      eexists _, gs, c. repeat (split; [done|]).
      split; [intros; lia|]. split.
      { intros _. exists si, snr. repeat (split; [done|]).
        by destruct (PFCMaintParams.UseDyn (PFCDeepLayer.Maint ly)). }
      split; [intros; lia|]. intros _.
      by destruct (PFCMaintParams.UseDyn (PFCDeepLayer.Maint ly)).
    + simpl in Hinv. eexists _, gs, c. repeat (split; [done|]).
      split; [intros; lia|]. split; [intros; lia|]. split.
      { intros _. by destruct (PFCMaintParams.UseDyn (PFCDeepLayer.Maint ly)). }
      intros _. by destruct (PFCMaintParams.UseDyn (PFCDeepLayer.Maint ly)).
Qed.

(** C2. On a quarter of the gating quarter set and with the super layer
    found, for a deep layer of [yN] rows and [xN] columns per pool and a
    super layer of [syN] rows and [sxN] columns per pool, [0 < syN <= yN],
    [DeepMaint] leaves in every unit [ni] that is not off: [Maint] and
    [MaintGe] zero when the pool of the unit is idle ([Cnt < 0]); when
    [0 <= Cnt <= 1], [Maint] equal to [MaintGain] times the activation of
    the unit of the super layer of index
    [ni / nn * snn + (ni mod nn / xN) mod syN * sxN + (ni mod nn) mod xN],
    with [nn = yN * xN] and [snn = syN * sxN]: the unit of the same pool
    and column, in the row of the unit modulo [syN], which is the unit of
    the same index [ni] when the two layers have the same shape; the
    previous [Maint] for a larger [Cnt]; and, for a pool that is not idle,
    [MaintGe] equal to [Maint] times the value of the dynamics of type
    [yN / (yN / syN)] at [Cnt - 1] when [UseDyn] is set, and to [Maint]
    otherwise. *)
Theorem DeepMaint_units (nt : gmap string (NetLayer Q)) (nm : string)
  (ly : PFCDeepLayer.t Q) (ltime : Time.t) (li : NetLayer Q)
  (yN xN syN sxN : Z) :
  PFCGateParams.GateQtr (PFCDeepLayer.Gate ly) (Time.Quarter ltime) = true →
  (1 ≤ String.length nm)%nat →
  nt !! SuperName nm = Some li →
  Layer.Dim (PFCDeepLayer.Layer ly) 2 = Some yN →
  Layer.Dim (PFCDeepLayer.Layer ly) 3 = Some xN →
  Layer.Dim (AsLeabra li) 2 = Some syN →
  Layer.Dim (AsLeabra li) 3 = Some sxN →
  0 < xN → 0 < syN <= yN → 0 <= sxN →
  yN * xN <= Go.int_max → syN * sxN <= Go.int_max →
  Go.len (PFCDeepLayer.Neurons ly) <= Go.int_max →
  Go.len (Layer.Neurons (AsLeabra li)) <= Go.int_max →
  (∀ (ni : nat) (nrn : Neuron.t Q),
     PFCDeepLayer.Neurons ly !! ni = Some nrn → Neuron.Off nrn = false →
     is_Some (PFCDeepLayer.PFCNeurs ly !! ni) ∧
     ∃ gs, Go.index (PFCDeepLayer.GateStates ly) (Neuron.SubPool nrn - 1) = Some gs ∧
       (0 <= GateState.Cnt gs <= 1 →
        Z.of_nat ni / (yN * xN) * (syN * sxN)
          + (Z.of_nat ni mod (yN * xN) / xN) mod syN * sxN
          + (Z.of_nat ni mod (yN * xN)) mod xN
        < Go.len (Layer.Neurons (AsLeabra li)))) →
  ∃ ly', DeepMaint nt nm ly ltime = Some ly' ∧
    ∀ (ni : nat) (nrn : Neuron.t Q),
      PFCDeepLayer.Neurons ly !! ni = Some nrn → Neuron.Off nrn = false →
      ∃ pnr pnr' gs,
        PFCDeepLayer.PFCNeurs ly !! ni = Some pnr ∧
        PFCDeepLayer.PFCNeurs ly' !! ni = Some pnr' ∧
        Go.index (PFCDeepLayer.GateStates ly) (Neuron.SubPool nrn - 1) = Some gs ∧
        (GateState.Cnt gs < 0 →
         PFCNeuron.Maint pnr' == 0 ∧ PFCNeuron.MaintGe pnr' == 0) ∧
        (0 <= GateState.Cnt gs <= 1 →
         ∃ snr,
           Go.index (Layer.Neurons (AsLeabra li))
             (Z.of_nat ni / (yN * xN) * (syN * sxN)
              + (Z.of_nat ni mod (yN * xN) / xN) mod syN * sxN
              + (Z.of_nat ni mod (yN * xN)) mod xN) = Some snr ∧
           PFCNeuron.Maint pnr' =
             (PFCMaintParams.MaintGain (PFCDeepLayer.Maint ly) * Neuron.Act snr)%Q ∧
           (syN = yN → sxN = xN →
            Layer.Neurons (AsLeabra li) !! ni = Some snr)) ∧
        (1 < GateState.Cnt gs → PFCNeuron.Maint pnr' = PFCNeuron.Maint pnr) ∧
        (0 <= GateState.Cnt gs →
         PFCNeuron.MaintGe pnr' =
           if PFCMaintParams.UseDyn (PFCDeepLayer.Maint ly)
           then (PFCNeuron.Maint pnr'
                 * PFCDeepLayer.Dyns ly (yN / (yN / syN))
                     (inject_Z (Go.sub (GateState.Cnt gs) 1)))%Q
           else PFCNeuron.Maint pnr').
Proof.
  intros Hq Hl Hli Hy Hx Hsy Hsx Hx0 Hsy0 Hsx0 Hnn Hsnn Hlen Hslen Hr.
  assert (Hd := DeepMaintDims_shape ly (AsLeabra li) yN xN syN sxN
                  Hy Hx Hsy Hsx Hx0 Hsy0 Hsx0 Hnn Hsnn).
  assert (Hin := DeepMaint_in_range_shape ly (AsLeabra li) yN xN syN sxN
                   (yN / (yN / syN)) Hx0 ltac:(lia) ltac:(lia) Hsx0 Hlen Hslen Hr).
  destruct (DeepMaint_units_dims nt nm ly ltime li _ Hq Hl Hli Hd Hin)
    as (ly' & Hrun & Hunits).
  exists ly'. split; [done|]. intros ni nrn Hnrn Hoff.
  destruct (Hunits ni nrn Hnrn Hoff)
    as (pnr & pnr' & gs & c & Hp & Hp' & Hgs & Hc & Hneg & Hfirst & Hheld & Hge).
  exists pnr, pnr', gs. repeat (split; [done|]).
  assert (Hni : 0 <= Z.of_nat ni <= Go.int_max).
  { apply lookup_lt_Some in Hnrn. unfold Go.len in Hlen. lia. }
  assert (Hn : 0 < yN * xN) by nia.
  rewrite UnitCoords_shape in Hc by lia. injection Hc as <-.
  split; [|done].
  intros Hcnt. destruct (Hfirst Hcnt) as (si & snr & Hsi & Hsnr & HM).
  destruct (Hr ni nrn Hnrn Hoff) as (_ & gs0 & Hgs0 & Hlt).
  assert (gs0 = gs) as -> by congruence. specialize (Hlt Hcnt).
  pose proof (Z.mod_pos_bound (Z.of_nat ni) (yN * xN) Hn) as Hm.
  assert (0 <= Z.of_nat ni / (yN * xN)) by (apply Z.div_pos; lia).
  assert (0 <= Z.of_nat ni mod (yN * xN) / xN) by (apply Z.div_pos; lia).
  pose proof (Z.mod_pos_bound (Z.of_nat ni mod (yN * xN)) xN Hx0).
  pose proof (Z.mod_pos_bound (Z.of_nat ni mod (yN * xN) / xN) syN ltac:(lia)).
  rewrite SuperIdx_shape in Hsi; try lia; try nia.
  injection Hsi as <-.
  exists snr. split; [done|]. split; [done|].
  intros -> ->. rewrite SuperUnit_same_shape in Hsnr by lia.
  by rewrite index_of_nat in Hsnr.
Qed.

End deep_thm.

(** ** pvlv: the broadcast *)

Section pv_lemmas.
Import leabra pvlv.
Context {F : Type} `{Float32 F}.

Lemma SendPVUnit_loop (nrns : list (Neuron.t F)) (mnrs : list (ModNeuron.t F)) :
  (length nrns ≤ length mnrs)%nat →
  ∃ mnrs', Go.for_state SendPVUnit 0 nrns mnrs = Some mnrs' ∧
           length mnrs' = length mnrs ∧ Sent nrns mnrs'.
Proof.
  intros Hlen.
  destruct (for_state_inv
              (λ k m, length m = length mnrs ∧ SendPVUnit_inv nrns mnrs k m)
              SendPVUnit nrns mnrs) as (mnrs' & Hrun & Hl & Hinv).
  - split; [done|]. intros pi. destruct (decide (pi < 0)%nat); [lia|done].
  - intros k pnr m1 Hpnr [Hl1 Hinv]. unfold SendPVUnit.
    assert (Hk : (k < length m1)%nat).
    { apply lookup_lt_Some in Hpnr. lia. }
    destruct (lookup_lt_is_Some_2 _ _ Hk) as [mnr Hmnr].
    rewrite index_of_nat, Hmnr. simpl.
    rewrite (store_Some _ _ _ mnr) by (by rewrite index_of_nat).
    rewrite Nat2Z.id. eexists. split; [done|].
    split; [by rewrite length_insert|].
    intros pi. destruct (decide (pi = k)) as [->|Hne].
    + rewrite list_lookup_insert_eq by done.
      destruct (decide (k < S k)%nat); [|lia]. by rewrite Hpnr.
    + rewrite list_lookup_insert_ne by done. rewrite (Hinv pi).
      destruct (decide (pi < k)%nat), (decide (pi < S k)%nat); try lia; done.
  - exists mnrs'. split; [done|]. split; [done|].
    intros pi pnr Hpnr. rewrite (Hinv pi).
    destruct (decide (pi < length nrns)%nat) as [_|Hn].
    + by rewrite Hpnr.
    + apply lookup_lt_Some in Hpnr. lia.
Qed.

Lemma SendPVAct_loop (nt : gmap string (NetLayer F)) (ly : PVLayer.t F) :
  Receivers_resolved nt ly →
  ∃ nt', SendPVAct nt ly = Some nt' ∧
         SendPV_inv nt ly (length (PVLayer.PVReceivers ly)) nt'.
Proof.
  intros Hres. unfold SendPVAct.
  apply (for_state_inv (SendPV_inv nt ly)).
  - intros r. split; [done|]. intros Hr.
    destruct (Hres r Hr) as (rly & Hrly & Hl). exists rly.
    split; [done|]. split; [done|]. simpl. intros Hin. by apply elem_of_nil in Hin.
  - intros k r nt1 Hr Hinv. unfold SendPVTo.
    assert (Hrin : r ∈ PVLayer.PVReceivers ly) by (by eapply list_elem_of_lookup_2).
    destruct (Hinv r) as [_ Hr1]. destruct (Hr1 Hrin) as (rly1 & Hrly1 & Hl1 & _).
    rewrite Hrly1.
    destruct (SendPVUnit_loop (PVLayer.Neurons ly) (ModLayer.ModNeurs rly1))
      as (mnrs' & Hrun & Hl' & Hsent); [lia|].
    rewrite Hrun. simpl. eexists. split; [done|].
    assert (Htk : take (S k) (PVLayer.PVReceivers ly)
                  = take k (PVLayer.PVReceivers ly) ++ [r]).
    { by apply take_S_r. }
    intros r'. rewrite Htk. destruct (Hinv r') as [Hout' Hin'].
    destruct (decide (r' = r)) as [->|Hne].
    + split.
      * intros Hnot. exfalso. apply Hnot. apply elem_of_app. right. by apply list_elem_of_singleton.
      * intros _. eexists. rewrite lookup_insert_eq. split; [done|].
        simpl. split; [lia|]. done.
    + rewrite lookup_insert_ne by done. split.
      * intros Hnot. apply Hout'. intros Hin. apply Hnot. apply elem_of_app. by left.
      * intros Hr'. destruct (Hin' Hr') as (rly' & E1 & E2 & E3).
        exists rly'. split; [done|]. split; [done|].
        intros Hin. apply E3. apply elem_of_app in Hin as [Hin|Hin]; [done|].
        apply list_elem_of_singleton in Hin. done.
Qed.

End pv_lemmas.

Section pv_thm.
Import leabra pvlv.
Context {F : Type} `{Float32 F}.

(** C9. In a cycle of the send quarter [CyclePost] gives every unit of every
    registered receiver layer, as [PVAct], the larger of [Act] and [Ext] of
    the source unit at the same index, and leaves the other layers as they
    are; in a cycle of another quarter it leaves the whole network as it
    is. *)
Theorem CyclePost_broadcast (nt : gmap string (NetLayer F)) (ly : PVLayer.t F)
  (ltime : Time.t) :
  (Time.Quarter ltime = PVLayer.SendPVQuarter ly →
   Receivers_resolved nt ly →
   ∃ nt', CyclePost nt ly ltime = Some nt' ∧
     (∀ r, r ∈ PVLayer.PVReceivers ly →
        ∃ rly', nt' !! r = Some (LMod rly') ∧
          length (ModLayer.ModNeurs rly') = length (PVLayer.Neurons ly) ∧
          ∀ (pi : nat) pnr, PVLayer.Neurons ly !! pi = Some pnr →
            ModNeuron.PVAct <$> ModLayer.ModNeurs rly' !! pi
              = Some (fmax (Neuron.Act pnr) (Neuron.Ext pnr))) ∧
     (∀ r, r ∉ PVLayer.PVReceivers ly → nt' !! r = nt !! r)) ∧
  (Time.Quarter ltime ≠ PVLayer.SendPVQuarter ly →
   CyclePost nt ly ltime = Some nt).
Proof.
  unfold CyclePost. split.
  - intros -> Hres. rewrite Z.eqb_refl.
    destruct (SendPVAct_loop nt ly Hres) as (nt' & Hrun & Hinv).
    exists nt'. split; [done|]. split.
    + intros r Hr. destruct (Hinv r) as [_ Hin].
      destruct (Hin Hr) as (rly' & E1 & E2 & E3). exists rly'.
      split; [done|]. split; [done|]. apply E3.
      by rewrite firstn_all.
    + intros r Hr. destruct (Hinv r) as [Hout _]. apply Hout.
      by rewrite firstn_all.
  - intros Hne. by destruct (Z.eqb_spec (Time.Quarter ltime) (PVLayer.SendPVQuarter ly)).
Qed.

End pv_thm.

(** ** The statements on the concrete inputs *)

Section pcore_runs.
Import leabra pcore.

Lemma Ex_pj_wf (cur : bool) (daR : DaReceptors) :
  Prjn_wf (Ex.pj cur) Ex.slay (Ex.rlay daR).
Proof.
  split; [done|]. split; [done|]. split; [|split].
  - intros [|[|si]] Hsi; simpl in Hsi; [| |lia].
    + exists 0, 2. repeat split; try done; unfold Go.len; simpl; lia.
    + exists 2, 1. repeat split; try done; unfold Go.len; simpl; lia.
  - intros [|[|si]] [|[|sj]] st_i nc_i st_j Hlt E1 E2 E3;
      simpl in *; simplify_eq; lia.
  - intros [|[|[|k]]] ri Hri; simpl in Hri; simplify_eq; by eexists.
Qed.

Lemma Ex_thal_in_range (daR : DaReceptors) : ActLrn_in_range (Ex.rlay daR) Ex.thal.
Proof.
  intros [|[|ni]] nrn Hn Hoff; simpl in Hn; simplify_eq; split; by eexists.
Qed.

(** The first synapse of the example under current-trial DA: the trace 1
    takes the contribution 1/2 and is halved by the decay. *)
Lemma DWt_trace_policy_witness :
  ∃ pj' trsy',
    DWt (Ex.pj true) Ex.slay (LMatrix (Ex.rlay D1R)) = Some pj' ∧
    MatrixPrjn.TrSyns pj' !! 0%nat = Some trsy' ∧
    TraceSyn.NTr trsy' == 1 # 2 ∧ TraceSyn.Tr trsy' == 3 # 4.
Proof.
  destruct (DWt_trace_policy (Ex.pj true) Ex.slay (Ex.rlay D1R) eq_refl
              (Ex_pj_wf true D1R)) as (pj' & Hpj' & Hsyn).
  destruct (Hsyn 0%nat (Ex.unit 1 0 1) 0 2 0 eq_refl eq_refl eq_refl)
    as (sy & trsy & ri & rn & sy' & trsy' & dwt & Hres); [lia|].
  cbv zeta in Hres.
  destruct Hres as (Hsy & Htrsy & Hri & Hrn & Hsy' & Htrsy' & HN & _ & _ & Hpol).
  simpl in Hsy, Htrsy, Hri, Htrsy', Hsy'. simplify_eq.
  vm_compute in Hrn. simplify_eq.
  exists pj', trsy'. split; [done|]. split; [done|].
  simpl in Hpol. destruct Hpol as [_ ->]. rewrite HN. split; reflexivity.
Defined.

(** The decay factor of the example: [ACh = 1/4] and [Decay = 2]. *)
Lemma DWt_decay_bounded_witness :
  achDecay (Ex.pj true) (1 # 4) = Qmin 1 ((1 # 4) * 2)%Q ∧
  ∀ tr : Q, (Qabs (DecayTrace (achDecay (Ex.pj true) (1 # 4)) tr) <= Qabs tr)%Q.
Proof.
  assert (H0 : (0 <= MatrixLayer.ACh (Ex.rlay D1R))%Q) by (vm_compute; discriminate).
  assert (H1 : (0 <= MatrixTraceParams.Decay (MatrixPrjn.Trace (Ex.pj true)))%Q)
    by (vm_compute; discriminate).
  destruct (DWt_decay_bounded (Ex.pj true) Ex.slay (Ex.rlay D1R) H0 H1)
    as (E & _ & _ & Hb & _).
  split; [exact E | exact Hb].
Defined.


(** A D1R and a D2R layer with gains 1 and raw [DA = 1/2]. *)
Lemma DAActLrn_DALrn_polarity_witness :
  ∃ ly1' ly2',
    DAActLrn Ex.mnet (Ex.rlay D1R) (Time.mk 0 0) = Some ly1' ∧
    DAActLrn Ex.mnet (Ex.rlay D2R) (Time.mk 0 0) = Some ly2' ∧
    MatrixLayer.DALrn ly1' == 1 # 2 ∧ MatrixLayer.DALrn ly2' == (- (1 # 2))%Q.
Proof.
  destruct DAActLrn_DALrn_polarity as [Hd _].
  assert (R1 : DAActLrn_runs Ex.mnet (Ex.rlay D1R) (Time.mk 0 0)) by (left; simpl; lia).
  assert (R2 : DAActLrn_runs Ex.mnet (Ex.rlay D2R) (Time.mk 0 0)) by (left; simpl; lia).
  destruct (Hd _ _ _ R1) as (ly1' & H1 & Hpos1 & _).
  destruct (Hd _ _ _ R2) as (ly2' & H2 & Hpos2 & _).
  exists ly1', ly2'. split; [done|]. split; [done|]. split.
  - rewrite Hpos1 by (vm_compute; reflexivity). reflexivity.
  - rewrite Hpos2 by (vm_compute; reflexivity). reflexivity.
Defined.

(** The example at cycle 10, where its integration window ends: the first
    unit has alpha-max 1/2 and its pool has gated. *)
Lemma DAActLrn_contrastive_ActLrn_witness :
  ∃ ly' nrn',
    DAActLrn Ex.mnet (Ex.rlay D1R) (Time.mk 10 0) = Some ly' ∧
    MatrixLayer.Neurons ly' !! 0%nat = Some nrn' ∧
    Neuron.ActLrn nrn' == 1 # 2.
Proof.
  destruct (DAActLrn_contrastive_ActLrn Ex.mnet (Ex.rlay D1R) (Time.mk 10 0))
    as [_ Hlate].
  destruct (Hlate Ex.thal) as (ly' & Hly' & Hunits);
    [simpl; lia | reflexivity | apply Ex_thal_in_range |].
  destruct (Hunits 0%nat (Ex.unit 1 0 (1 # 2)) eq_refl eq_refl)
    as (nrn' & a & tact & Hn' & Ha & Ht & HA).
  simpl in Ha. vm_compute in Ht. simplify_eq.
  exists ly', nrn'. split; [done|]. split; [done|].
  rewrite HA. reflexivity.
Defined.

End pcore_runs.

Section pbwm_runs.
Import leabra pbwm.

Lemma Ex_pnet_resolved (gs : GateState.t Q) :
  Gating_resolved (Ex.pnet gs) "PFCmntD" (Ex.deep gs).
Proof.
  split.
  - intros b pool decay. by eexists.
  - simpl. split; [lia|]. by eexists.
Qed.

(** The example pool just gated ([Cnt = 0]) in quarter 1: the second unit
    takes [Maint = 4/5 * 1/4] from the second unit of the super layer. *)
Lemma DeepMaint_units_witness :
  ∃ ly' pnr',
    DeepMaint (Ex.pnet (GateState.mk 0%Q true 0)) "PFCmntD"
      (Ex.deep (GateState.mk 0%Q true 0)) (Time.mk 0 1) = Some ly' ∧
    PFCDeepLayer.PFCNeurs ly' !! 1%nat = Some pnr' ∧
    PFCNeuron.Maint pnr' == 1 # 5 ∧ PFCNeuron.MaintGe pnr' == 1 # 5.
Proof.
  destruct (DeepMaint_units (Ex.pnet (GateState.mk 0%Q true 0)) "PFCmntD"
              (Ex.deep (GateState.mk 0%Q true 0)) (Time.mk 0 1)
              (LLeabra Ex.super) 1 2 1 2)
    as (ly' & Hly' & Hunits);
    [reflexivity | simpl; lia | reflexivity | reflexivity | reflexivity
    | reflexivity | reflexivity | lia | lia | lia
    | vm_compute; discriminate | vm_compute; discriminate
    | vm_compute; discriminate | vm_compute; discriminate | |].
  { intros [|[|ni]] nrn Hnrn Hoff; [| |done]; injection Hnrn as <-;
      (split; [by eexists|]); eexists; (split; [reflexivity|]);
      intros _; vm_compute; reflexivity. }
  destruct (Hunits 1%nat (Ex.unit 1 0 0) eq_refl eq_refl)
    as (pnr & pnr' & gs & Hpnr & Hpnr' & Hgs & _ & Hfirst & _ & Hge).
  vm_compute in Hgs. simplify_eq.
  destruct Hfirst as (snr & Hsnr & HM & _); [simpl; lia|].
  vm_compute in Hsnr. simplify_eq.
  specialize (Hge ltac:(simpl; lia)).
  exists ly', pnr'. split; [done|]. split; [done|].
  simpl in Hge. rewrite Hge, HM. split; reflexivity.
Defined.

(** The example pool at [Cnt = 3 = MaxMaint], evaluated without a gate
    event: the pass ends with [Cnt = -1]. *)
Lemma Gating_forced_clear_witness :
  ∃ nt' ly' gs',
    Gating (Ex.pnet (GateState.mk 0%Q true 3)) "PFCmntD" (Time.mk 0 0) = Some nt' ∧
    getPFC nt' "PFCmntD" = Some ly' ∧
    PFCDeepLayer.GateStates ly' !! 0%nat = Some gs' ∧
    GateState.Cnt gs' = -1.
Proof.
  destruct (Gating_forced_clear (Ex.pnet (GateState.mk 0%Q true 3)) "PFCmntD"
              (Ex.deep (GateState.mk 0%Q true 3)) (Time.mk 0 0) 0%nat
              (GateState.mk 0%Q true 3))
    as (nt' & ly' & gs' & Hrun & Hly' & Hgs' & _ & Hclear & _);
    [reflexivity | apply Ex_pnet_resolved | reflexivity | reflexivity
    | reflexivity | simpl; lia |].
  exists nt', ly', gs'. repeat (split; [done|]). by apply Hclear.
Defined.

Lemma Ex_onet_resolved (gs gsm : GateState.t Q) :
  Gating_resolved (Ex.onet gs gsm) "PFCoutD" (Ex.out_deep gs).
Proof.
  split.
  - intros b pool decay. by eexists.
  - simpl. intros _. split; [simpl; lia|]. vm_compute. split; [lia | by eexists].
Qed.

(** The example pool at [Cnt = 2]: the counter update of quarter 1 gives 3.
    And a gate event of the output layer "PFCoutD", which clears: its own
    pool goes from 5 to 0, and the pool of the maintenance layer "PFCmntD",
    whose [Now] is not set, from 2 to -1. *)
Lemma GateCnt_steps_witness :
  (∃ gs',
     PFCDeepLayer.GateStates
       (UpdtGateCnt (Ex.deep (GateState.mk 0%Q false 2)) (Time.mk 0 1)) !! 0%nat
       = Some gs' ∧
     GateState.Cnt gs' = 3) ∧
  (∃ nt' lo lm go gm,
     Gating (Ex.onet (GateState.mk 1%Q true 5) (GateState.mk 0%Q false 2))
       "PFCoutD" (Time.mk 0 0) = Some nt' ∧
     getPFC nt' "PFCoutD" = Some lo ∧ getPFC nt' "PFCmntD" = Some lm ∧
     PFCDeepLayer.GateStates lo !! 0%nat = Some go ∧
     PFCDeepLayer.GateStates lm !! 0%nat = Some gm ∧
     GateState.Cnt go = 0 ∧ GateState.Cnt gm = -1 ∧ GateState.Now gm = false).
Proof.
  destruct (@GateCnt_steps Q _ _) as (Hupd & _ & Hgate). split.
  - destruct (Hupd (Ex.deep (GateState.mk 0%Q false 2)) (Time.mk 0 1) 0%nat
                (GateState.mk 0%Q false 2) eq_refl eq_refl)
      as (gs' & Hgs' & _ & _ & Hinc & _).
    exists gs'. split; [done|]. rewrite Hinc; [done|].
    unfold Go.int_max. simpl. lia.
  - destruct (Hgate (Ex.onet (GateState.mk 1%Q true 5) (GateState.mk 0%Q false 2))
                "PFCoutD" (Ex.out_deep (GateState.mk 1%Q true 5)) (Time.mk 0 0)
                eq_refl (Ex_onet_resolved _ _))
      as (nt' & Hrun & (lo & Hlo & Hown) & Hoth).
    destruct (Hown 0%nat (GateState.mk 1%Q true 5) eq_refl)
      as (go & Hgo & _ & _ & _ & Hev).
    destruct (Hoth "PFCmntD"%string (Ex.deep (GateState.mk 0%Q false 2))
                ltac:(done) eq_refl) as (lm & Hlm & Hpools).
    destruct (Hpools 0%nat (GateState.mk 0%Q false 2) eq_refl)
      as (gm & Hgm & _ & Hnow & Hclr & _).
    exists nt', lo, lm, go, gm. repeat (split; [done|]).
    split; [exact (Hev eq_refl eq_refl)|]. split; [|exact Hnow].
    apply Hclr. split; [reflexivity|]. split; [reflexivity|].
    split; [reflexivity|]. split; [reflexivity|]. split; [simpl; lia|].
    eexists. split; [reflexivity|]. split; reflexivity.
Defined.

(** C4 as stated fails.  The example pool at [Cnt = 3 = MaxMaint], evaluated
    by a gating pass without a gate event ([Act = 0]), goes from 3 to -1:
    [Cnt] decreases while it is [>= 0] and nothing has reset it to 0.  And a
    counter update of a pool at the largest machine integer wraps to the
    smallest one. *)
Lemma GateCnt_monotone_counterexample :
  (fgt (GateState.Act (GateState.mk 0%Q true 3)) (of_int 0) = false ∧
   ∃ nt' ly' gs',
     Gating (Ex.pnet (GateState.mk 0%Q true 3)) "PFCmntD" (Time.mk 0 0) = Some nt' ∧
     getPFC nt' "PFCmntD" = Some ly' ∧
     PFCDeepLayer.GateStates ly' !! 0%nat = Some gs' ∧
     0 <= 3 ∧ GateState.Cnt gs' = -1 ∧ GateState.Cnt gs' < 3) ∧
  (∃ gs',
     PFCDeepLayer.GateStates
       (UpdtGateCnt (Ex.deep (GateState.mk 0%Q false Go.int_max)) (Time.mk 0 1))
       !! 0%nat = Some gs' ∧
     0 <= Go.int_max ∧ GateState.Cnt gs' = Go.int_min ∧
     GateState.Cnt gs' < Go.int_max).
Proof.
  split.
  - split; [reflexivity|].
    destruct (Gating (Ex.pnet (GateState.mk 0%Q true 3)) "PFCmntD" (Time.mk 0 0))
      as [nt'|] eqn:Hrun; [|by vm_compute in Hrun].
    destruct (getPFC nt' "PFCmntD") as [ly'|] eqn:Hly'.
    2:{ exfalso. revert Hly'. injection Hrun as <-. by vm_compute. }
    exists nt', ly'. injection Hrun as <-. vm_compute in Hly'. injection Hly' as <-.
    eexists. split; [done|]. split; [done|]. split; [reflexivity|].
    simpl. lia.
  - eexists. split; [reflexivity|].
    repeat split; vm_compute; first [reflexivity | discriminate].
Qed.

(** C8 at its failing input.  The maintenance layer "PFCmntD" stands alone
    in its network, so its super layer "PFCmnt" is absent.  A gate event of
    its pool makes [Gating] panic, in the call of [DecayStatePool] on the
    nil result of [SuperPFC]; on the same network [DeepMaint], which tests
    that result, returns and leaves the layer as it is. *)
Theorem Gating_super_absent_panics :
  Ex.pnet_alone (GateState.mk 1%Q true 3) !! SuperName "PFCmntD" = None ∧
  Gating (Ex.pnet_alone (GateState.mk 1%Q true 3)) "PFCmntD" (Time.mk 0 0) = None ∧
  DeepMaint (Ex.pnet_alone (GateState.mk 1%Q true 3)) "PFCmntD"
    (Ex.deep (GateState.mk 1%Q true 3)) (Time.mk 0 1)
    = Some (Ex.deep (GateState.mk 1%Q true 3)).
Proof. split; [reflexivity|]. split; reflexivity. Qed.

End pbwm_runs.

Section pvlv_runs.
Import leabra pvlv.

Lemma Ex_vnet_resolved : Receivers_resolved Ex.vnet Ex.pv.
Proof.
  intros r Hr. apply list_elem_of_singleton in Hr as ->.
  eexists. split; [reflexivity|]. reflexivity.
Qed.

(** The example in quarter 3, its send quarter: the receiver's first unit
    gets [max(1/2, 3/4)]. *)
Lemma CyclePost_broadcast_witness :
  ∃ nt' rly',
    CyclePost Ex.vnet Ex.pv (Time.mk 0 3) = Some nt' ∧
    nt' !! "VSPatch"%string = Some (LMod rly') ∧
    ModNeuron.PVAct <$> ModLayer.ModNeurs rly' !! 0%nat = Some (Qmax (1 # 2) (3 # 4)).
Proof.
  destruct (CyclePost_broadcast Ex.vnet Ex.pv (Time.mk 0 3)) as [Hsend _].
  destruct (Hsend eq_refl Ex_vnet_resolved) as (nt' & Hrun & Hrcv & _).
  destruct (Hrcv "VSPatch"%string) as (rly' & Hr & _ & Hunits).
  { by apply list_elem_of_singleton. }
  exists nt', rly'. split; [done|]. split; [done|].
  exact (Hunits 0%nat _ eq_refl).
Defined.

End pvlv_runs.

Section scenarios.
Import leabra.

(** The scenario of section 8 of the specification, with [MaxMaint = 3]: the
    gate event gives [Cnt = 0]; the next eligible quarter gives 1 and takes
    the snapshot [Maint = 4/5 * 1/2]; two more give 2 and 3; the gating
    evaluation without a gate event forces -1; and the eligible quarter
    after it gives -2 and zeroes [Maint] and [MaintGe]. *)
Example gating_scenario :
  Run.scenario =
    Some [(0, 1 # 3, 1 # 3); (1, 2 # 5, 2 # 5); (2, 2 # 5, 1 # 5);
          (3, 2 # 5, 1 # 5); (-1, 2 # 5, 1 # 5); (-2, 0%Q, 0%Q)].
Proof. vm_compute. reflexivity. Qed.

(** The two temporal policies leave different traces after one trial with
    activity and dopamine: 3/4 under current-trial DA, 1 under delayed DA. *)
Example trace_policies_differ :
  (pj' ← pcore.DWt (Ex.pj true) Ex.slay (pcore.LMatrix (Ex.rlay pcore.D1R));
   trsy ← pcore.MatrixPrjn.TrSyns pj' !! 0%nat;
   Some (Qred (pcore.TraceSyn.Tr trsy))) = Some (3 # 4) ∧
  (pj' ← pcore.DWt (Ex.pj false) Ex.slay (pcore.LMatrix (Ex.rlay pcore.D1R));
   trsy ← pcore.MatrixPrjn.TrSyns pj' !! 0%nat;
   Some (Qred (pcore.TraceSyn.Tr trsy))) = Some 1%Q.
Proof. split; vm_compute; reflexivity. Qed.

End scenarios.

(** * Further properties of the three files *)

(** ** [MatrixParams.LrnFactor] over the rationals *)

Section LrnFactor_Q.
Import leabra pcore.
Local Open Scope Q_scope.

Lemma Qsq_nonneg (a : Q) : 0 <= a * a.
Proof. nra. Qed.

(** X1. For an activation between 0 and 1 the derivative form of
    [LrnFactor], [2 * act * (1 - act)], lies between 0 and 1/2, takes the
    value 1/2 at 1/2, and vanishes exactly at 0 and 1; without [Deriv] the
    factor is the activation itself. *)
Theorem LrnFactor_range (mp : MatrixParams.t Q) (act : Q) :
  0 <= act → act <= 1 →
  if MatrixParams.Deriv mp then
    0 <= MatrixParams.LrnFactor mp act ∧
    MatrixParams.LrnFactor mp act <= 1 # 2 ∧
    MatrixParams.LrnFactor mp (1 # 2) == 1 # 2 ∧
    (MatrixParams.LrnFactor mp act == 0 ↔ act == 0 ∨ act == 1)
  else MatrixParams.LrnFactor mp act = act.
Proof.
  intros H0 H1. unfold MatrixParams.LrnFactor.
  destruct (MatrixParams.Deriv mp); simpl; [|reflexivity].
  change (inject_Z 2) with 2. change (inject_Z 1) with 1.
  repeat split.
  - nra.
  - pose proof (Qsq_nonneg (act - (1 # 2))) as Hs.
    apply Qle_minus_iff.
    setoid_replace ((1 # 2) + - (2 * act * (1 - act)))
      with (2 * ((act - (1 # 2)) * (act - (1 # 2)))) using relation Qeq by ring.
    lra.
  - intros He.
    assert (Hp : act * (1 - act) == 0) by lra.
    apply Qmult_integral in Hp as [Hp|Hp]; [by left|right; lra].
  - intros [He|He]; rewrite He; reflexivity.
Qed.

Lemma LrnFactor_range_witness :
  0 <= MatrixParams.LrnFactor (MatrixLayer.Matrix (Ex.rlay D1R)) (1 # 4) ∧
  MatrixParams.LrnFactor (MatrixLayer.Matrix (Ex.rlay D1R)) (1 # 4) <= 1 # 2.
Proof.
  pose proof (LrnFactor_range (MatrixLayer.Matrix (Ex.rlay D1R)) (1 # 4)) as H.
  simpl in H. destruct H as (Ha & Hb & _); [done|done|]. split; assumption.
Defined.

End LrnFactor_Q.

(** ** [DAActLrn]: idempotence, the thalamic layer, the frame *)

Section DAActLrn_more.
Import leabra pcore.
Context {F : Type} `{Float32 F}.

Lemma for_range_fixed {A} (f g : Z → A → option A) (l k : list A) :
  Go.for_range f l = Some k →
  (∀ (i : nat) x y, l !! i = Some x → f (Z.of_nat i) x = Some y →
     g (Z.of_nat i) y = Some y) →
  Go.for_range g k = Some k.
Proof.
  unfold Go.for_range. intros Hf Hfg.
  apply mapM_Some. apply mapM_Some in Hf.
  apply Forall2_same_length_lookup. split.
  { by rewrite length_imap. }
  intros i [j y'] y Hi Hy. rewrite list_lookup_imap, Hy in Hi. simplify_eq/=.
  destruct (Forall2_lookup_r _ _ _ _ _ Hf Hy) as ([j x] & Hx & Hfx).
  rewrite list_lookup_imap in Hx.
  destruct (l !! i) as [x'|] eqn:Hl; simplify_eq/=.
  by eapply Hfg.
Qed.

Lemma set_DALrn_id (ly : MatrixLayer.t F) :
  MatrixLayer.set_DALrn (MatrixLayer.DALrn ly) ly = ly.
Proof. by destruct ly. Qed.

Lemma ActLrnUnit_fixed (ly ly' : MatrixLayer.t F) tly ni nrn nrn' :
  Layer.AlphaMaxs (MatrixLayer.Layer ly') = Layer.AlphaMaxs (MatrixLayer.Layer ly) →
  MatrixLayer.Matrix ly' = MatrixLayer.Matrix ly →
  ActLrnUnit ly tly ni nrn = Some nrn' → ActLrnUnit ly' tly ni nrn' = Some nrn'.
Proof.
  unfold ActLrnUnit. intros -> ->.
  destruct (Neuron.Off nrn) eqn:Hoff.
  - intros [= <-]. by rewrite Hoff.
  - destruct (Go.index _ ni) as [a|]; [|done]. simpl.
    destruct (Go.index _ (Neuron.SubPool nrn - 1)) as [tact|] eqn:Ht; [|done]. simpl.
    destruct (fgt tact _) eqn:Hgt; intros [= <-]; simpl; rewrite Hoff; simpl;
      rewrite Ht; simpl; rewrite Hgt; by destruct nrn.
Qed.

(** X2. [DAActLrn] is idempotent: called again on the layer it has returned,
    with the same network and time, it returns that layer. *)
Theorem DAActLrn_idempotent (nt : gmap string (NetLayer F))
  (ly ly' : MatrixLayer.t F) (ltime : Time.t) :
  DAActLrn nt ly ltime = Some ly' → DAActLrn nt ly' ltime = Some ly'.
Proof.
  unfold DAActLrn. cbv zeta.
  assert (Hd : ∀ x ns, DALrnFmDA (MatrixLayer.set_Neurons ns (MatrixLayer.set_DALrn x ly))
                 = DALrnFmDA ly) by done.
  assert (Hd0 : ∀ x, DALrnFmDA (MatrixLayer.set_DALrn x ly) = DALrnFmDA ly) by done.
  change (Layer.AlphaMaxCyc (MatrixLayer.Layer (MatrixLayer.set_DALrn (DALrnFmDA ly) ly)))
    with (Layer.AlphaMaxCyc (MatrixLayer.Layer ly)).
  destruct (Time.Cycle ltime <? Layer.AlphaMaxCyc (MatrixLayer.Layer ly)) eqn:Hc.
  - intros [= <-]. rewrite Hd0. simpl. rewrite Hc. done.
  - unfold ThalLayer. simpl.
    destruct (nt !! MatrixParams.ThalLay (MatrixLayer.Matrix ly)) as [[?|tly|?]|] eqn:Hn;
      simpl; try done.
    + destruct (Go.for_range _ _) as [nrns|] eqn:Hr; [|done]. simpl.
      intros [= <-]. rewrite Hd. simpl. rewrite Hc, Hn. simpl.
      erewrite for_range_fixed; [done|exact Hr|].
      intros i x y _ Hx. eapply ActLrnUnit_fixed; [| |exact Hx]; done.
    + intros [= <-]. rewrite Hd0. simpl. by rewrite Hc, Hn.
Qed.

(** X3. From cycle [AlphaMaxCyc] on: when no layer has the name [ThalLay],
    [DAActLrn] stores [DALrn] and returns with the units as they are; when
    the name is that of a layer that is no VThalLayer, it panics; and when
    it is that of a VThalLayer, it returns exactly when the index
    expressions of the unit loop are in range. *)
Theorem DAActLrn_thal_lookup (nt : gmap string (NetLayer F))
  (ly : MatrixLayer.t F) (ltime : Time.t) :
  Layer.AlphaMaxCyc (MatrixLayer.Layer ly) <= Time.Cycle ltime →
  match nt !! MatrixParams.ThalLay (MatrixLayer.Matrix ly) with
  | None =>
      DAActLrn nt ly ltime = Some (MatrixLayer.set_DALrn (DALrnFmDA ly) ly)
  | Some (LVThal tly) =>
      is_Some (DAActLrn nt ly ltime) ↔ ActLrn_in_range ly tly
  | Some _ => DAActLrn nt ly ltime = None
  end.
Proof.
  intros Hc. apply Z.ltb_ge in Hc.
  destruct (nt !! MatrixParams.ThalLay (MatrixLayer.Matrix ly))
    as [[?|tly|?]|] eqn:Hn.
  - unfold DAActLrn, ThalLayer. cbv zeta. simpl. by rewrite Hc, Hn.
  - split.
    + intros [ly' Hly'] ni nrn Hni Hoff.
      apply Z.ltb_ge in Hc.
      pose proof (DAActLrn_units nt ly ltime tly ly' Hc Hn Hly') as Hr.
      destruct (for_range_lookup _ _ _ Hr ni nrn Hni) as (y & _ & Hy).
      unfold ActLrnUnit in Hy. rewrite Hoff in Hy.
      rewrite index_of_nat in Hy.
      destruct (Layer.AlphaMaxs (MatrixLayer.Layer ly) !! ni); [|done].
      simpl in Hy.
      destruct (Go.index _ (Neuron.SubPool nrn - 1)); [|done]. eauto.
    + intros Hr. apply DAActLrn_total. right. right. eauto.
  - unfold DAActLrn, ThalLayer. cbv zeta. simpl. by rewrite Hc, Hn.
  - unfold DAActLrn, ThalLayer. cbv zeta. simpl. by rewrite Hc, Hn.
Qed.

(** X4. What [DAActLrn] leaves alone: [DA], [ACh], the receptor, the
    parameters, [AlphaMaxs] and [AlphaMaxCyc], the number of units, and of
    every unit [Off], [SubPool], [Act] and [Ext]; a unit that is off is not
    changed at all. *)
Theorem DAActLrn_frame (nt : gmap string (NetLayer F))
  (ly ly' : MatrixLayer.t F) (ltime : Time.t) :
  DAActLrn nt ly ltime = Some ly' →
  MatrixLayer.DA ly' = MatrixLayer.DA ly ∧
  MatrixLayer.ACh ly' = MatrixLayer.ACh ly ∧
  MatrixLayer.DaR ly' = MatrixLayer.DaR ly ∧
  MatrixLayer.Matrix ly' = MatrixLayer.Matrix ly ∧
  Layer.AlphaMaxs (MatrixLayer.Layer ly') = Layer.AlphaMaxs (MatrixLayer.Layer ly) ∧
  Layer.AlphaMaxCyc (MatrixLayer.Layer ly')
    = Layer.AlphaMaxCyc (MatrixLayer.Layer ly) ∧
  length (MatrixLayer.Neurons ly') = length (MatrixLayer.Neurons ly) ∧
  ∀ (ni : nat) (nrn : Neuron.t F), MatrixLayer.Neurons ly !! ni = Some nrn →
    ∃ nrn', MatrixLayer.Neurons ly' !! ni = Some nrn' ∧
      Neuron.Off nrn' = Neuron.Off nrn ∧
      Neuron.SubPool nrn' = Neuron.SubPool nrn ∧
      Neuron.Act nrn' = Neuron.Act nrn ∧
      Neuron.Ext nrn' = Neuron.Ext nrn ∧
      (Neuron.Off nrn = true → nrn' = nrn).
Proof.
  unfold DAActLrn. cbv zeta.
  change (Layer.AlphaMaxCyc (MatrixLayer.Layer (MatrixLayer.set_DALrn (DALrnFmDA ly) ly)))
    with (Layer.AlphaMaxCyc (MatrixLayer.Layer ly)).
  assert (Hsame : ∀ x, let ly' := MatrixLayer.set_DALrn x ly in
    MatrixLayer.DA ly' = MatrixLayer.DA ly ∧
    MatrixLayer.ACh ly' = MatrixLayer.ACh ly ∧
    MatrixLayer.DaR ly' = MatrixLayer.DaR ly ∧
    MatrixLayer.Matrix ly' = MatrixLayer.Matrix ly ∧
    Layer.AlphaMaxs (MatrixLayer.Layer ly') = Layer.AlphaMaxs (MatrixLayer.Layer ly) ∧
    Layer.AlphaMaxCyc (MatrixLayer.Layer ly')
      = Layer.AlphaMaxCyc (MatrixLayer.Layer ly) ∧
    length (MatrixLayer.Neurons ly') = length (MatrixLayer.Neurons ly) ∧
    ∀ (ni : nat) (nrn : Neuron.t F), MatrixLayer.Neurons ly !! ni = Some nrn →
      ∃ nrn', MatrixLayer.Neurons ly' !! ni = Some nrn' ∧
        Neuron.Off nrn' = Neuron.Off nrn ∧
        Neuron.SubPool nrn' = Neuron.SubPool nrn ∧
        Neuron.Act nrn' = Neuron.Act nrn ∧
        Neuron.Ext nrn' = Neuron.Ext nrn ∧
        (Neuron.Off nrn = true → nrn' = nrn)).
  { intros x. simpl. repeat split. intros ni nrn Hni. exists nrn. done. }
  destruct (Time.Cycle ltime <? Layer.AlphaMaxCyc (MatrixLayer.Layer ly)).
  { intros [= <-]. apply Hsame. }
  unfold ThalLayer. simpl.
  destruct (nt !! MatrixParams.ThalLay (MatrixLayer.Matrix ly)) as [[?|tly|?]|];
    simpl; try done.
  2:{ intros [= <-]. apply Hsame. }
  destruct (Go.for_range _ _) as [nrns|] eqn:Hr; [|done]. simpl.
  intros [= <-]. simpl. repeat split.
  { by apply for_range_length in Hr. }
  intros ni nrn Hni.
  destruct (for_range_lookup _ _ _ Hr ni nrn Hni) as (y & Hy & Hb).
  exists y. split; [done|].
  unfold ActLrnUnit in Hb.
  destruct (Neuron.Off nrn) eqn:Hoff.
  { by simplify_eq. }
  destruct (Go.index _ (Z.of_nat ni)); [|done]. simpl in Hb.
  destruct (Go.index _ (Neuron.SubPool nrn - 1)); [|done]. simpl in Hb.
  destruct (fgt _ _); simplify_eq; done.
Qed.

End DAActLrn_more.

(** Runs of [DAActLrn] on the example network. *)

Section more_runs.
Import leabra pcore.
Lemma DAActLrn_idempotent_witness :
  ∃ ly', DAActLrn Ex.mnet (Ex.rlay D1R) (Time.mk 10 0) = Some ly' ∧
         DAActLrn Ex.mnet ly' (Time.mk 10 0) = Some ly'.
Proof.
  eexists. split; [reflexivity|].
  apply (DAActLrn_idempotent Ex.mnet (Ex.rlay D1R)). reflexivity.
Defined.

Lemma DAActLrn_thal_lookup_witness :
  DAActLrn ∅ (Ex.rlay D2R) (Time.mk 10 0)
    = Some (MatrixLayer.set_DALrn (DALrnFmDA (Ex.rlay D2R)) (Ex.rlay D2R)).
Proof.
  exact (DAActLrn_thal_lookup ∅ (Ex.rlay D2R) (Time.mk 10 0) ltac:(simpl; lia)).
Defined.

Lemma DAActLrn_frame_witness :
  ∃ ly', DAActLrn Ex.mnet (Ex.rlay D1R) (Time.mk 10 0) = Some ly' ∧
         MatrixLayer.ACh ly' = MatrixLayer.ACh (Ex.rlay D1R) ∧
         length (MatrixLayer.Neurons ly') = 2%nat.
Proof.
  destruct (DAActLrn Ex.mnet (Ex.rlay D1R) (Time.mk 10 0)) as [ly'|] eqn:E;
    [|by vm_compute in E].
  exists ly'. split; [done|].
  destruct (DAActLrn_frame _ _ _ _ E) as (_ & Ha & _ & _ & _ & _ & Hl & _).
  split; [exact Ha|exact Hl].
Defined.
End more_runs.

(** ** [DWt]: the synapses of the senders *)

Section DWt_more.
Import leabra pcore.
Context {F : Type} `{Float32 F} `{LeabraExt F}.

Lemma ApplyDWt_Wt lp (trsy : TraceSyn.t F) dwt sy :
  Synapse.Wt (ApplyDWt lp trsy dwt sy) = Synapse.Wt sy.
Proof.
  unfold ApplyDWt.
  destruct (LearnSynParams.NormOn lp); [destruct (NormFmAbsDWt _ _)|];
    (destruct (LearnSynParams.MomentumOn lp); [destruct (MomentFmDWt _ _)|]);
    done.
Qed.

(** The synapses of the senders after a learning pass. *)
Lemma DWt_syn (pj : MatrixPrjn.t F) slay rlay :
  LearnSynParams.Learn (MatrixPrjn.Learn pj) = true →
  Prjn_wf pj slay rlay →
  ∃ pj', DWt pj slay (LMatrix rlay) = Some pj' ∧
    ∀ k sn, SynOf pj slay k sn →
      ∃ sy trsy ri rn sy',
        MatrixPrjn.Syns pj !! k = Some sy ∧
        MatrixPrjn.TrSyns pj !! k = Some trsy ∧
        MatrixPrjn.SConIdx pj !! k = Some ri ∧
        Go.index (MatrixLayer.Neurons rlay) ri = Some rn ∧
        let tr := TraceDWt (MatrixTraceParams.CurTrlDA (MatrixPrjn.Trace pj))
                    (MatrixLayer.DA rlay) (MatrixLayer.DALrn rlay)
                    (achDecay pj (MatrixLayer.ACh rlay))
                    (Neuron.ActLrn rn) (Neuron.ActLrn sn) trsy in
        MatrixPrjn.TrSyns pj' !! k = Some (fst tr) ∧
        MatrixPrjn.Syns pj' !! k = Some sy' ∧
        Synapse.Wt sy' = Synapse.Wt sy ∧
        (LearnSynParams.NormOn (MatrixPrjn.Learn pj) = false →
         sy' = ApplyDWt (MatrixPrjn.Learn pj) (fst tr) (snd tr) sy).
Proof.
  intros HL Hwf.
  destruct (DWt_synapses pj slay rlay HL Hwf) as (pj' & Hrun & _ & _ & _ & _ & Hdone).
  exists pj'. split; [done|].
  intros k sn (si & st & nc & ci & Hsn & Hst & Hnc & Hci & ->).
  assert (Hsi : (si < length slay)%nat) by (by eapply lookup_lt_Some).
  destruct (Hdone si sn st nc ci Hsi Hsn Hst Hnc Hci)
    as (sy & trsy & ri & rn & sy' & H1 & H2 & H3 & H4 & H5).
  exists sy, trsy, ri, rn, sy'.
  cbv zeta in H5. unfold SynDWt in H5.
  destruct (TraceDWt _ _ _ _ _ _ _) as [trsy' dwt] eqn:Htr.
  simpl in H5. destruct H5 as (R1 & R2 & R3 & _ & _ & R6).
  repeat (split; [done|]). simpl.
  split; [by rewrite R3, ApplyDWt_Wt|done].
Qed.

End DWt_more.

(** ** [DWt] after [InitActs], [InitWts] and [SetACh], over the rationals *)

Section DWt_Q.
Import leabra pcore.
Local Open Scope Q_scope.

Lemma DecayTrace_none (a tr : Q) : a == 0 → DecayTrace a tr == tr.
Proof. intros Ha. unfold DecayTrace. simpl. rewrite Ha. ring. Qed.

Lemma DecayTrace_full (a tr : Q) : a == 1 → DecayTrace a tr == 0.
Proof. intros Ha. unfold DecayTrace. simpl. rewrite Ha. ring. Qed.

Lemma achDecay_none (pj : MatrixPrjn.t Q) : achDecay pj (of_int 0) == 0.
Proof.
  unfold achDecay. simpl.
  assert (E : inject_Z 0 * MatrixTraceParams.Decay (MatrixPrjn.Trace pj) == 0) by ring.
  rewrite Q.min_r; [done|]. rewrite E. done.
Qed.

Lemma achDecay_full (pj : MatrixPrjn.t Q) (ach : Q) :
  1 <= ach * MatrixTraceParams.Decay (MatrixPrjn.Trace pj) → achDecay pj ach == 1.
Proof. intros Ha. unfold achDecay. simpl. by rewrite Q.min_l. Qed.

(** X5. After [InitActs] of the receiving layer (so that [DA], [DALrn] and
    [ACh] are 0), a learning pass without normalization and momentum leaves
    the weight and the accumulated [DWt] of every synapse as they are, and
    adds the contribution of the trial to the trace without decay, under
    both policies. *)
Theorem InitActs_DWt_inert (LayerInitActs : Layer.t Q → Layer.t Q)
  (pj : MatrixPrjn.t Q) (slay : list (Neuron.t Q)) (rlay : MatrixLayer.t Q) :
  let rlay0 := InitActs LayerInitActs rlay in
  LearnSynParams.Learn (MatrixPrjn.Learn pj) = true →
  LearnSynParams.NormOn (MatrixPrjn.Learn pj) = false →
  LearnSynParams.MomentumOn (MatrixPrjn.Learn pj) = false →
  Prjn_wf pj slay rlay0 →
  ∃ pj', DWt pj slay (LMatrix rlay0) = Some pj' ∧
    ∀ k sn, SynOf pj slay k sn →
      ∃ sy trsy ri rn sy' trsy',
        MatrixPrjn.Syns pj !! k = Some sy ∧
        MatrixPrjn.TrSyns pj !! k = Some trsy ∧
        MatrixPrjn.SConIdx pj !! k = Some ri ∧
        Go.index (MatrixLayer.Neurons rlay0) ri = Some rn ∧
        MatrixPrjn.Syns pj' !! k = Some sy' ∧
        MatrixPrjn.TrSyns pj' !! k = Some trsy' ∧
        Synapse.Wt sy' = Synapse.Wt sy ∧
        Synapse.DWt sy' == Synapse.DWt sy ∧
        TraceSyn.Tr trsy' == TraceSyn.Tr trsy + Neuron.ActLrn rn * Neuron.ActLrn sn.
Proof.
  intros rlay0 HL HN HM Hwf.
  destruct (DWt_syn pj slay rlay0 HL Hwf) as (pj' & Hrun & Hsyn).
  exists pj'. split; [done|]. intros k sn Hk.
  destruct (Hsyn k sn Hk) as (sy & trsy & ri & rn & sy' & H1 & H2 & H3 & H4 & H5).
  cbv zeta in H5. destruct H5 as (R1 & R2 & R3 & R4).
  specialize (R4 HN). rewrite ApplyDWt_plain in R4 by done.
  exists sy, trsy, ri, rn, sy'. eexists.
  repeat (split; [done|]).
  pose proof (achDecay_none pj) as Hd.
  change (MatrixLayer.ACh rlay0) with (of_int 0 : Q).
  change (MatrixLayer.DA rlay0) with (of_int 0 : Q) in R4 |- *.
  split.
  - rewrite R4.
    destruct (MatrixTraceParams.CurTrlDA (MatrixPrjn.Trace pj));
      rewrite ?TraceDWt_cur, ?TraceDWt_delayed; simpl; ring.
  - destruct (MatrixTraceParams.CurTrlDA (MatrixPrjn.Trace pj));
      rewrite ?TraceDWt_cur, ?TraceDWt_delayed; cbn [fst TraceSyn.Tr];
      rewrite DecayTrace_none by done; simpl; ring.
Qed.

Lemma ClearTrace_wf (pj : MatrixPrjn.t Q) slay rlay :
  Prjn_wf pj slay rlay → Prjn_wf (ClearTrace pj) slay rlay.
Proof.
  intros (H1 & H2 & H3). split; [|split; done].
  simpl. by rewrite length_fmap.
Qed.

Lemma ClearTrace_lookup (pj : MatrixPrjn.t Q) (k : nat) trsy :
  MatrixPrjn.TrSyns (ClearTrace pj) !! k = Some trsy →
  trsy = TraceSyn.mk (of_int 0) (of_int 0).
Proof.
  simpl. rewrite list_lookup_fmap.
  destruct (MatrixPrjn.TrSyns pj !! k); simpl; congruence.
Qed.

(** X6. After [InitWts] (so that the traces are cleared, whatever
    [Prjn.InitWts] does), a learning pass without normalization and momentum
    depends on the activity of this trial only: [NTr] is the contribution
    [ntr]; under current-trial DA the trace is [ntr] decayed and [DWt] grows
    by [Lrate * DALrn * ntr] when [DA] is not 0; under delayed DA the trace
    is [ntr] and [DWt] is not changed. *)
Theorem InitWts_DWt_fresh (PrjnInitWts : MatrixPrjn.t Q → MatrixPrjn.t Q)
  (pj0 : MatrixPrjn.t Q) (slay : list (Neuron.t Q)) (rlay : MatrixLayer.t Q) :
  let pj := InitWts PrjnInitWts pj0 in
  LearnSynParams.Learn (MatrixPrjn.Learn pj) = true →
  LearnSynParams.NormOn (MatrixPrjn.Learn pj) = false →
  LearnSynParams.MomentumOn (MatrixPrjn.Learn pj) = false →
  Prjn_wf (PrjnInitWts pj0) slay rlay →
  ∃ pj', DWt pj slay (LMatrix rlay) = Some pj' ∧
    ∀ k sn, SynOf pj slay k sn →
      ∃ sy ri rn sy' trsy',
        MatrixPrjn.Syns (PrjnInitWts pj0) !! k = Some sy ∧
        MatrixPrjn.SConIdx pj !! k = Some ri ∧
        Go.index (MatrixLayer.Neurons rlay) ri = Some rn ∧
        MatrixPrjn.Syns pj' !! k = Some sy' ∧
        MatrixPrjn.TrSyns pj' !! k = Some trsy' ∧
        let ntr := Neuron.ActLrn rn * Neuron.ActLrn sn in
        TraceSyn.NTr trsy' = ntr ∧
        if MatrixTraceParams.CurTrlDA (MatrixPrjn.Trace pj) then
          TraceSyn.Tr trsy' == ntr - achDecay pj (MatrixLayer.ACh rlay) * ntr ∧
          Synapse.DWt sy' ==
            Synapse.DWt sy
            + LearnSynParams.Lrate (MatrixPrjn.Learn pj)
              * (if fne (MatrixLayer.DA rlay) 0
                 then MatrixLayer.DALrn rlay * ntr else 0)
        else
          TraceSyn.Tr trsy' == ntr ∧ Synapse.DWt sy' == Synapse.DWt sy.
Proof.
  intros pj HL HN HM Hwf. apply ClearTrace_wf in Hwf.
  destruct (DWt_syn pj slay rlay HL Hwf) as (pj' & Hrun & Hsyn).
  exists pj'. split; [done|]. intros k sn Hk.
  destruct (Hsyn k sn Hk) as (sy & trsy & ri & rn & sy' & H1 & H2 & H3 & H4 & H5).
  cbv zeta in H5. destruct H5 as (R1 & R2 & R3 & R4).
  specialize (R4 HN). rewrite ApplyDWt_plain in R4 by done.
  apply ClearTrace_lookup in H2. subst trsy.
  exists sy, ri, rn, sy'. eexists.
  repeat (split; [done|]). cbv zeta.
  destruct (MatrixTraceParams.CurTrlDA (MatrixPrjn.Trace pj)) eqn:Hcur.
  - rewrite TraceDWt_cur in R4 |- *. cbn [fst snd TraceSyn.Tr TraceSyn.NTr] in R4 |- *.
    split.
    + unfold DecayTrace. simpl. ring.
    + rewrite R4. simpl.
      change (inject_Z 0) with 0; change (inject_Z 1) with 1.
      destruct (Qeq_bool (MatrixLayer.DA rlay) 0); simpl; ring.
  - rewrite TraceDWt_delayed in R4 |- *. cbn [fst snd TraceSyn.Tr TraceSyn.NTr] in R4 |- *.
    split.
    + unfold DecayTrace. simpl. ring.
    + rewrite R4. simpl.
      change (inject_Z 0) with 0; change (inject_Z 1) with 1.
      destruct (Qeq_bool (MatrixLayer.DA rlay) 0); simpl; ring.
Qed.

(** X7. [GetACh] returns what [SetACh] has set, and after [SetACh] of a
    value with [ACh * Decay >= 1] a learning pass resets the traces: under
    current-trial DA every trace ends as 0, under delayed DA as the
    contribution of this trial. *)
Theorem SetACh_DWt_reset (pj : MatrixPrjn.t Q) (slay : list (Neuron.t Q))
  (rlay : MatrixLayer.t Q) (ach : Q) :
  1 <= ach * MatrixTraceParams.Decay (MatrixPrjn.Trace pj) →
  LearnSynParams.Learn (MatrixPrjn.Learn pj) = true →
  Prjn_wf pj slay rlay →
  GetACh (SetACh rlay ach) = ach ∧
  ∃ pj', DWt pj slay (LMatrix (SetACh rlay ach)) = Some pj' ∧
    ∀ k sn, SynOf pj slay k sn →
      ∃ ri rn trsy',
        MatrixPrjn.SConIdx pj !! k = Some ri ∧
        Go.index (MatrixLayer.Neurons rlay) ri = Some rn ∧
        MatrixPrjn.TrSyns pj' !! k = Some trsy' ∧
        TraceSyn.NTr trsy' = Neuron.ActLrn rn * Neuron.ActLrn sn ∧
        TraceSyn.Tr trsy' ==
          if MatrixTraceParams.CurTrlDA (MatrixPrjn.Trace pj) then 0
          else Neuron.ActLrn rn * Neuron.ActLrn sn.
Proof.
  intros Hach HL Hwf. split; [done|].
  destruct (DWt_syn pj slay (SetACh rlay ach) HL Hwf) as (pj' & Hrun & Hsyn).
  exists pj'. split; [done|]. intros k sn Hk.
  destruct (Hsyn k sn Hk) as (sy & trsy & ri & rn & sy' & H1 & H2 & H3 & H4 & H5).
  cbv zeta in H5. destruct H5 as (R1 & _).
  exists ri, rn. eexists. repeat (split; [done|]).
  pose proof (achDecay_full pj ach Hach) as Hd.
  change (MatrixLayer.ACh (SetACh rlay ach)) with ach.
  destruct (MatrixTraceParams.CurTrlDA (MatrixPrjn.Trace pj));
    rewrite ?TraceDWt_cur, ?TraceDWt_delayed; cbn [fst TraceSyn.Tr TraceSyn.NTr];
    rewrite DecayTrace_full by done; simpl; ring.
Qed.

(** X8. With the parameters of [MatrixParams.Defaults] the learning
    dopamine that [DAActLrn] stores is the raw dopamine for D1R and its
    negation for D2R.  [Defaults] keeps a name of the thalamic layer that is
    not empty and sets "VThal" for an empty one, and applying it twice is the
    same as once. *)
Theorem Defaults_DALrn (nt : gmap string (NetLayer Q)) (ly ly' : MatrixLayer.t Q)
  (ltime : Time.t) :
  let mp := MatrixParams.Defaults (MatrixLayer.Matrix ly) in
  DAActLrn nt (MatrixLayer.mk (MatrixLayer.Layer ly) (MatrixLayer.DaR ly) mp
                 (MatrixLayer.DALrn ly) (MatrixLayer.ACh ly)) ltime = Some ly' →
  MatrixLayer.DALrn ly' ==
    match MatrixLayer.DaR ly with
    | D1R => MatrixLayer.DA ly
    | D2R => - MatrixLayer.DA ly
    end ∧
  MatrixParams.ThalLay mp =
    (if String.eqb (MatrixParams.ThalLay (MatrixLayer.Matrix ly)) EmptyString
     then "VThal"%string else MatrixParams.ThalLay (MatrixLayer.Matrix ly)) ∧
  MatrixParams.Defaults mp = mp.
Proof.
  intros mp Hrun. apply DAActLrn_DALrn in Hrun. rewrite Hrun.
  split; [|split].
  - unfold DALrnFmDA. simpl.
    destruct (negb (Qle_bool _ _)), (MatrixLayer.DaR ly); simpl;
      unfold MatrixLayer.DA, inject_Z; simpl; ring.
  - done.
  - unfold mp, MatrixParams.Defaults. simpl.
    destruct (String.eqb (MatrixParams.ThalLay (MatrixLayer.Matrix ly)) EmptyString)
      eqn:He; simpl; [done|]. by rewrite He.
Qed.

End DWt_Q.

(** ** [DWt]: the shared normalization of a sending unit *)

Section DWt_norm.
Import leabra pcore.
Context {F : Type} `{Float32 F} `{LeabraExt F}.





End DWt_norm.

(** ** [DWt]: what a learning pass keeps *)

Section DWt_frame_more.
Import leabra pcore.
Context {F : Type} `{Float32 F} `{LeabraExt F}.

Lemma in_block_dec (pj : MatrixPrjn.t F) slay rlay (k n : nat) :
  Prjn_wf pj slay rlay → (n ≤ length slay)%nat →
  (∃ (si : nat) sn st nc, (si < n)%nat ∧ slay !! si = Some sn ∧
     MatrixPrjn.SConIdxSt pj !! si = Some st ∧
     MatrixPrjn.SConN pj !! si = Some nc ∧ st <= Z.of_nat k < st + nc) ∨
  (∀ (si : nat) st nc, (si < n)%nat →
     MatrixPrjn.SConIdxSt pj !! si = Some st →
     MatrixPrjn.SConN pj !! si = Some nc → ¬ (st <= Z.of_nat k < st + nc)).
Proof.
  intros (_ & _ & Hblk & _) Hn. induction n as [|n IH].
  { right. intros. lia. }
  destruct IH as [(si & sn & st & nc & Hsi & Hr)|IH]; [lia| |].
  { left. exists si, sn, st, nc. split; [lia|done]. }
  destruct (Hblk n) as (st & nc & Hst & Hnc & _); [lia|].
  destruct (lookup_lt_is_Some_2 slay n) as [sn Hsn]; [lia|].
  destruct (decide (st <= Z.of_nat k < st + nc)) as [Hin|Hout].
  - left. exists n, sn, st, nc. split; [lia|done].
  - right. intros si st' nc' Hsi Hst' Hnc'.
    destruct (decide (si = n)) as [->|Hne].
    + by simplify_eq.
    + apply (IH si); [lia|done..].
Qed.

(** X10. A learning pass leaves alone the learning and trace parameters,
    the connection arrays, the lengths of [Syns] and [TrSyns], the weight
    [Wt] of every synapse, and every synapse and trace that belongs to no
    sending unit. *)
Theorem DWt_keeps_weights (pj : MatrixPrjn.t F) (slay : list (Neuron.t F))
  (rlay : MatrixLayer.t F) :
  LearnSynParams.Learn (MatrixPrjn.Learn pj) = true →
  Prjn_wf pj slay rlay →
  ∃ pj', DWt pj slay (LMatrix rlay) = Some pj' ∧
    MatrixPrjn.Learn pj' = MatrixPrjn.Learn pj ∧
    MatrixPrjn.Trace pj' = MatrixPrjn.Trace pj ∧
    MatrixPrjn.SConN pj' = MatrixPrjn.SConN pj ∧
    MatrixPrjn.SConIdxSt pj' = MatrixPrjn.SConIdxSt pj ∧
    MatrixPrjn.SConIdx pj' = MatrixPrjn.SConIdx pj ∧
    length (MatrixPrjn.Syns pj') = length (MatrixPrjn.Syns pj) ∧
    length (MatrixPrjn.TrSyns pj') = length (MatrixPrjn.TrSyns pj) ∧
    (∀ (k : nat) sy, MatrixPrjn.Syns pj !! k = Some sy →
       ∃ sy', MatrixPrjn.Syns pj' !! k = Some sy' ∧
              Synapse.Wt sy' = Synapse.Wt sy) ∧
    (∀ k : nat, (∀ sn, ¬ SynOf pj slay k sn) →
       MatrixPrjn.Syns pj' !! k = MatrixPrjn.Syns pj !! k ∧
       MatrixPrjn.TrSyns pj' !! k = MatrixPrjn.TrSyns pj !! k).
Proof.
  intros HL Hwf.
  destruct (DWt_synapses pj slay rlay HL Hwf)
    as (pj' & Hrun & (ELearn & EN & ESt & EIdx & ETrace) & HlS & HlT & Hout & Hdone).
  exists pj'. repeat (split; [done|]). split.
  - intros k sy Hsy.
    destruct (in_block_dec pj slay rlay k (length slay) Hwf)
      as [(si & sn & st & nc & Hsi & Hsn & Hst & Hnc & Hk)|Hno]; [done| |].
    + destruct (Hdone si sn st nc (Z.of_nat k - st) Hsi Hsn Hst Hnc)
        as (sy0 & trsy & ri & rn & sy' & H1 & H2 & H3 & H4 & H5); [lia|].
      replace (Z.to_nat (st + (Z.of_nat k - st))) with k in * by lia.
      cbv zeta in H5. destruct H5 as (_ & R2 & R3 & _).
      exists sy'. split; [done|]. rewrite R3. unfold SynDWt.
      destruct (TraceDWt _ _ _ _ _ _ _). simpl. rewrite ApplyDWt_Wt. congruence.
    + destruct (Hout k Hno) as [E _]. exists sy. by rewrite E.
  - intros k Hno. apply Hout. intros si st nc Hsi Hst Hnc Hk.
    destruct (lookup_lt_is_Some_2 slay si) as [sn Hsn]; [done|].
    apply (Hno sn). exists si, st, nc, (Z.of_nat k - st).
    repeat (split; [done|]). split; lia.
Qed.

End DWt_frame_more.

(** ** [MatrixPrjn.Build] *)

Section Build_more.
Import leabra pcore.
Context {F : Type} `{Float32 F}.

(** X11. [MatrixPrjn.Build] returns the error of [Prjn.Build] and, with or
    without an error, leaves one trace per entry of [SConIdx], each with
    [NTr = Tr = 0], so that [ClearTrace] after it changes nothing; the
    synapses are those that [Prjn.Build] has made. *)
Theorem Build_traces (PrjnBuild : MatrixPrjn.t F → MatrixPrjn.t F * option string)
  (pj : MatrixPrjn.t F) :
  let pj' := fst (Build PrjnBuild pj) in
  snd (Build PrjnBuild pj) = snd (PrjnBuild pj) ∧
  MatrixPrjn.Syns pj' = MatrixPrjn.Syns (fst (PrjnBuild pj)) ∧
  MatrixPrjn.SConIdx pj' = MatrixPrjn.SConIdx (fst (PrjnBuild pj)) ∧
  length (MatrixPrjn.TrSyns pj') = length (MatrixPrjn.SConIdx pj') ∧
  (∀ (k : nat) trsy, MatrixPrjn.TrSyns pj' !! k = Some trsy →
     trsy = TraceSyn.mk (of_int 0) (of_int 0)) ∧
  ClearTrace pj' = pj'.
Proof.
  unfold Build. destruct (PrjnBuild pj) as [pj1 err]. simpl.
  repeat split.
  - by rewrite length_replicate.
  - intros k trsy Hk. apply lookup_replicate in Hk. by destruct Hk.
  - unfold ClearTrace, MatrixPrjn.set_Syns. simpl. by rewrite fmap_replicate.
Qed.

End Build_more.

(** ** [UnitVarIdx] and [UnitVal1D] *)

Section UnitVar.
Import leabra pcore.
Context {F : Type} `{Float32NaN F}.
Variable LayerUnitVarIdx : Layer.t F → string → Z * option string.
Variable LayerUnitVal1D : Layer.t F → Z → Z → F.
Variable NeuronVars : list string.

(** X12. For a variable name that the embedded layer does not know:
    "DALrn" and "ACh" get the indices [nn + 1] and [nn + 2] after the [nn]
    variables of package leabra, and [UnitVal1D] at these indices returns
    the layer's [DALrn] and [ACh] for a unit index inside the layer and NaN
    outside; any other name gets -1 with an error, and [UnitVal1D] at -1 is
    NaN. *)
Theorem UnitVarIdx_UnitVal1D (ly : MatrixLayer.t F) (varNm : string) (idx : Z) :
  Go.len NeuronVars + 2 <= Go.int_max →
  is_Some (snd (LayerUnitVarIdx (MatrixLayer.Layer ly) varNm)) →
  let r := UnitVarIdx LayerUnitVarIdx NeuronVars ly varNm in
  let v := UnitVal1D LayerUnitVal1D NeuronVars ly (fst r) idx in
  (varNm = "DALrn"%string →
     r = (Go.len NeuronVars + 1, None) ∧
     v = if (0 <=? idx) && (idx <? Go.len (MatrixLayer.Neurons ly))
         then MatrixLayer.DALrn ly else NaN) ∧
  (varNm = "ACh"%string →
     r = (Go.len NeuronVars + 2, None) ∧
     v = if (0 <=? idx) && (idx <? Go.len (MatrixLayer.Neurons ly))
         then MatrixLayer.ACh ly else NaN) ∧
  (varNm ≠ "DALrn"%string → varNm ≠ "ACh"%string →
     fst r = -1 ∧ is_Some (snd r) ∧ v = NaN).
Proof.
  intros Hnn [e He] r v. subst v r. unfold UnitVarIdx, UnitVal1D.
  destruct (LayerUnitVarIdx (MatrixLayer.Layer ly) varNm) as [vidx err].
  simpl in He. subst err.
  assert (H0 : 0 <= Go.len NeuronVars) by (unfold Go.len; lia).
  assert (E1 : Go.add (Go.len NeuronVars) 1 = Go.len NeuronVars + 1).
  { apply wrap_id. unfold Go.int_min. lia. }
  assert (E2 : Go.add (Go.len NeuronVars) 2 = Go.len NeuronVars + 2).
  { apply wrap_id. unfold Go.int_min. lia. }
  rewrite E1, E2.
  split; [|split].
  - intros ->. simpl. split; [done|].
    repeat match goal with |- context [if ?c then _ else _] =>
      let Hc := fresh in destruct c eqn:Hc end; try done; lia.
  - intros ->. simpl. split; [done|].
    repeat match goal with |- context [if ?c then _ else _] =>
      let Hc := fresh in destruct c eqn:Hc end; try done; lia.
  - intros Hd Ha.
    apply String.eqb_neq in Hd, Ha. rewrite Hd, Ha. simpl. eauto.
Qed.

End UnitVar.

(** Runs of the Matrix layer and projection on the examples. *)

Section pcore_more_runs.
Import leabra pcore.


Lemma Ex_SynOf (pj : MatrixPrjn.t Q) :
  MatrixPrjn.SConIdxSt pj = [0; 2] → MatrixPrjn.SConN pj = [2; 1] →
  SynOf pj Ex.slay 0 (Ex.unit 1 0 1).
Proof.
  intros E1 E2. exists 0%nat, 0, 2, 0. rewrite E1, E2. repeat split; done.
Qed.

Lemma Defaults_DALrn_witness :
  ∃ ly', DAActLrn Ex.mnet
           (MatrixLayer.mk (MatrixLayer.Layer (Ex.rlay D2R)) D2R
              (MatrixParams.Defaults (MatrixLayer.Matrix (Ex.rlay D2R)))
              (MatrixLayer.DALrn (Ex.rlay D2R)) (MatrixLayer.ACh (Ex.rlay D2R)))
           (Time.mk 0 0) = Some ly' ∧
         (MatrixLayer.DALrn ly' == - (1 # 2))%Q.
Proof.
  eexists. split; [reflexivity|].
  apply (Defaults_DALrn Ex.mnet (Ex.rlay D2R) _ (Time.mk 0 0)). reflexivity.
Defined.

Lemma InitActs_DWt_inert_witness :
  ∃ pj' sy' trsy',
    DWt (Ex.pj true) Ex.slay (LMatrix (InitActs id (Ex.rlay D1R))) = Some pj' ∧
    MatrixPrjn.Syns pj' !! 0%nat = Some sy' ∧
    MatrixPrjn.TrSyns pj' !! 0%nat = Some trsy' ∧
    (Synapse.DWt sy' == 0)%Q ∧ (TraceSyn.Tr trsy' == 3 # 2)%Q.
Proof.
  destruct (InitActs_DWt_inert id (Ex.pj true) Ex.slay (Ex.rlay D1R)
              eq_refl eq_refl eq_refl (Ex_pj_wf true D1R)) as (pj' & Hrun & Hsyn).
  destruct (Hsyn 0%nat (Ex.unit 1 0 1) (Ex_SynOf (Ex.pj true) eq_refl eq_refl))
    as (sy & trsy & ri & rn & sy' & trsy' & H1 & H2 & H3 & H4 & H5 & H6 & _ & HD & HT).
  simpl in H1, H2, H3. simplify_eq. vm_compute in H4. simplify_eq.
  exists pj', sy', trsy'. split; [done|]. split; [done|]. split; [done|].
  split; [rewrite HD|rewrite HT]; reflexivity.
Defined.

Lemma InitWts_DWt_fresh_witness :
  ∃ pj' sy' trsy',
    DWt (InitWts id (Ex.pj false)) Ex.slay (LMatrix (Ex.rlay D1R)) = Some pj' ∧
    MatrixPrjn.Syns pj' !! 0%nat = Some sy' ∧
    MatrixPrjn.TrSyns pj' !! 0%nat = Some trsy' ∧
    (Synapse.DWt sy' == 0)%Q ∧ (TraceSyn.Tr trsy' == 1 # 2)%Q.
Proof.
  destruct (InitWts_DWt_fresh id (Ex.pj false) Ex.slay (Ex.rlay D1R)
              eq_refl eq_refl eq_refl (Ex_pj_wf false D1R)) as (pj' & Hrun & Hsyn).
  destruct (Hsyn 0%nat (Ex.unit 1 0 1) (Ex_SynOf (InitWts id (Ex.pj false)) eq_refl eq_refl))
    as (sy & ri & rn & sy' & trsy' & H1 & H3 & H4 & H5 & H6 & HN & HT & HD).
  simpl in H1, H3. simplify_eq. vm_compute in H4. simplify_eq.
  exists pj', sy', trsy'. split; [done|]. split; [done|]. split; [done|].
  split; [rewrite HD|rewrite HT]; reflexivity.
Defined.

Lemma DWt_keeps_weights_witness :
  ∃ pj' sy',
    DWt (Ex.pj true) Ex.slay (LMatrix (Ex.rlay D1R)) = Some pj' ∧
    MatrixPrjn.SConIdx pj' = [0; 1; 1] ∧
    MatrixPrjn.Syns pj' !! 0%nat = Some sy' ∧ Synapse.Wt sy' = 0%Q.
Proof.
  destruct (DWt_keeps_weights (Ex.pj true) Ex.slay (Ex.rlay D1R) eq_refl (Ex_pj_wf true D1R))
    as (pj' & Hrun & _ & _ & _ & _ & EI & _ & _ & HW & _).
  destruct (HW 0%nat _ eq_refl) as (sy' & Hsy' & HWt).
  exists pj', sy'. done.
Defined.


Lemma SetACh_DWt_reset_witness :
  ∃ pj' trsy',
    DWt (Ex.pj true) Ex.slay (LMatrix (SetACh (Ex.rlay D1R) 1%Q)) = Some pj' ∧
    MatrixPrjn.TrSyns pj' !! 0%nat = Some trsy' ∧
    (TraceSyn.Tr trsy' == 0)%Q.
Proof.
  destruct (SetACh_DWt_reset (Ex.pj true) Ex.slay (Ex.rlay D1R) 1%Q)
    as (_ & pj' & Hrun & Hsyn);
    [vm_compute; discriminate | reflexivity | apply Ex_pj_wf |].
  destruct (Hsyn 0%nat (Ex.unit 1 0 1) (Ex_SynOf (Ex.pj true) eq_refl eq_refl))
    as (ri & rn & trsy' & _ & _ & Ht & _ & HT).
  exists pj', trsy'. done.
Defined.

Lemma UnitVarIdx_UnitVal1D_witness :
  UnitVal1D (λ _ _ _, None) Ex.base_vars Ex.nlay
    (fst (UnitVarIdx Ex.base_idx Ex.base_vars Ex.nlay "DALrn")) 0
  = Some (1 # 3)%Q.
Proof.
  destruct (UnitVarIdx_UnitVal1D Ex.base_idx (λ _ _ _, None) Ex.base_vars
              Ex.nlay "DALrn" 0) as ((_ & Hv) & _).
  - vm_compute. discriminate.
  - by eexists.
  - done.
  - exact Hv.
Defined.

End pcore_more_runs.

(** ** Slices: [copy], slicing and assignment of a block *)

Section copy_lemmas.
Context {A : Type}.

Lemma to_nat_len (l : list A) : Z.to_nat (Go.len l) = length l.
Proof. unfold Go.len. lia. Qed.

Lemma len_app (l k : list A) : Go.len (l ++ k) = Go.len l + Go.len k.
Proof. unfold Go.len. rewrite length_app. lia. Qed.

Lemma copy_prefix (dst src : list A) :
  (length src ≤ length dst)%nat →
  Go.copy dst src = src ++ drop (length src) dst.
Proof. intros Hl. unfold Go.copy. by rewrite take_ge. Qed.

Lemma slice_from (pre l : list A) :
  Go.slice (pre ++ l) (Go.len pre) (Go.len (pre ++ l)) = Some l.
Proof.
  unfold Go.slice. rewrite len_app.
  assert (0 <= Go.len pre ∧ 0 <= Go.len l) as [? ?] by (unfold Go.len; lia).
  destruct (Z.leb_spec 0 (Go.len pre)); [|lia].
  destruct (Z.leb_spec (Go.len pre) (Go.len pre + Go.len l)); [|lia].
  destruct (Z.leb_spec (Go.len pre + Go.len l) (Go.len pre + Go.len l)); [|lia].
  simpl. rewrite to_nat_len, drop_app_length. f_equal. apply take_ge.
  unfold Go.len. lia.
Qed.

Lemma splice_tail (pre l blk : list A) :
  length blk = length l →
  Go.splice (pre ++ l) (Go.len pre) blk = pre ++ blk.
Proof.
  intros Hl. unfold Go.splice. rewrite to_nat_len.
  rewrite take_app_length. f_equal.
  rewrite drop_ge; [by rewrite app_nil_r|].
  rewrite length_app. lia.
Qed.

End copy_lemmas.

(** ** [init] of package agate *)

Section agate_init.

(** X13. [init] of package agate makes [NeuronVarsAll] the concatenation of
    the variable lists of the packages deep, glong and pcore, in this
    order. *)
Theorem init_concat (deepVars glongVars pcoreVars : list string) :
  Go.len deepVars + Go.len glongVars + Go.len pcoreVars <= Go.int_max →
  agate.init deepVars glongVars pcoreVars
    = Some (deepVars ++ glongVars ++ pcoreVars).
Proof.
  intros Hn. unfold agate.init. cbv zeta.
  revert Hn. generalize deepVars as a, glongVars as b, pcoreVars as c. intros a b c Hn.
  assert (Ha : 0 <= Go.len a) by (unfold Go.len; lia).
  assert (Hb : 0 <= Go.len b) by (unfold Go.len; lia).
  assert (Hc : 0 <= Go.len c) by (unfold Go.len; lia).
  assert (E1 : Go.add (Go.len a) (Go.len b) = Go.len a + Go.len b).
  { apply wrap_id. unfold Go.int_min. lia. }
  rewrite E1.
  assert (E2 : Go.add (Go.len a + Go.len b) (Go.len c)
               = Go.len a + Go.len b + Go.len c).
  { apply wrap_id. unfold Go.int_min. lia. }
  rewrite E2. unfold Go.make.
  destruct (Z.ltb_spec (Go.len a + Go.len b + Go.len c) 0); [lia|]. simpl.
  replace (Z.to_nat (Go.len a + Go.len b + Go.len c))
    with (length a + (length b + length c))%nat by (unfold Go.len; lia).
  rewrite copy_prefix by (rewrite length_replicate; lia).
  rewrite drop_replicate.
  replace (length a + (length b + length c) - length a)%nat
    with (length b + length c)%nat by lia.
  rewrite slice_from. simpl.
  rewrite copy_prefix by (rewrite length_replicate; lia).
  rewrite drop_replicate.
  replace (length b + length c - length b)%nat with (length c) by lia.
  rewrite splice_tail by (rewrite length_app, !length_replicate; lia).
  rewrite (app_assoc a b), <- len_app.
  rewrite slice_from. simpl.
  rewrite copy_prefix by (rewrite length_replicate; lia).
  rewrite drop_replicate, Nat.sub_diag. simpl. rewrite app_nil_r.
  rewrite splice_tail by (by rewrite length_replicate).
  by rewrite <- app_assoc.
Qed.

End agate_init.

(** A run of [init]. *)

Section agate_runs.
Lemma init_concat_witness :
  agate.init ["Burst"; "Ctxt"] ["GNMDA"] ["DA"; "DALrn"]
    = Some ["Burst"; "Ctxt"; "GNMDA"; "DA"; "DALrn"]%string.
Proof.
  apply (init_concat ["Burst"; "Ctxt"] ["GNMDA"] ["DA"; "DALrn"])%string.
  vm_compute. discriminate.
Defined.
End agate_runs.

(** ** The names of the paired layers *)

Section names_more.
Import leabra pbwm.

Lemma substring_prefix (p s : string) :
  substring 0 (String.length (p +:+ s) - String.length s) (p +:+ s) = p.
Proof.
  rewrite append_length.
  replace (String.length p + String.length s - String.length s)%nat
    with (String.length p) by lia.
  induction p as [|c p IH]; simpl.
  - by destruct s.
  - by rewrite IH.
Qed.

Lemma append_assoc (s1 s2 s3 : string) :
  ((s1 +:+ s2) +:+ s3 = s1 +:+ (s2 +:+ s3))%string.
Proof.
  induction s1 as [|c s1 IH]; [done|].
  change (String c ((s1 +:+ s2) +:+ s3) = String c (s1 +:+ (s2 +:+ s3))).
  by rewrite IH.
Qed.

(** X14. The names of the paired layers: the maintenance layer of a layer
    has its name with the last four bytes replaced by "mntD", whatever they
    are, and the super layer has the name without its last byte; so for
    "XoutD" the maintenance layer is "XmntD" and that layer's super layer is
    "Xmnt", and a layer "XmntD" is its own maintenance layer. *)
Theorem paired_layer_names (p : string) :
  (∀ suf, String.length suf = 4%nat →
     MaintName (p +:+ suf) = (p +:+ "mntD")%string) ∧
  (∀ c, SuperName (p +:+ String c EmptyString) = p) ∧
  MaintName (p +:+ "outD") = (p +:+ "mntD")%string ∧
  SuperName (MaintName (p +:+ "outD")) = (p +:+ "mnt")%string ∧
  MaintName (p +:+ "mntD") = (p +:+ "mntD")%string.
Proof.
  assert (HM : ∀ s, String.length s = 4%nat →
            MaintName (p +:+ s) = (p +:+ "mntD")%string).
  { intros s Hs. unfold MaintName. rewrite <- Hs at 1.
    by rewrite substring_prefix. }
  assert (HS : ∀ q a, SuperName (q +:+ String a EmptyString) = q).
  { intros q a. unfold SuperName.
    change 1%nat with (String.length (String a EmptyString)).
    by rewrite substring_prefix. }
  split; [apply HM|]. split; [apply HS|]. split; [by apply HM|].
  split; [|by apply HM].
  rewrite HM by done.
  change (p +:+ "mntD")%string with (p +:+ ("mnt" +:+ "D"))%string.
  rewrite <- append_assoc. apply HS.
Qed.

End names_more.

(** ** Panics of the lookups of the paired layers *)

Section name_panics.
Import leabra pbwm.
Context {F : Type} `{Float32 F} `{LeabraExt F}.

(** X15. The lookups of the paired layers panic on short names and on a
    maintenance layer of another type: [MaintPFC], and [ClearMaint] with it,
    for a name of fewer than four bytes or when the layer of the maintenance
    name is no PFC deep layer; [SuperPFC], and [DeepMaint] in a gating
    quarter with it, for the empty name. *)
Theorem paired_layer_panics (nt : gmap string (NetLayer F)) (nm : string) :
  ((String.length nm < 4)%nat →
   MaintPFC nt nm = None ∧ ∀ pool, ClearMaint nt nm pool = None) ∧
  ((String.length nm < 1)%nat →
   SuperPFC nt nm = None ∧ ∀ ly ltime,
     PFCGateParams.GateQtr (PFCDeepLayer.Gate ly) (Time.Quarter ltime) = true →
     DeepMaint nt nm ly ltime = None) ∧
  (∀ l, (4 ≤ String.length nm)%nat → nt !! MaintName nm = Some (LLeabra l) →
   MaintPFC nt nm = None ∧ ∀ pool, ClearMaint nt nm pool = None).
Proof.
  split; [|split].
  - intros Hl. assert (E : MaintPFC nt nm = None).
    { unfold MaintPFC. by destruct (Nat.ltb_spec (String.length nm) 4); [|lia]. }
    split; [done|]. intros pool. unfold ClearMaint. by rewrite E.
  - intros Hl. assert (E : SuperPFC nt nm = None).
    { unfold SuperPFC. by destruct (Nat.ltb_spec (String.length nm) 1); [|lia]. }
    split; [done|]. intros ly ltime Hq. unfold DeepMaint. by rewrite Hq, E.
  - intros l Hl Hn. assert (E : MaintPFC nt nm = None).
    { unfold MaintPFC. destruct (Nat.ltb_spec (String.length nm) 4); [lia|].
      by rewrite Hn. }
    split; [done|]. intros pool. unfold ClearMaint. by rewrite E.
Qed.

End name_panics.

(** ** [PFCDeepLayer.Defaults] *)

Section defaults_more.
Import leabra pbwm.
Context {F : Type} `{Float32 F} `{Float32Lit F} `{LeabraExt F}.

(** X16. [PFCDeepLayer.Defaults] keeps [OutGate] and the [PFCNeurs], sets
    [OutQ1Only] and clears [OutClearMaint]; an output gate gets
    [MaxMaint = 1] and the single gating quarter [Q1], a maintenance gate
    [MaxMaint = 100] and the quarters [Q2] and [Q4] added to those it had;
    [UseDyn] tells whether there are dynamics.  So after it [Gating] is
    skipped exactly for an output gate in a quarter of number above 1, and
    [DoQuarter2DWt] is the membership of quarter 1 in these quarter sets. *)
Theorem Defaults_gate_policy (Q1 Q2 Q4 : Z)
  (GateLayerDefaults : GateLayer → GateLayer) (nDyns : Z)
  (ly : PFCDeepLayer.t F) :
  let ly' := Defaults Q1 Q2 Q4 GateLayerDefaults nDyns ly in
  let out := PFCGateParams.OutGate (PFCDeepLayer.Gate ly) in
  PFCGateParams.OutGate (PFCDeepLayer.Gate ly') = out ∧
  PFCGateParams.OutQ1Only (PFCDeepLayer.Gate ly') = true ∧
  PFCMaintParams.OutClearMaint (PFCDeepLayer.Maint ly') = false ∧
  PFCMaintParams.UseDyn (PFCDeepLayer.Maint ly') = (0 <? nDyns) ∧
  PFCMaintParams.MaxMaint (PFCDeepLayer.Maint ly') = (if out then 1 else 100) ∧
  (∀ q, PFCGateParams.GateQtr (PFCDeepLayer.Gate ly') q =
          if out then q =? Q1
          else (q =? Q4) || (q =? Q2)
               || PFCGateParams.GateQtr (PFCDeepLayer.Gate ly) q) ∧
  (∀ ltime, GatingSkipped ly' ltime = out && (1 <? Time.Quarter ltime)) ∧
  DoQuarter2DWt ly' =
    (if out then 1 =? Q1
     else (1 =? Q4) || (1 =? Q2)
          || PFCGateParams.GateQtr (PFCDeepLayer.Gate ly) 1) ∧
  PFCDeepLayer.PFCNeurs ly' = PFCDeepLayer.PFCNeurs ly.
Proof.
  unfold Defaults, DoQuarter2DWt, GatingSkipped, PFCGateParams.Defaults,
    PFCMaintParams.Defaults, PFCGateParams.SetQtr. cbn -[Z.eqb Z.ltb].
  destruct (PFCGateParams.OutGate (PFCDeepLayer.Gate ly)); cbn -[Z.eqb Z.ltb];
    destruct (0 <? nDyns); cbn -[Z.eqb Z.ltb]; repeat split;
    try (intros q; by rewrite ?orb_false_r, ?orb_assoc);
    try (intros; by rewrite ?andb_true_r);
    rewrite ?orb_false_r, ?orb_assoc;
    match goal with |- (if negb ?b then _ else _) = _ => by destruct b end.
Qed.

End defaults_more.

(** ** Loops with state that return *)

Section go_more.
Context {A S : Type}.

(** The invariant rule of a loop with state, for a run that returns. *)
Lemma for_state_inv_run (P : nat → S → Prop) (body : Z → A → S → option S)
  (l : list A) (s s' : S) :
  P 0%nat s →
  (∀ (k : nat) (x : A) (s1 s2 : S), l !! k = Some x → P k s1 →
     body (Z.of_nat k) x s1 = Some s2 → P (Datatypes.S k) s2) →
  Go.for_state body 0 l s = Some s' → P (length l) s'.
Proof.
  assert (G : ∀ (l : list A) (n : nat) (s : S),
    P n s →
    (∀ (k : nat) (x : A) (s1 s2 : S), l !! k = Some x → P (n + k)%nat s1 →
       body (Z.of_nat (n + k)) x s1 = Some s2 → P (Datatypes.S (n + k)) s2) →
    Go.for_state body (Z.of_nat n) l s = Some s' → P (n + length l)%nat s').
  { clear l s. induction l as [|x l IH]; intros n s HP Hstep; simpl.
    - intros [= <-]. by rewrite Nat.add_0_r.
    - destruct (body (Z.of_nat n) x s) as [s2|] eqn:Hb; simpl; [|done].
      replace (Z.of_nat n + 1) with (Z.of_nat (Datatypes.S n)) by lia.
      intros Hrun.
      replace (n + Datatypes.S (length l))%nat
        with (Datatypes.S n + length l)%nat by lia.
      apply (IH (Datatypes.S n) s2); [| |done].
      + specialize (Hstep 0%nat x s s2 eq_refl).
        rewrite Nat.add_0_r in Hstep. by apply Hstep.
      + intros k y s1 s3 Hy HP1 Hb1.
        replace (Datatypes.S n + k)%nat with (n + Datatypes.S k)%nat in * by lia.
        by apply (Hstep (Datatypes.S k) y s1 s3). }
  intros HP Hstep. apply (G l 0%nat s HP Hstep).
Qed.

End go_more.

(** ** [DeepMaint]: the frame *)

Section deep_frame.
Import leabra pbwm.
Context {F : Type} `{Float32 F} `{LeabraExt F}.

Lemma MaintFmCnt_ActG (ly : PFCDeepLayer.t F) sly d c gs pnr pnr1 :
  MaintFmCnt ly sly d c gs pnr = Some pnr1 →
  PFCNeuron.ActG pnr1 = PFCNeuron.ActG pnr.
Proof.
  unfold MaintFmCnt.
  destruct (GateState.Cnt gs <? 0); [by intros [= <-]|].
  destruct (GateState.Cnt gs <=? 1); [|by intros [= <-]].
  destruct (SuperIdx d c); simpl; [|done].
  destruct (Go.index _ _); simpl; [|done]. by intros [= <-].
Qed.

Lemma MaintGeFmMaint_ActG (ly : PFCDeepLayer.t F) d gs pnr :
  PFCNeuron.ActG (MaintGeFmMaint ly d gs pnr) = PFCNeuron.ActG pnr.
Proof. unfold MaintGeFmMaint. by destruct (PFCMaintParams.UseDyn _). Qed.

(** X17. What [DeepMaint] leaves alone: the embedded layer, the gate
    states, the parameters and the dynamics, the number of [PFCNeurs], [ActG]
    of every unit, and all of a unit that is off or has no entry in
    [Neurons]; outside the gating quarters it changes nothing. *)
Theorem DeepMaint_frame (nt : gmap string (NetLayer F)) (nm : string)
  (ly ly' : PFCDeepLayer.t F) (ltime : Time.t) :
  DeepMaint nt nm ly ltime = Some ly' →
  PFCDeepLayer.Layer ly' = PFCDeepLayer.Layer ly ∧
  PFCDeepLayer.GateStates ly' = PFCDeepLayer.GateStates ly ∧
  PFCDeepLayer.Gate ly' = PFCDeepLayer.Gate ly ∧
  PFCDeepLayer.Maint ly' = PFCDeepLayer.Maint ly ∧
  PFCDeepLayer.Dyns ly' = PFCDeepLayer.Dyns ly ∧
  length (PFCDeepLayer.PFCNeurs ly') = length (PFCDeepLayer.PFCNeurs ly) ∧
  (PFCGateParams.GateQtr (PFCDeepLayer.Gate ly) (Time.Quarter ltime) = false →
   ly' = ly) ∧
  ∀ (ni : nat) (pnr : PFCNeuron.t F),
    PFCDeepLayer.PFCNeurs ly !! ni = Some pnr →
    ∃ pnr', PFCDeepLayer.PFCNeurs ly' !! ni = Some pnr' ∧
      PFCNeuron.ActG pnr' = PFCNeuron.ActG pnr ∧
      (∀ nrn, PFCDeepLayer.Neurons ly !! ni = Some nrn →
         Neuron.Off nrn = true → pnr' = pnr) ∧
      (PFCDeepLayer.Neurons ly !! ni = None → pnr' = pnr).
Proof.
  assert (Hid : ∀ (P : Prop), P →
    PFCDeepLayer.Layer ly = PFCDeepLayer.Layer ly ∧
    PFCDeepLayer.GateStates ly = PFCDeepLayer.GateStates ly ∧
    PFCDeepLayer.Gate ly = PFCDeepLayer.Gate ly ∧
    PFCDeepLayer.Maint ly = PFCDeepLayer.Maint ly ∧
    PFCDeepLayer.Dyns ly = PFCDeepLayer.Dyns ly ∧
    length (PFCDeepLayer.PFCNeurs ly) = length (PFCDeepLayer.PFCNeurs ly) ∧
    (PFCGateParams.GateQtr (PFCDeepLayer.Gate ly) (Time.Quarter ltime) = false →
     ly = ly) ∧
    ∀ (ni : nat) (pnr : PFCNeuron.t F),
      PFCDeepLayer.PFCNeurs ly !! ni = Some pnr →
      ∃ pnr', PFCDeepLayer.PFCNeurs ly !! ni = Some pnr' ∧
        PFCNeuron.ActG pnr' = PFCNeuron.ActG pnr ∧
        (∀ nrn, PFCDeepLayer.Neurons ly !! ni = Some nrn →
           Neuron.Off nrn = true → pnr' = pnr) ∧
        (PFCDeepLayer.Neurons ly !! ni = None → pnr' = pnr)).
  { intros _ _. repeat (split; [done|]). intros ni pnr Hp. exists pnr. done. }
  unfold DeepMaint.
  destruct (PFCGateParams.GateQtr (PFCDeepLayer.Gate ly) (Time.Quarter ltime)) eqn:Hq;
    simpl.
  2:{ intros [= <-]. by apply (Hid True). }
  destruct (SuperPFC nt nm) as [[[snm li]|]|]; simpl; [| |done].
  2:{ intros [= <-]. by apply (Hid True). }
  destruct (DeepMaintDims ly (AsLeabra li)) as [d|]; simpl; [|done].
  destruct (Go.for_state _ _ _ _) as [pnrs|] eqn:Hloop; simpl; [|done].
  intros [= <-]. simpl. repeat (split; [done|]).
  pose (P := λ (k : nat) (ps : list (PFCNeuron.t F)),
    length ps = length (PFCDeepLayer.PFCNeurs ly) ∧
    ∀ (ni : nat) (pnr : PFCNeuron.t F),
      PFCDeepLayer.PFCNeurs ly !! ni = Some pnr →
      ∃ pnr', ps !! ni = Some pnr' ∧
        PFCNeuron.ActG pnr' = PFCNeuron.ActG pnr ∧
        ((k ≤ ni)%nat → pnr' = pnr) ∧
        (∀ nrn, PFCDeepLayer.Neurons ly !! ni = Some nrn →
           Neuron.Off nrn = true → pnr' = pnr)).
  assert (HP : P (length (PFCDeepLayer.Neurons ly)) pnrs).
  { eapply (for_state_inv_run P); [| |exact Hloop].
    - split; [done|]. intros ni pnr Hp. exists pnr. done.
    - intros k nrn ps ps2 Hnrn [Hlen Hps]. unfold DeepMaintUnit.
      destruct (Neuron.Off nrn) eqn:Hoff.
      + intros [= <-]. split; [done|]. intros ni pnr Hp.
        destruct (Hps ni pnr Hp) as (pnr' & H1 & H2 & H3 & H4).
        exists pnr'. repeat (split; [done|]). split; [|done].
        intros Hk. apply H3. lia.
      + destruct (UnitCoords d (Z.of_nat k)) as [c|]; simpl; [|done].
        rewrite index_of_nat.
        destruct (ps !! k) as [pk|] eqn:Hpk; simpl; [|done].
        destruct (Go.index _ (Neuron.SubPool nrn - 1)) as [gs|]; simpl; [|done].
        destruct (MaintFmCnt ly (AsLeabra li) d c gs pk) as [pk1|] eqn:Hm;
          simpl; [|done].
        rewrite (store_Some _ _ _ pk) by (by rewrite index_of_nat).
        rewrite Nat2Z.id. intros [= <-]. split.
        { by rewrite length_insert. }
        intros ni pnr Hp.
        destruct (Hps ni pnr Hp) as (pnr' & H1 & H2 & H3 & H4).
        destruct (decide (ni = k)) as [->|Hne].
        * rewrite list_lookup_insert_eq by (by eapply lookup_lt_Some).
          eexists. split; [done|]. simplify_eq.
          split. { rewrite MaintGeFmMaint_ActG. erewrite MaintFmCnt_ActG; done. }
          split; [intros; lia|].
          intros nrn' Hn' Hoff'. congruence.
        * rewrite list_lookup_insert_ne by done.
          exists pnr'. repeat (split; [done|]). split; [|done].
          intros Hk. apply H3. lia. }
  destruct HP as [Hlen Hps]. split; [done|]. split; [done|].
  intros ni pnr Hp. destruct (Hps ni pnr Hp) as (pnr' & H1 & H2 & H3 & H4).
  exists pnr'. split; [done|]. split; [done|]. split; [done|].
  intros Hnone. apply H3. by apply lookup_ge_None in Hnone.
Qed.

End deep_frame.

(** ** [DeepMaint]: the divisions *)

Section deep_dims.
Import leabra pbwm.
Context {F : Type} `{Float32 F} `{LeabraExt F}.

(** X18. The divisions of [DeepMaint]: in a gating quarter with the super
    layer present it panics when the super layer has no rows, or more rows
    than the deep layer; with [0 < syN <= yN] the dynamics type
    [dtyp = yN / (yN / syN)] is the same for all units, and it is [syN] when
    [syN] divides [yN]. *)
Theorem DeepMaint_dims (nt : gmap string (NetLayer F)) (nm : string)
  (ly : PFCDeepLayer.t F) (ltime : Time.t) (li : NetLayer F)
  (yN xN syN sxN : Z) :
  PFCGateParams.GateQtr (PFCDeepLayer.Gate ly) (Time.Quarter ltime) = true →
  (1 ≤ String.length nm)%nat →
  nt !! SuperName nm = Some li →
  Layer.Dim (PFCDeepLayer.Layer ly) 2 = Some yN →
  Layer.Dim (PFCDeepLayer.Layer ly) 3 = Some xN →
  Layer.Dim (AsLeabra li) 2 = Some syN →
  Layer.Dim (AsLeabra li) 3 = Some sxN →
  (syN = 0 ∨ Z.abs yN < Z.abs syN → DeepMaint nt nm ly ltime = None) ∧
  (0 < syN <= yN → yN <= Go.int_max →
   ∃ d, DeepMaintDims ly (AsLeabra li) = Some d ∧
        DeepDims.dtyp d = yN / (yN / syN) ∧
        (yN mod syN = 0 → DeepDims.dtyp d = syN)).
Proof.
  intros Hq Hl Hli HyN HxN HsyN HsxN. split.
  - intros Hbad. unfold DeepMaint. rewrite Hq. simpl.
    rewrite (SuperPFC_spec nt nm Hl), Hli. simpl.
    unfold DeepMaintDims. rewrite HyN, HxN, HsyN, HsxN. simpl.
    unfold Go.quo. destruct (Z.eqb_spec syN 0) as [->|Hne]; [done|]. simpl.
    assert (E : Z.quot yN syN = 0) by (apply Z.quot_small_iff; [done|lia]).
    rewrite E. by rewrite wrap_id by (unfold Go.int_min, Go.int_max; lia).
  - intros Hpos Hmax. unfold DeepMaintDims. rewrite HyN, HxN, HsyN, HsxN. simpl.
    unfold Go.quo. destruct (Z.eqb_spec syN 0) as [->|Hne]; [lia|]. simpl.
    rewrite Z.quot_div_nonneg by lia.
    assert (Hd : 1 <= yN / syN <= yN).
    { split.
      - apply Z.div_le_lower_bound; lia.
      - apply Z.div_le_upper_bound; [lia|]. nia. }
    rewrite (wrap_id (yN / syN)) by (unfold Go.int_min; lia).
    destruct (Z.eqb_spec (yN / syN) 0) as [E0|_]; [lia|]. simpl.
    rewrite Z.quot_div_nonneg by lia.
    assert (Hd2 : 0 <= yN / (yN / syN) <= yN).
    { split.
      - apply Z.div_pos; lia.
      - apply Z.div_le_upper_bound; [lia|]. nia. }
    rewrite (wrap_id (yN / (yN / syN))) by (unfold Go.int_min; lia).
    eexists. split; [done|]. simpl. split; [done|].
    intros Hmod. apply Z.mod_divide in Hmod as [k ->]; [|lia].
    rewrite Z.div_mul by lia.
    rewrite Z.mul_comm, Z.div_mul; [done|].
    intros ->. lia.
Qed.

Lemma DeepMaint_result (nt : gmap string (NetLayer F)) (nm : string)
  (ly : PFCDeepLayer.t F) (ltime : Time.t) (li : NetLayer F) (d : DeepDims.t) :
  PFCGateParams.GateQtr (PFCDeepLayer.Gate ly) (Time.Quarter ltime) = true →
  (1 ≤ String.length nm)%nat →
  nt !! SuperName nm = Some li →
  DeepMaintDims ly (AsLeabra li) = Some d →
  DeepMaint_in_range ly (AsLeabra li) d →
  ∃ pnrs, DeepMaint nt nm ly ltime = Some (PFCDeepLayer.set_PFCNeurs pnrs ly) ∧
    ∀ (ni : nat) (nrn : Neuron.t F),
      PFCDeepLayer.Neurons ly !! ni = Some nrn → Neuron.Off nrn = false →
      ∃ pnr c gs pnr1,
        PFCDeepLayer.PFCNeurs ly !! ni = Some pnr ∧
        UnitCoords d (Z.of_nat ni) = Some c ∧
        Go.index (PFCDeepLayer.GateStates ly) (Neuron.SubPool nrn - 1) = Some gs ∧
        MaintFmCnt ly (AsLeabra li) d c gs pnr = Some pnr1 ∧
        pnrs !! ni = Some (MaintGeFmMaint ly d gs pnr1).
Proof.
  intros Hq Hl Hli Hd Hr. unfold DeepMaint. rewrite Hq. simpl.
  rewrite (SuperPFC_spec nt nm Hl), Hli. simpl. rewrite Hd. simpl.
  destruct (DeepMaint_loop ly (AsLeabra li) d Hr) as (pnrs & Hloop & Hinv).
  rewrite Hloop. simpl. exists pnrs. split; [done|].
  intros ni nrn Hnrn Hoff.
  destruct (Hr ni nrn Hnrn Hoff) as (c & gs & Hc & [pnr Hpnr] & Hgs & Hsi).
  specialize (Hinv ni). rewrite Hpnr in Hinv. simpl in Hinv.
  destruct (decide (ni < length (PFCDeepLayer.Neurons ly))%nat) as [_|Hn].
  2:{ apply lookup_lt_Some in Hnrn. lia. }
  unfold DeepUnit in Hinv. rewrite Hnrn, Hoff, Hc in Hinv. simpl in Hinv.
  rewrite Hgs in Hinv. simpl in Hinv.
  destruct (MaintFmCnt_total ly (AsLeabra li) d c gs pnr Hsi) as [pnr1 Hpnr1].
  rewrite Hpnr1 in Hinv. simpl in Hinv.
  exists pnr, c, gs, pnr1. done.
Qed.

End deep_dims.

(** ** [QuarterFinal] *)

Section quarter_final.
Import leabra pbwm.

Lemma index_fmap {A B} (f : A → B) (l : list A) (i : Z) :
  Go.index (f <$> l) i = f <$> Go.index l i.
Proof. unfold Go.index. destruct (i <? 0); [done|]. by rewrite list_lookup_fmap. Qed.

(** The units after [QuarterFinal], through the values that [DeepMaint]
    computes before and in its unit loop. *)
Lemma QuarterFinal_units_dims (GateLayerQuarterFinal : GateLayer → Time.t → GateLayer)
  (nt : gmap string (NetLayer Q)) (nm : string) (ly : PFCDeepLayer.t Q)
  (ltime : Time.t) (li : NetLayer Q) (d : DeepDims.t) :
  let ly0 := with_GateLayer (GateLayerQuarterFinal (AsGateLayer ly) ltime) ly in
  let ly1 := UpdtGateCnt ly0 ltime in
  getPFC nt nm = Some ly →
  PFCGateParams.GateQtr (PFCDeepLayer.Gate ly) (Time.Quarter ltime) = true →
  (1 ≤ String.length nm)%nat →
  nt !! SuperName nm = Some li →
  DeepMaintDims ly1 (AsLeabra li) = Some d →
  DeepMaint_in_range ly1 (AsLeabra li) d →
  ∃ ly', QuarterFinal GateLayerQuarterFinal nt nm ltime
           = Some (<[nm := LPFCDeep ly']> nt) ∧
    PFCDeepLayer.GateStates ly' = UpdtCnt <$> PFCDeepLayer.GateStates ly0 ∧
    ∀ (ni : nat) (nrn : Neuron.t Q),
      PFCDeepLayer.Neurons ly0 !! ni = Some nrn → Neuron.Off nrn = false →
      ∃ gs pnr pnr' c,
        Go.index (PFCDeepLayer.GateStates ly0) (Neuron.SubPool nrn - 1) = Some gs ∧
        PFCDeepLayer.PFCNeurs ly !! ni = Some pnr ∧
        PFCDeepLayer.PFCNeurs ly' !! ni = Some pnr' ∧
        UnitCoords d (Z.of_nat ni) = Some c ∧
        (Go.int_min < GateState.Cnt gs < 0 →
         (PFCNeuron.Maint pnr' == 0 ∧ PFCNeuron.MaintGe pnr' == 0)%Q) ∧
        (GateState.Cnt gs = 0 →
         ∃ si snr, SuperIdx d c = Some si ∧
           Go.index (Layer.Neurons (AsLeabra li)) si = Some snr ∧
           PFCNeuron.Maint pnr' =
             (PFCMaintParams.MaintGain (PFCDeepLayer.Maint ly) * Neuron.Act snr)%Q) ∧
        (0 < GateState.Cnt gs < Go.int_max →
         PFCNeuron.Maint pnr' = PFCNeuron.Maint pnr) ∧
        (0 <= GateState.Cnt gs < Go.int_max →
         PFCNeuron.MaintGe pnr' =
           if PFCMaintParams.UseDyn (PFCDeepLayer.Maint ly)
           then (PFCNeuron.Maint pnr'
                 * PFCDeepLayer.Dyns ly (DeepDims.dtyp d)
                     (inject_Z (GateState.Cnt gs)))%Q
           else PFCNeuron.Maint pnr').
Proof.
  intros ly0 ly1 Hly Hq Hl Hli Hd Hr.
  assert (Hq1 : PFCGateParams.GateQtr (PFCDeepLayer.Gate ly1) (Time.Quarter ltime) = true).
  { unfold ly1, UpdtGateCnt. change (PFCDeepLayer.Gate ly0) with (PFCDeepLayer.Gate ly).
    by rewrite Hq. }
  assert (E1 : ly1 = PFCDeepLayer.set_GateStates
                       (UpdtCnt <$> PFCDeepLayer.GateStates ly0) ly0).
  { unfold ly1, UpdtGateCnt. change (PFCDeepLayer.Gate ly0) with (PFCDeepLayer.Gate ly).
    by rewrite Hq. }
  destruct (DeepMaint_result nt nm ly1 ltime li d Hq1 Hl Hli Hd Hr)
    as (pnrs & Hrun & Hunits).
  unfold QuarterFinal. rewrite Hly. simpl. fold ly0. fold ly1. rewrite Hrun. simpl.
  exists (PFCDeepLayer.set_PFCNeurs pnrs ly1). split; [done|]. split. { by rewrite E1. }
  intros ni nrn Hnrn Hoff.
  assert (Hnrn1 : PFCDeepLayer.Neurons ly1 !! ni = Some nrn) by (by rewrite E1).
  destruct (Hunits ni nrn Hnrn1 Hoff) as (pnr & c & gs1 & pnr1 & Hp & Hc & Hgs1 & Hm & Hres).
  assert (Hgs1' : UpdtCnt <$> Go.index (PFCDeepLayer.GateStates ly0)
                                (Neuron.SubPool nrn - 1) = Some gs1).
  { rewrite <- index_fmap. rewrite E1 in Hgs1. exact Hgs1. }
  destruct (Go.index (PFCDeepLayer.GateStates ly0) (Neuron.SubPool nrn - 1))
    as [gs|] eqn:Hgs; [|done].
  simpl in Hgs1'. injection Hgs1' as <-.
  assert (Hp0 : PFCDeepLayer.PFCNeurs ly !! ni = Some pnr) by (by rewrite E1 in Hp).
  exists gs, pnr. eexists. exists c.
  split; [done|]. split; [done|]. split; [exact Hres|]. split; [done|].
  destruct (UpdtCnt_spec gs) as (_ & _ & Hinc & Hdec).
  assert (EM : PFCDeepLayer.Maint ly1 = PFCDeepLayer.Maint ly) by (by rewrite E1).
  assert (ED : PFCDeepLayer.Dyns ly1 = PFCDeepLayer.Dyns ly) by (by rewrite E1).
  unfold MaintFmCnt in Hm. unfold MaintGeFmMaint. rewrite EM, ED. rewrite EM in Hm.
  split; [|split; [|split]].
  - intros Hneg. rewrite Hdec in Hm |- * by done.
    destruct (Z.ltb_spec (GateState.Cnt gs - 1) 0); [|lia].
    injection Hm as <-.
    destruct (PFCMaintParams.UseDyn (PFCDeepLayer.Maint ly)); simpl.
    + split; [reflexivity|]. unfold inject_Z. ring.
    + split; reflexivity.
  - intros H0. rewrite Hinc in Hm by (unfold Go.int_max; lia).
    destruct (Z.ltb_spec (GateState.Cnt gs + 1) 0); [lia|].
    destruct (Z.leb_spec (GateState.Cnt gs + 1) 1); [|lia].
    destruct (SuperIdx d c) as [si|]; simpl in Hm; [|done].
    destruct (Go.index (Layer.Neurons (AsLeabra li)) si) as [snr|] eqn:Hsnr;
      simpl in Hm; [|done].
    injection Hm as <-. exists si, snr. split; [done|]. split; [done|].
    by destruct (PFCMaintParams.UseDyn (PFCDeepLayer.Maint ly)).
  - intros Hpos. rewrite Hinc in Hm by lia.
    destruct (Z.ltb_spec (GateState.Cnt gs + 1) 0); [lia|].
    destruct (Z.leb_spec (GateState.Cnt gs + 1) 1); [lia|].
    injection Hm as <-.
    by destruct (PFCMaintParams.UseDyn (PFCDeepLayer.Maint ly)).
  - intros Hnn. rewrite Hinc by lia.
    replace (Go.sub (GateState.Cnt gs + 1) 1) with (GateState.Cnt gs).
    2:{ unfold Go.sub. rewrite wrap_id; [lia|].
        unfold Go.int_min, Go.int_max in *. lia. }
    by destruct (PFCMaintParams.UseDyn (PFCDeepLayer.Maint ly)).
Qed.

(** X19. [QuarterFinal] in a gating quarter, for a deep layer of [yN] rows
    and [xN] columns per pool and a super layer of [syN] rows and [sxN]
    columns per pool that has a unit at every index below, updates the
    counters and then the maintenance of the receiver only.  With [Cnt] the
    counter of the pool of a unit [ni] that is not off, before the update:
    an idle pool ([Cnt < 0]) gets [Maint] and [MaintGe] 0; when the pool has
    just gated ([Cnt = 0]), [Maint] is [MaintGain] times the activation of
    the unit of the super layer of index
    [ni / nn * snn + (ni mod nn / xN) mod syN * sxN + (ni mod nn) mod xN],
    with [nn = yN * xN] and [snn = syN * sxN], which is the unit of the
    same index [ni] when the two layers have the same shape; [Maint] is
    held for [Cnt > 0]; and [MaintGe] of a pool that is not idle is [Maint]
    times the value of the dynamics of type [yN / (yN / syN)] at [Cnt], or
    [Maint] without dynamics. *)
Theorem QuarterFinal_snapshot
  (GateLayerQuarterFinal : GateLayer → Time.t → GateLayer)
  (nt : gmap string (NetLayer Q)) (nm : string) (ly : PFCDeepLayer.t Q)
  (ltime : Time.t) (li : NetLayer Q) (yN xN syN sxN : Z) :
  let ly0 := with_GateLayer (GateLayerQuarterFinal (AsGateLayer ly) ltime) ly in
  getPFC nt nm = Some ly →
  PFCGateParams.GateQtr (PFCDeepLayer.Gate ly) (Time.Quarter ltime) = true →
  (1 ≤ String.length nm)%nat →
  nt !! SuperName nm = Some li →
  Layer.Dim (PFCDeepLayer.Layer ly0) 2 = Some yN →
  Layer.Dim (PFCDeepLayer.Layer ly0) 3 = Some xN →
  Layer.Dim (AsLeabra li) 2 = Some syN →
  Layer.Dim (AsLeabra li) 3 = Some sxN →
  0 < xN → 0 < syN <= yN → 0 <= sxN →
  yN * xN <= Go.int_max → syN * sxN <= Go.int_max →
  Go.len (PFCDeepLayer.Neurons ly0) <= Go.int_max →
  Go.len (Layer.Neurons (AsLeabra li)) <= Go.int_max →
  (∀ (ni : nat) (nrn : Neuron.t Q),
     PFCDeepLayer.Neurons ly0 !! ni = Some nrn → Neuron.Off nrn = false →
     is_Some (PFCDeepLayer.PFCNeurs ly !! ni) ∧
     is_Some (Go.index (PFCDeepLayer.GateStates ly0) (Neuron.SubPool nrn - 1)) ∧
     Z.of_nat ni / (yN * xN) * (syN * sxN)
       + (Z.of_nat ni mod (yN * xN) / xN) mod syN * sxN
       + (Z.of_nat ni mod (yN * xN)) mod xN
     < Go.len (Layer.Neurons (AsLeabra li))) →
  ∃ ly', QuarterFinal GateLayerQuarterFinal nt nm ltime
           = Some (<[nm := LPFCDeep ly']> nt) ∧
    PFCDeepLayer.GateStates ly' = UpdtCnt <$> PFCDeepLayer.GateStates ly0 ∧
    ∀ (ni : nat) (nrn : Neuron.t Q),
      PFCDeepLayer.Neurons ly0 !! ni = Some nrn → Neuron.Off nrn = false →
      ∃ gs pnr pnr',
        Go.index (PFCDeepLayer.GateStates ly0) (Neuron.SubPool nrn - 1) = Some gs ∧
        PFCDeepLayer.PFCNeurs ly !! ni = Some pnr ∧
        PFCDeepLayer.PFCNeurs ly' !! ni = Some pnr' ∧
        (Go.int_min < GateState.Cnt gs < 0 →
         (PFCNeuron.Maint pnr' == 0 ∧ PFCNeuron.MaintGe pnr' == 0)%Q) ∧
        (GateState.Cnt gs = 0 →
         ∃ snr,
           Go.index (Layer.Neurons (AsLeabra li))
             (Z.of_nat ni / (yN * xN) * (syN * sxN)
              + (Z.of_nat ni mod (yN * xN) / xN) mod syN * sxN
              + (Z.of_nat ni mod (yN * xN)) mod xN) = Some snr ∧
           PFCNeuron.Maint pnr' =
             (PFCMaintParams.MaintGain (PFCDeepLayer.Maint ly) * Neuron.Act snr)%Q ∧
           (syN = yN → sxN = xN →
            Layer.Neurons (AsLeabra li) !! ni = Some snr)) ∧
        (0 < GateState.Cnt gs < Go.int_max →
         PFCNeuron.Maint pnr' = PFCNeuron.Maint pnr) ∧
        (0 <= GateState.Cnt gs < Go.int_max →
         PFCNeuron.MaintGe pnr' =
           if PFCMaintParams.UseDyn (PFCDeepLayer.Maint ly)
           then (PFCNeuron.Maint pnr'
                 * PFCDeepLayer.Dyns ly (yN / (yN / syN))
                     (inject_Z (GateState.Cnt gs)))%Q
           else PFCNeuron.Maint pnr').
Proof.
  intros ly0 Hly Hq Hl Hli Hy Hx Hsy Hsx Hx0 Hsy0 Hsx0 Hnn Hsnn Hlen Hslen Hr.
  set (ly1 := UpdtGateCnt ly0 ltime).
  assert (E1 : ly1 = PFCDeepLayer.set_GateStates
                       (UpdtCnt <$> PFCDeepLayer.GateStates ly0) ly0).
  { unfold ly1, UpdtGateCnt. change (PFCDeepLayer.Gate ly0) with (PFCDeepLayer.Gate ly).
    by rewrite Hq. }
  assert (Hd : DeepMaintDims ly1 (AsLeabra li) =
               Some (DeepDims.mk xN (yN * xN) syN sxN (syN * sxN) (yN / (yN / syN)))).
  { apply DeepMaintDims_shape; try done; by rewrite E1. }
  assert (Hin : DeepMaint_in_range ly1 (AsLeabra li)
                  (DeepDims.mk xN (yN * xN) syN sxN (syN * sxN) (yN / (yN / syN)))).
  { apply DeepMaint_in_range_shape; try lia; try (by rewrite E1).
    intros ni nrn Hnrn Hoff. rewrite E1 in Hnrn. simpl in Hnrn.
    destruct (Hr ni nrn Hnrn Hoff) as (Hp & [gs Hgs] & Hsi).
    split; [by rewrite E1|]. exists (UpdtCnt gs). split; [|done].
    rewrite E1.
    change (Go.index (UpdtCnt <$> PFCDeepLayer.GateStates ly0) (Neuron.SubPool nrn - 1)
            = Some (UpdtCnt gs)).
    by rewrite index_fmap, Hgs. }
  destruct (QuarterFinal_units_dims GateLayerQuarterFinal nt nm ly ltime li _
              Hly Hq Hl Hli Hd Hin) as (ly' & Hrun & Hgsl & Hunits).
  exists ly'. split; [done|]. split; [done|]. intros ni nrn Hnrn Hoff.
  destruct (Hunits ni nrn Hnrn Hoff)
    as (gs & pnr & pnr' & c & Hgs & Hp & Hp' & Hc & Hneg & Hfirst & Hheld & Hge).
  exists gs, pnr, pnr'. repeat (split; [done|]).
  assert (Hni : 0 <= Z.of_nat ni <= Go.int_max).
  { apply lookup_lt_Some in Hnrn. unfold Go.len in Hlen. lia. }
  assert (Hn : 0 < yN * xN) by nia.
  rewrite UnitCoords_shape in Hc by lia. injection Hc as <-.
  split; [|done].
  intros Hcnt. destruct (Hfirst Hcnt) as (si & snr & Hsi & Hsnr & HM).
  destruct (Hr ni nrn Hnrn Hoff) as (_ & _ & Hlt).
  pose proof (Z.mod_pos_bound (Z.of_nat ni) (yN * xN) Hn) as Hm.
  assert (0 <= Z.of_nat ni / (yN * xN)) by (apply Z.div_pos; lia).
  assert (0 <= Z.of_nat ni mod (yN * xN) / xN) by (apply Z.div_pos; lia).
  pose proof (Z.mod_pos_bound (Z.of_nat ni mod (yN * xN)) xN Hx0).
  pose proof (Z.mod_pos_bound (Z.of_nat ni mod (yN * xN) / xN) syN ltac:(lia)).
  rewrite SuperIdx_shape in Hsi; try lia; try nia.
  injection Hsi as <-.
  exists snr. split; [done|]. split; [done|].
  intros -> ->. rewrite SuperUnit_same_shape in Hsnr by lia.
  by rewrite index_of_nat in Hsnr.
Qed.

End quarter_final.

(** ** [Gating]: the layers it writes *)

Section gating_frame.
Import leabra pbwm.
Context {F : Type} `{Float32 F} `{LeabraExt F}.
Implicit Types nt : gmap string (NetLayer F).

Lemma KeepsParams_insert_ne nt nm ly k x :
  k ≠ nm → KeepsParams nt nm ly → KeepsParams (<[k := x]> nt) nm ly.
Proof.
  intros Hne (ly1 & H1 & H2). exists ly1. by rewrite getPFC_insert_ne.
Qed.

Lemma KeepsParams_set nt nm ly gsl ly1 :
  PFCDeepLayer.Gate ly1 = PFCDeepLayer.Gate ly →
  PFCDeepLayer.Maint ly1 = PFCDeepLayer.Maint ly →
  KeepsParams (<[nm := LPFCDeep (PFCDeepLayer.set_GateStates gsl ly1)]> nt) nm ly.
Proof. intros E1 E2. eexists. rewrite getPFC_insert. done. Qed.

Lemma ClearMaint_run nt nm pool nt' ly :
  ClearMaint nt nm pool = Some nt' → KeepsParams nt nm ly →
  (∀ k, k ≠ MaintName nm → k ≠ SuperName (MaintName nm) → nt' !! k = nt !! k) ∧
  KeepsParams nt' nm ly.
Proof.
  unfold ClearMaint. intros Hrun Hk.
  destruct (MaintPFC nt nm) as [[[mnm pfcm]|]|] eqn:Hm; simpl in Hrun; [| |done].
  2:{ by simplify_eq. }
  unfold MaintPFC in Hm.
  destruct (Nat.ltb_spec (String.length nm) 4) as [|Hlen]; [done|].
  destruct (nt !! MaintName nm) as [[p|?]|] eqn:Hlk; [|done|done].
  injection Hm as <- <-.
  destruct (Go.index _ pool) as [gs|]; simpl in Hrun; [|done].
  destruct (1 <=? GateState.Cnt gs); [|by simplify_eq].
  destruct (Go.store _ _ _) as [gsl|]; simpl in Hrun; [|done].
  destruct (SuperPFC _ _) as [x|] eqn:Hs; simpl in Hrun; [|done].
  apply SuperPFC_run in Hs as [Hl1 Hx].
  apply DecaySuper_run in Hrun as (dnm & li & b & -> & ->).
  destruct Hx as [-> Hli].
  split.
  - intros k Hk1 Hk2. by rewrite !lookup_insert_ne.
  - apply KeepsParams_insert_ne. { by apply SuperName_MaintName_ne. }
    destruct (decide (MaintName nm = nm)) as [E|Hne].
    + destruct Hk as (ly1 & H1 & H2 & H3).
      apply getPFC_Some in H1. rewrite E in Hlk |- *.
      assert (p = ly1) as -> by congruence.
      by apply KeepsParams_set.
    + by apply KeepsParams_insert_ne.
Qed.

Lemma GatingPool_run nt nm gi nt' ly :
  GatingPool nm gi nt = Some nt' → KeepsParams nt nm ly →
  (∀ k, ¬ GatingWrites nm ly k → nt' !! k = nt !! k) ∧ KeepsParams nt' nm ly.
Proof.
  unfold GatingPool. intros Hrun Hk.
  destruct Hk as (ly1 & Hly1 & EG & EM).
  rewrite Hly1 in Hrun. simpl in Hrun.
  destruct (Go.index _ gi) as [gs|]; simpl in Hrun; [|done].
  destruct (negb (GateState.Now gs)).
  { simplify_eq. split; [done|]. by exists ly1. }
  match type of Hrun with
  | (mbind _ ?m) = _ => destruct m as [nt1|] eqn:Hmid end; simpl in Hrun; [|done].
  assert (Hmid' : (∀ k, ¬ GatingWrites nm ly k → nt1 !! k = nt !! k) ∧
                  KeepsParams nt1 nm ly).
  { destruct (fgt (GateState.Act gs) (of_int 0)).
    2:{ simplify_eq. split; [done|]. by exists ly1. }
    destruct (setCnt nt nm gi 0) as [nt0|] eqn:Hset; simpl in Hmid; [|done].
    apply setCnt_run in Hset as (ly0 & gsl & Hly0 & ->).
    assert (ly0 = ly1) as -> by congruence.
    assert (K0 : KeepsParams
              (<[nm := LPFCDeep (PFCDeepLayer.set_GateStates gsl ly1)]> nt) nm ly).
    { by apply KeepsParams_set. }
    rewrite EG, EM in Hmid.
    destruct (PFCGateParams.OutGate (PFCDeepLayer.Gate ly)) eqn:Hout.
    - destruct (PFCMaintParams.OutClearMaint (PFCDeepLayer.Maint ly)) eqn:Hclr.
      + destruct (ClearMaint_run _ _ _ _ ly Hmid K0) as [Hfr K1].
        split; [|done]. intros k Hw.
        rewrite Hfr.
        * rewrite lookup_insert_ne; [done|]. intros <-. apply Hw. by left.
        * intros ->. apply Hw. right. right. auto.
        * intros ->. apply Hw. right. right. auto.
      + simplify_eq. split; [|done]. intros k Hw.
        rewrite lookup_insert_ne; [done|]. intros <-. apply Hw. by left.
    - destruct (SuperPFC _ _) as [x|] eqn:Hs; simpl in Hmid; [|done].
      apply SuperPFC_run in Hs as [Hl1 Hx].
      apply DecaySuper_run in Hmid as (dnm & li & b & -> & ->).
      destruct Hx as [-> Hli]. split.
      + intros k Hw. rewrite !lookup_insert_ne; [done| |].
        * intros <-. apply Hw. by left.
        * intros <-. apply Hw. right. left. auto.
      + apply KeepsParams_insert_ne; [|done]. by apply SuperName_ne. }
  destruct Hmid' as [Hfr (ly2 & Hly2 & EG2 & EM2)].
  rewrite Hly2 in Hrun. simpl in Hrun.
  destruct (Go.index _ gi) as [gs2|]; simpl in Hrun; [|done].
  destruct (_ <=? _).
  - apply setCnt_run in Hrun as (ly3 & gsl & Hly3 & ->).
    assert (ly3 = ly2) as -> by congruence.
    split; [|by apply KeepsParams_set].
    intros k Hw. rewrite lookup_insert_ne; [by apply Hfr|].
    intros <-. apply Hw. by left.
  - simplify_eq. split; [done|]. by exists ly2.
Qed.

(** X20. [Gating] writes no layer but the receiver, its super layer for a
    maintenance gate, and the maintenance layer and that layer's super layer
    for an output gate with [OutClearMaint]; the receiver keeps its gating
    and maintenance parameters. *)
Theorem Gating_frame nt (nm : string) (ly : PFCDeepLayer.t F) (ltime : Time.t) nt' :
  getPFC nt nm = Some ly → Gating nt nm ltime = Some nt' →
  (∀ k, ¬ GatingWrites nm ly k → nt' !! k = nt !! k) ∧
  ∃ ly', getPFC nt' nm = Some ly' ∧
    PFCDeepLayer.Gate ly' = PFCDeepLayer.Gate ly ∧
    PFCDeepLayer.Maint ly' = PFCDeepLayer.Maint ly.
Proof.
  intros Hly. unfold Gating. rewrite Hly. simpl.
  destruct (_ && _).
  { intros [= <-]. split; [done|]. by exists ly. }
  intros Hrun.
  eapply (for_state_inv_run
    (λ _ nt1, (∀ k, ¬ GatingWrites nm ly k → nt1 !! k = nt !! k) ∧
              KeepsParams nt1 nm ly)); [| |exact Hrun].
  - split; [done|]. by exists ly.
  - intros k gs nt1 nt2 _ [Hfr Hk] Hstep.
    destruct (GatingPool_run _ _ _ _ ly Hstep Hk) as [Hfr2 Hk2].
    split; [|done]. intros j Hw. rewrite Hfr2 by done. by apply Hfr.
Qed.

End gating_frame.

(** ** [RecGateAct] *)

Section rec_gate.
Import leabra pbwm.
Context {F : Type} `{Float32 F} `{LeabraExt F}.

Lemma Recorded_ext (ly : PFCDeepLayer.t F) (C C' : nat → Prop) pnrs :
  (∀ ni, C ni ↔ C' ni) → Recorded ly C pnrs → Recorded ly C' pnrs.
Proof.
  intros HC [Hlen Hr]. split; [done|]. intros ni pnr Hp.
  destruct (Hr ni pnr Hp) as (pnr' & H1 & H2 & H3 & H4 & H5).
  exists pnr'. repeat (split; [done|]). split.
  - destruct H4 as [?|(nrn & ? & ? & ? & ?)]; [by left|].
    right. exists nrn. repeat (split; [done|]). by apply HC.
  - intros HC'. apply H5. by apply HC.
Qed.

Lemma RecGateUnit_step (ly : PFCDeepLayer.t F) (C : nat → Prop) (ni : nat) pnrs :
  length (PFCDeepLayer.PFCNeurs ly) = length (PFCDeepLayer.Neurons ly) →
  (ni < length (PFCDeepLayer.Neurons ly))%nat →
  Recorded ly C pnrs →
  ∃ pnrs', RecGateUnit ly (Z.of_nat ni) pnrs = Some pnrs' ∧
           Recorded ly (λ n, C n ∨ n = ni) pnrs'.
Proof.
  intros Hpar Hni [Hlen Hr]. unfold RecGateUnit.
  destruct (lookup_lt_is_Some_2 (PFCDeepLayer.Neurons ly) ni Hni) as [nrn Hnrn].
  rewrite !index_of_nat, Hnrn. simpl.
  destruct (lookup_lt_is_Some_2 (PFCDeepLayer.PFCNeurs ly) ni) as [pnr0 Hp0]; [lia|].
  destruct (Neuron.Off nrn) eqn:Hoff.
  - exists pnrs. split; [done|]. split; [done|]. intros n pnr Hp.
    destruct (Hr n pnr Hp) as (pnr' & H1 & H2 & H3 & H4 & H5).
    exists pnr'. repeat (split; [done|]). split.
    + destruct H4 as [?|(nrn' & ? & ? & ? & ?)]; [by left|].
      right. exists nrn'. repeat (split; [done|]). by left.
    + intros [HC| ->]; [by apply H5|]. intros nrn' Hn' Hoff'. congruence.
  - destruct (Hr ni pnr0 Hp0) as (pk & Hk & Hk2 & Hk3 & _).
    rewrite Hk. simpl.
    rewrite (store_Some _ _ _ pk) by (by rewrite index_of_nat).
    rewrite Nat2Z.id. eexists. split; [done|]. split.
    { by rewrite length_insert. }
    intros n pnr Hp. destruct (decide (n = ni)) as [->|Hne].
    + rewrite list_lookup_insert_eq by (by eapply lookup_lt_Some).
      eexists. split; [done|]. simplify_eq. simpl.
      split; [done|]. split; [done|]. split.
      * right. exists nrn. repeat (split; [done|]). by right.
      * intros _ nrn' Hn' _. congruence.
    + rewrite list_lookup_insert_ne by done.
      destruct (Hr n pnr Hp) as (pnr' & H1 & H2 & H3 & H4 & H5).
      exists pnr'. repeat (split; [done|]). split.
      * destruct H4 as [?|(nrn' & ? & ? & ? & ?)]; [by left|].
        right. exists nrn'. repeat (split; [done|]). by left.
      * intros [HC|?]; [by apply H5|done].
Qed.

Lemma RecGate_units (ly : PFCDeepLayer.t F) (C : nat → Prop) (lo hi : Z) pnrs :
  length (PFCDeepLayer.PFCNeurs ly) = length (PFCDeepLayer.Neurons ly) →
  (lo < hi → 0 <= lo ∧ hi <= Go.len (PFCDeepLayer.Neurons ly)) →
  Recorded ly C pnrs →
  ∃ pnrs', Go.for_count (RecGateUnit ly) lo hi pnrs = Some pnrs' ∧
           Recorded ly (λ n, C n ∨ lo <= Z.of_nat n < hi) pnrs'.
Proof.
  intros Hpar Hrange Hrec. unfold Go.for_count.
  destruct (for_state_inv
    (λ (j : nat) ps, Recorded ly (λ n, C n ∨ lo <= Z.of_nat n < lo + Z.of_nat j) ps)
    (λ (_ : Z) i s, RecGateUnit ly i s) (seqZ lo (hi - lo)) pnrs)
    as (pnrs' & Hrun & Hfin).
  - eapply Recorded_ext; [|exact Hrec]. intros n. split; [by left|].
    intros [?|?]; [done|lia].
  - intros j x ps Hx Hps. apply lookup_seqZ in Hx as [-> Hj].
    assert (0 <= lo ∧ hi <= Go.len (PFCDeepLayer.Neurons ly)) as [Hlo Hhi]
      by (apply Hrange; lia).
    unfold Go.len in Hhi.
    replace (lo + Z.of_nat j) with (Z.of_nat (Z.to_nat (lo + Z.of_nat j))) by lia.
    destruct (RecGateUnit_step ly
                (λ n, C n ∨ lo <= Z.of_nat n < lo + Z.of_nat j)
                (Z.to_nat (lo + Z.of_nat j)) ps Hpar)
      as (ps' & Hstep & Hps'); [lia|exact Hps|].
    exists ps'. split; [done|].
    eapply Recorded_ext; [|exact Hps']. intros n. simpl. split.
    + intros [[?|?]|?]; [by left|right; lia|right; lia].
    + intros [?|?]; [by left; left|].
      destruct (decide (n = Z.to_nat (lo + Z.of_nat j))); [by right|].
      left. right. lia.
  - exists pnrs'. split; [done|].
    eapply Recorded_ext; [|exact Hfin]. intros n. simpl.
    rewrite length_seqZ. split; intros [?|?]; try (by left); right; lia.
Qed.

(** X21. [RecGateAct] copies [Act] into [ActG] for the units that are not
    off in the unit range of a pool that gates now; it leaves [Maint] and
    [MaintGe] of every unit alone, and all of a unit that is off or in no
    such range. *)
Theorem RecGateAct_records (pools : list Pool.t) (ly : PFCDeepLayer.t F) :
  RecGate_in_range pools ly →
  ∃ pnrs, RecGateAct pools ly = Some (PFCDeepLayer.set_PFCNeurs pnrs ly) ∧
    length pnrs = length (PFCDeepLayer.PFCNeurs ly) ∧
    ∀ (ni : nat) pnr, PFCDeepLayer.PFCNeurs ly !! ni = Some pnr →
      ∃ pnr', pnrs !! ni = Some pnr' ∧
        PFCNeuron.Maint pnr' = PFCNeuron.Maint pnr ∧
        PFCNeuron.MaintGe pnr' = PFCNeuron.MaintGe pnr ∧
        (∀ nrn, PFCDeepLayer.Neurons ly !! ni = Some nrn →
           Neuron.Off nrn = false →
           GatesNow pools ly (length (PFCDeepLayer.GateStates ly)) ni →
           PFCNeuron.ActG pnr' = Neuron.Act nrn) ∧
        (¬ GatesNow pools ly (length (PFCDeepLayer.GateStates ly)) ni →
         pnr' = pnr) ∧
        (∀ nrn, PFCDeepLayer.Neurons ly !! ni = Some nrn →
           Neuron.Off nrn = true → pnr' = pnr).
Proof.
  intros [Hpar Hpools]. unfold RecGateAct.
  destruct (for_state_inv
    (λ (k : nat) ps, Recorded ly (GatesNow pools ly k) ps)
    (RecGatePool pools ly) (PFCDeepLayer.GateStates ly) (PFCDeepLayer.PFCNeurs ly))
    as (pnrs & Hrun & [Hlen Hfin]).
  - split; [done|]. intros ni pnr Hp. exists pnr. repeat (split; [done|]).
    split; [by left|]. intros (gi & ? & ? & ? & _). lia.
  - intros k gs ps Hgs Hps. unfold RecGatePool.
    destruct (GateState.Now gs) eqn:Hnow; simpl.
    + destruct (Hpools k gs Hgs Hnow) as (pl & Hpl & Hrange).
      replace (1 + Z.of_nat k) with (Z.of_nat (S k)) by lia.
      rewrite index_of_nat, Hpl. simpl.
      destruct (RecGate_units ly (GatesNow pools ly k) (Pool.StIdx pl) (Pool.EdIdx pl)
                  ps Hpar Hrange Hps)
        as (ps' & Hstep & Hps').
      exists ps'. split; [done|].
      eapply Recorded_ext; [|exact Hps']. intros n. simpl. split.
      * intros [(gi & g & p & Hgi & ? & ? & ? & ?)|Hin].
        -- exists gi, g, p. split; [lia|done].
        -- exists k, gs, pl. split; [lia|done].
      * intros (gi & g & p & Hgi & Hg & Hn & Hp & Hin).
        destruct (decide (gi = k)) as [->|Hne].
        -- right. simplify_eq. done.
        -- left. exists gi, g, p. split; [lia|done].
    + exists ps. split; [done|].
      eapply Recorded_ext; [|exact Hps]. intros n. split.
      * intros (gi & g & p & Hgi & ?). exists gi, g, p. split; [lia|done].
      * intros (gi & g & p & Hgi & Hg & Hn & Hrest).
        destruct (decide (gi = k)) as [->|Hne]; [congruence|].
        exists gi, g, p. split; [lia|done].
  - rewrite Hrun. simpl. exists pnrs. split; [done|]. split; [done|].
    intros ni pnr Hp. destruct (Hfin ni pnr Hp) as (pnr' & H1 & H2 & H3 & H4 & H5).
    exists pnr'. split; [done|]. split; [done|]. split; [done|].
    assert (Heta : PFCNeuron.ActG pnr' = PFCNeuron.ActG pnr → pnr' = pnr).
    { destruct pnr, pnr'. simpl in *. congruence. }
    split; [|split].
    + intros nrn Hn Hoff HC. by apply H5.
    + intros HnC. apply Heta.
      destruct H4 as [?|(nrn & ? & ? & ? & ?)]; [done|]. by destruct HnC.
    + intros nrn Hn Hoff. apply Heta.
      destruct H4 as [?|(nrn' & ? & ? & ? & ?)]; [done|]. congruence.
Qed.

End rec_gate.

(** ** [ClearMaint] *)

Section clear_maint.
Import leabra pbwm.
Context {F : Type} `{Float32 F} `{LeabraExt F}.

(** X22. [ClearMaint] with the maintenance layer present: it panics for a
    pool outside that layer's gate states; it changes nothing for a pool
    with [Cnt < 1]; and for [Cnt >= 1] it sets [Cnt] of that pool to -1 and
    decays the pool in the super layer of the maintenance layer by the
    [Clear] of the maintenance layer, and panics when that super layer is
    absent or the decay panics. *)
Theorem ClearMaint_effect (nt : gmap string (NetLayer F)) (nm : string)
  (pool : Z) (pfcm : PFCDeepLayer.t F) :
  (4 ≤ String.length nm)%nat →
  nt !! MaintName nm = Some (LPFCDeep pfcm) →
  match Go.index (PFCDeepLayer.GateStates pfcm) pool with
  | None => ClearMaint nt nm pool = None
  | Some gs =>
      if 1 <=? GateState.Cnt gs then
        match nt !! SuperName (MaintName nm) with
        | None => ClearMaint nt nm pool = None
        | Some li =>
            ClearMaint nt nm pool =
              (b ← DecayStatePool (AsLeabra li) pool
                     (PFCMaintParams.Clear (PFCDeepLayer.Maint pfcm));
               Some (<[SuperName (MaintName nm) := with_leabra b li]>
                       (<[MaintName nm :=
                            LPFCDeep (PFCDeepLayer.set_GateStates
                                        (<[Z.to_nat pool := GateState.set_Cnt (-1) gs]>
                                           (PFCDeepLayer.GateStates pfcm)) pfcm)]> nt)))
        end
      else ClearMaint nt nm pool = Some nt
  end.
Proof.
  intros Hl Hm. unfold ClearMaint, MaintPFC.
  destruct (Nat.ltb_spec (String.length nm) 4); [lia|]. rewrite Hm. simpl.
  destruct (Go.index (PFCDeepLayer.GateStates pfcm) pool) as [gs|] eqn:Hgs;
    simpl; [|done].
  destruct (1 <=? GateState.Cnt gs); [|done].
  rewrite (store_Some _ _ _ gs) by done. simpl.
  assert (Hl1 : (1 ≤ String.length (MaintName nm))%nat).
  { rewrite MaintName_length. lia. }
  rewrite (SuperPFC_spec _ _ Hl1).
  rewrite lookup_insert_ne by (apply not_eq_sym, SuperName_ne; done).
  destruct (nt !! SuperName (MaintName nm)) as [li|]; simpl; done.
Qed.

End clear_maint.

(** ** [PFCDeepLayer.Build] and [InitActs] *)

Section build_more.
Import leabra pbwm.
Context {F : Type} `{Float32 F} `{Float32Lit F} `{LeabraExt F}.

(** X23. [PFCDeepLayer.Build] returns the error of [GateLayer.Build]; with
    no error it leaves one [PFCNeuron] per unit, all values 0, which
    [InitActs] after it does not change; with an error it leaves [PFCNeurs]
    as they are.  [InitActs] sets all values of all [PFCNeurs] to 0 and
    keeps their number and the parameters. *)
Theorem Build_InitActs_PFCNeurs
  (GateLayerBuild : GateLayer → GateLayer * option string)
  (GateLayerInitActs : GateLayer → GateLayer) (ly : PFCDeepLayer.t F) :
  let zero := PFCNeuron.mk (of_int 0) (of_int 0) (of_int 0) in
  let b := Build GateLayerBuild ly in
  let i := InitActs GateLayerInitActs ly in
  (snd b = None →
   PFCDeepLayer.PFCNeurs (fst b)
     = replicate (length (PFCDeepLayer.Neurons (fst b))) zero ∧
   PFCDeepLayer.PFCNeurs (InitActs GateLayerInitActs (fst b))
     = PFCDeepLayer.PFCNeurs (fst b)) ∧
  (is_Some (snd b) → PFCDeepLayer.PFCNeurs (fst b) = PFCDeepLayer.PFCNeurs ly) ∧
  snd b = snd (GateLayerBuild (AsGateLayer ly)) ∧
  PFCDeepLayer.PFCNeurs i
    = replicate (length (PFCDeepLayer.PFCNeurs ly)) zero ∧
  PFCDeepLayer.Gate i = PFCDeepLayer.Gate ly ∧
  PFCDeepLayer.Maint i = PFCDeepLayer.Maint ly.
Proof.
  intros zero b i. subst b i. unfold Build, InitActs.
  destruct (GateLayerBuild (AsGateLayer ly)) as [g [e|]]; simpl.
  - split; [done|]. split; [done|]. split; [done|]. split; [|done].
    by apply const_fmap.
  - split.
    { intros _. split; [done|]. by rewrite fmap_replicate. }
    split. { by intros [? ?]. }
    split; [done|]. split; [|done].
    by apply const_fmap.
Qed.

End build_more.

(** Runs of the PFC deep layer on the examples. *)

Section pbwm_more_runs.
Import leabra pbwm.

Lemma ClearMaint_effect_witness :
  ∃ nt' ly' gs',
    ClearMaint (Ex.onet (GateState.mk 1%Q true 0) (GateState.mk 0%Q false 2))
      "PFCoutD" 0 = Some nt' ∧
    getPFC nt' "PFCmntD" = Some ly' ∧
    PFCDeepLayer.GateStates ly' !! 0%nat = Some gs' ∧ GateState.Cnt gs' = -1.
Proof.
  pose proof (ClearMaint_effect
    (Ex.onet (GateState.mk 1%Q true 0) (GateState.mk 0%Q false 2))
    "PFCoutD" 0 (Ex.deep (GateState.mk 0%Q false 2))
    ltac:(simpl; lia) eq_refl) as Hc.
  simpl in Hc.
  change (Ex.onet _ _ !! SuperName (MaintName "PFCoutD"))
    with (Some (LLeabra Ex.super)) in Hc.
  rewrite Hc. eexists _, _, _. split; [reflexivity|].
  split; [reflexivity|]. split; reflexivity.
Defined.

Lemma paired_layer_names_witness :
  MaintName "PFCoutD" = "PFCmntD"%string ∧
  SuperName (MaintName "PFCoutD") = "PFCmnt"%string.
Proof.
  destruct (paired_layer_names "PFC") as (_ & _ & H3 & H4 & _).
  split; [exact H3|exact H4].
Defined.

Lemma paired_layer_panics_witness :
  ClearMaint (Ex.pnet (GateState.mk 0%Q false 2)) "Out" 0 = None.
Proof.
  destruct (paired_layer_panics (Ex.pnet (GateState.mk 0%Q false 2)) "Out")
    as (H1 & _).
  destruct H1 as [_ H1]; [simpl; lia|]. apply H1.
Defined.

Lemma QuarterFinal_snapshot_witness :
  ∃ ly' pnr',
    QuarterFinal (λ g _, g) (Ex.pnet (GateState.mk 0%Q false 0)) "PFCmntD" (Time.mk 0 1)
      = Some (<["PFCmntD"%string := LPFCDeep ly']> (Ex.pnet (GateState.mk 0%Q false 0))) ∧
    PFCDeepLayer.PFCNeurs ly' !! 1%nat = Some pnr' ∧
    PFCNeuron.Maint pnr' = ((4 # 5) * (1 # 4))%Q.
Proof.
  destruct (QuarterFinal_snapshot (λ g _, g) (Ex.pnet (GateState.mk 0%Q false 0))
              "PFCmntD" (Ex.deep (GateState.mk 0%Q false 0)) (Time.mk 0 1)
              (LLeabra Ex.super) 1 2 1 2)
    as (ly' & Hrun & _ & Hunits);
    [reflexivity | reflexivity | simpl; lia | reflexivity | reflexivity
    | reflexivity | reflexivity | reflexivity | lia | lia | lia
    | vm_compute; discriminate | vm_compute; discriminate
    | vm_compute; discriminate | vm_compute; discriminate | |].
  { intros [|[|ni]] nrn Hnrn Hoff; [| |done]; injection Hnrn as <-;
      (split; [by eexists|]); (split; [by eexists|]); vm_compute; reflexivity. }
  destruct (Hunits 1%nat (Ex.unit 1 0 0) eq_refl eq_refl)
    as (gs & pnr & pnr' & Hgs & Hp & Hp' & _ & Hsnap & _).
  vm_compute in Hgs. injection Hgs as <-.
  destruct (Hsnap eq_refl) as (snr & Hsnr & HM & _).
  vm_compute in Hsnr. injection Hsnr as <-.
  exists ly', pnr'. split; [exact Hrun|]. split; [exact Hp'|exact HM].
Defined.

Lemma DeepMaint_dims_witness :
  DeepMaint (<["PFCmnt"%string := LLeabra Ex.super_tall]>
               (Ex.pnet (GateState.mk 0%Q false 0)))
    "PFCmntD" (Ex.deep (GateState.mk 0%Q false 0)) (Time.mk 0 1) = None.
Proof.
  destruct (DeepMaint_dims
    (<["PFCmnt"%string := LLeabra Ex.super_tall]> (Ex.pnet (GateState.mk 0%Q false 0)))
    "PFCmntD" (Ex.deep (GateState.mk 0%Q false 0)) (Time.mk 0 1)
    (LLeabra Ex.super_tall) 1 2 2 2) as [Hbad _];
    [reflexivity | simpl; lia | reflexivity | reflexivity | reflexivity
    | reflexivity | reflexivity |].
  apply Hbad. right. simpl. lia.
Defined.

Lemma DeepMaint_frame_witness :
  ∃ ly', DeepMaint (Ex.pnet (GateState.mk 0%Q false 0)) "PFCmntD"
           (Ex.deep (GateState.mk 0%Q false 0)) (Time.mk 0 1) = Some ly' ∧
         PFCDeepLayer.GateStates ly' = [GateState.mk 0%Q false 0] ∧
         length (PFCDeepLayer.PFCNeurs ly') = 2%nat.
Proof.
  destruct (DeepMaint (Ex.pnet (GateState.mk 0%Q false 0)) "PFCmntD"
              (Ex.deep (GateState.mk 0%Q false 0)) (Time.mk 0 1)) as [ly'|] eqn:E;
    [|by vm_compute in E].
  destruct (DeepMaint_frame _ _ _ _ _ E) as (_ & HG & _ & _ & _ & HL & _).
  exists ly'. split; [done|]. split; [exact HG|exact HL].
Defined.

Lemma Gating_frame_witness :
  ∃ nt', Gating (Ex.onet (GateState.mk 1%Q true 0) (GateState.mk 0%Q false 2))
           "PFCoutD" (Time.mk 0 0) = Some nt' ∧
         nt' !! "Other"%string = Some (LLeabra Ex.super).
Proof.
  destruct (Gating (Ex.onet (GateState.mk 1%Q true 0) (GateState.mk 0%Q false 2))
              "PFCoutD" (Time.mk 0 0)) as [nt'|] eqn:E; [|by vm_compute in E].
  destruct (Gating_frame
              (Ex.onet (GateState.mk 1%Q true 0) (GateState.mk 0%Q false 2))
              "PFCoutD" (Ex.out_deep (GateState.mk 1%Q true 0))
              (Time.mk 0 0) nt' eq_refl E) as [Hfr _].
  exists nt'. split; [done|]. rewrite Hfr; [reflexivity|].
  intros [Hk|[[_ Hk]|(_ & _ & [Hk|Hk])]]; vm_compute in Hk; discriminate.
Defined.

Lemma Ex_rec_in_range (gs : GateState.t Q) : RecGate_in_range Ex.pools (Ex.out_deep gs).
Proof.
  split; [done|]. intros [|gi] g Hg Hnow; simpl in Hg; [|done].
  exists (Pool.mk 0 2). split; [done|]. intros _. unfold Go.len. simpl. lia.
Qed.

Lemma RecGateAct_records_witness :
  ∃ pnrs pnr',
    RecGateAct Ex.pools (Ex.out_deep (GateState.mk 1%Q true 0))
      = Some (PFCDeepLayer.set_PFCNeurs pnrs (Ex.out_deep (GateState.mk 1%Q true 0))) ∧
    pnrs !! 1%nat = Some pnr' ∧ PFCNeuron.ActG pnr' = (1 # 4)%Q.
Proof.
  destruct (RecGateAct_records Ex.pools (Ex.out_deep (GateState.mk 1%Q true 0))
              (Ex_rec_in_range _)) as (pnrs & Hrun & _ & Hunits).
  destruct (Hunits 1%nat _ eq_refl) as (pnr' & Hp' & _ & _ & HA & _).
  exists pnrs, pnr'. split; [done|]. split; [done|].
  apply (HA (Ex.unit 1 (1 # 4) 0)); [done|done|].
  exists 0%nat, (GateState.mk 1%Q true 0), (Pool.mk 0 2).
  repeat split; simpl; try done; lia.
Defined.

End pbwm_more_runs.

(** ** Loops with state that panic *)

Section go_stuck.
Context {A S : Type}.

(** A loop whose body panics at one iteration panics. *)
Lemma for_state_stuck (P : S → Prop) (body : Z → A → S → option S)
  (l : list A) (s : S) (k : nat) (x : A) :
  P s →
  (∀ (j : nat) (y : A) (s1 s2 : S), l !! j = Some y → P s1 →
     body (Z.of_nat j) y s1 = Some s2 → P s2) →
  l !! k = Some x →
  (∀ s1, P s1 → body (Z.of_nat k) x s1 = None) →
  Go.for_state body 0 l s = None.
Proof.
  assert (G : ∀ (l : list A) (n k : nat) (s : S),
    P s →
    (∀ (j : nat) (y : A) (s1 s2 : S), l !! j = Some y → P s1 →
       body (Z.of_nat (n + j)) y s1 = Some s2 → P s2) →
    l !! k = Some x →
    (∀ s1, P s1 → body (Z.of_nat (n + k)) x s1 = None) →
    Go.for_state body (Z.of_nat n) l s = None).
  { clear l s k. induction l as [|y l IH]; intros n k s HP Hstep Hk Hfail.
    - done.
    - simpl. destruct k as [|k].
      + simpl in Hk. injection Hk as ->.
        rewrite Nat.add_0_r in Hfail. by rewrite (Hfail s HP).
      + destruct (body (Z.of_nat n) y s) as [s2|] eqn:Hb; simpl; [|done].
        replace (Z.of_nat n + 1) with (Z.of_nat (Datatypes.S n)) by lia.
        apply (IH (Datatypes.S n) k s2).
        * apply (Hstep 0%nat y s s2 eq_refl HP). by rewrite Nat.add_0_r.
        * intros j z s1 s3 Hz HP1 Hb1.
          apply (Hstep (Datatypes.S j) z s1 s3 Hz HP1).
          by replace (n + Datatypes.S j)%nat with (Datatypes.S n + j)%nat by lia.
        * done.
        * intros s1 HP1.
          replace (Datatypes.S n + k)%nat with (n + Datatypes.S k)%nat by lia.
          by apply Hfail. }
  intros HP Hstep Hk Hfail. by apply (G l 0%nat k s).
Qed.

End go_stuck.

(** ** [SendPVAct]: the broadcast, its panics, idempotence *)

Section pv_more.
Import leabra pvlv.
Context {F : Type} `{Float32 F}.

Lemma SendPVUnit_run (nrns : list (Neuron.t F)) (mnrs : list (ModNeuron.t F)) :
  (length nrns ≤ length mnrs)%nat →
  Go.for_state SendPVUnit 0 nrns mnrs = Some (Broadcast nrns mnrs).
Proof.
  intros Hlen.
  destruct (for_state_inv
              (λ k m, length m = length mnrs ∧ SendPVUnit_inv nrns mnrs k m)
              SendPVUnit nrns mnrs) as (mnrs' & Hrun & Hl & Hinv).
  - split; [done|]. intros pi. destruct (decide (pi < 0)%nat); [lia|done].
  - intros k pnr m1 Hpnr [Hl1 Hinv]. unfold SendPVUnit.
    assert (Hk : (k < length m1)%nat).
    { apply lookup_lt_Some in Hpnr. lia. }
    destruct (lookup_lt_is_Some_2 _ _ Hk) as [mnr Hmnr].
    rewrite index_of_nat, Hmnr. simpl.
    rewrite (store_Some _ _ _ mnr) by (by rewrite index_of_nat).
    rewrite Nat2Z.id. eexists. split; [done|].
    split; [by rewrite length_insert|].
    intros pi. destruct (decide (pi = k)) as [->|Hne].
    + rewrite list_lookup_insert_eq by done.
      destruct (decide (k < S k)%nat); [|lia]. by rewrite Hpnr.
    + rewrite list_lookup_insert_ne by done. rewrite (Hinv pi).
      destruct (decide (pi < k)%nat), (decide (pi < S k)%nat); try lia; done.
  - rewrite Hrun. f_equal. apply list_eq. intros pi. rewrite (Hinv pi).
    unfold Broadcast.
    destruct (decide (pi < length nrns)%nat) as [Hlt|Hge].
    + rewrite lookup_app_l by (by rewrite length_fmap).
      by rewrite list_lookup_fmap.
    + rewrite lookup_app_r by (rewrite length_fmap; lia).
      rewrite length_fmap, lookup_drop. f_equal. lia.
Qed.

Lemma SendPVUnit_short (nrns : list (Neuron.t F)) (mnrs : list (ModNeuron.t F)) :
  (length mnrs < length nrns)%nat →
  Go.for_state SendPVUnit 0 nrns mnrs = None.
Proof.
  intros Hlen.
  destruct (lookup_lt_is_Some_2 nrns (length mnrs) Hlen) as [pnr Hpnr].
  apply (for_state_stuck (λ m, length m = length mnrs) _ _ _ (length mnrs) pnr);
    [done| |done|].
  - intros j y s1 s2 _ Hl. unfold SendPVUnit.
    destruct (Go.index s1 (Z.of_nat j)) as [m|] eqn:Hm; simpl; [|done].
    rewrite (store_Some _ _ _ m) by done. intros [= <-].
    by rewrite length_insert.
  - intros s1 Hl. unfold SendPVUnit. rewrite index_of_nat.
    rewrite (lookup_ge_None_2 s1) by lia. done.
Qed.

Lemma Broadcast_length (nrns : list (Neuron.t F)) mnrs :
  (length nrns ≤ length mnrs)%nat → length (Broadcast nrns mnrs) = length mnrs.
Proof.
  intros Hl. unfold Broadcast. rewrite length_app, length_fmap, length_drop. lia.
Qed.

Lemma Broadcast_idemp (nrns : list (Neuron.t F)) mnrs :
  Broadcast nrns (Broadcast nrns mnrs) = Broadcast nrns mnrs.
Proof.
  unfold Broadcast at 1 3. f_equal. unfold Broadcast.
  rewrite drop_app_length'; [done|]. by rewrite length_fmap.
Qed.

Lemma Received_idemp (ly : PVLayer.t F) rly :
  Received ly (Received ly rly) = Received ly rly.
Proof. unfold Received. simpl. by rewrite Broadcast_idemp. Qed.

Lemma SendPVAct_fit (nt : gmap string (NetLayer F)) (ly : PVLayer.t F) :
  Receivers_fit nt ly →
  ∃ nt', SendPVAct nt ly = Some nt' ∧
         SendPV_fit_inv nt ly (length (PVLayer.PVReceivers ly)) nt'.
Proof.
  intros Hres. unfold SendPVAct.
  apply (for_state_inv (SendPV_fit_inv nt ly)).
  - intros r. split; [done|]. simpl. intros Hin. by apply elem_of_nil in Hin.
  - intros k r nt1 Hr Hinv. unfold SendPVTo.
    assert (Hrin : r ∈ PVLayer.PVReceivers ly) by (by eapply list_elem_of_lookup_2).
    destruct (Hres r Hrin) as (rly & Hrly & Hl).
    assert (Htk : take (S k) (PVLayer.PVReceivers ly)
                  = take k (PVLayer.PVReceivers ly) ++ [r]).
    { by apply take_S_r. }
    assert (Hcur : ∃ rly1, nt1 !! r = Some (LMod rly1) ∧
               Received ly rly1 = Received ly rly ∧
               (length (PVLayer.Neurons ly) ≤ length (ModLayer.ModNeurs rly1))%nat).
    { destruct (Hinv r) as [Hout Hin].
      destruct (decide (r ∈ take k (PVLayer.PVReceivers ly))) as [Hd|Hd].
      - destruct (Hin Hd) as (rly0 & E0 & E1).
        assert (rly0 = rly) as -> by congruence.
        exists (Received ly rly). split; [done|]. split; [apply Received_idemp|].
        simpl. rewrite Broadcast_length; done.
      - exists rly. rewrite (Hout Hd). done. }
    destruct Hcur as (rly1 & Hrly1 & Hsame & Hl1).
    rewrite Hrly1, (SendPVUnit_run _ _ Hl1). simpl.
    eexists. split; [done|].
    intros r'. rewrite Htk. destruct (Hinv r') as [Hout' Hin'].
    destruct (decide (r' = r)) as [->|Hne].
    + split.
      * intros Hnot. exfalso. apply Hnot. apply elem_of_app. right.
        by apply list_elem_of_singleton.
      * intros _. exists rly. rewrite lookup_insert_eq. split; [done|].
        f_equal. f_equal. exact Hsame.
    + rewrite lookup_insert_ne by done. split.
      * intros Hnot. apply Hout'. intros Hin. apply Hnot. apply elem_of_app. by left.
      * intros Hr'. apply Hin'. apply elem_of_app in Hr' as [Hr'|Hr']; [done|].
        apply list_elem_of_singleton in Hr'. done.
Qed.

(** X24. [SendPVAct] with receivers that have at least as many units as
    the source layer: every receiver gets the broadcast in its first
    [len(Neurons)] units, keeps its other units and its [IsPVReceiver] flag,
    and the other layers are not changed. *)
Theorem SendPVAct_exact (nt : gmap string (NetLayer F)) (ly : PVLayer.t F) :
  Receivers_fit nt ly →
  ∃ nt', SendPVAct nt ly = Some nt' ∧
    (∀ r, r ∈ PVLayer.PVReceivers ly →
       ∃ rly, nt !! r = Some (LMod rly) ∧
         nt' !! r = Some (LMod (ModLayer.mk
                                  (Broadcast (PVLayer.Neurons ly) (ModLayer.ModNeurs rly))
                                  (ModLayer.IsPVReceiver rly))) ∧
         ∀ pi : nat, (length (PVLayer.Neurons ly) ≤ pi)%nat →
           Broadcast (PVLayer.Neurons ly) (ModLayer.ModNeurs rly) !! pi
             = ModLayer.ModNeurs rly !! pi) ∧
    (∀ r, r ∉ PVLayer.PVReceivers ly → nt' !! r = nt !! r).
Proof.
  intros Hfit. destruct (SendPVAct_fit nt ly Hfit) as (nt' & Hrun & Hinv).
  exists nt'. split; [done|]. split.
  - intros r Hr. destruct (Hinv r) as [_ Hin].
    rewrite firstn_all in Hin. destruct (Hin Hr) as (rly & E0 & E1).
    exists rly. split; [done|]. split; [done|].
    intros pi Hpi. unfold Broadcast.
    rewrite lookup_app_r by (rewrite length_fmap; lia).
    rewrite length_fmap, lookup_drop. f_equal. lia.
  - intros r Hr. destruct (Hinv r) as [Hout _]. apply Hout. by rewrite firstn_all.
Qed.

Lemma SendPVTo_unfit (nt nt1 : gmap string (NetLayer F)) (ly : PVLayer.t F) li r :
  Receiver_unfit nt1 ly r → SendPVTo ly li r nt1 = None.
Proof.
  unfold Receiver_unfit, SendPVTo.
  destruct (nt1 !! r) as [[rly|]|]; [|done|done].
  intros Hl. by rewrite SendPVUnit_short.
Qed.

Lemma SendPVAct_unfit (nt : gmap string (NetLayer F)) (ly : PVLayer.t F)
  (r : string) :
  r ∈ PVLayer.PVReceivers ly → Receiver_unfit nt ly r → SendPVAct nt ly = None.
Proof.
  intros Hr Hbad. apply list_elem_of_lookup_1 in Hr as [k Hk].
  unfold SendPVAct.
  apply (for_state_stuck (λ nt1, Receiver_unfit nt1 ly r) _ _ _ k r);
    [done| |done|].
  - intros j y s1 s2 _ Hb Hstep.
    destruct (decide (y = r)) as [->|Hne].
    + by rewrite (SendPVTo_unfit nt) in Hstep.
    + unfold SendPVTo in Hstep.
      destruct (s1 !! y) as [[rly|]|]; [|done|done].
      destruct (Go.for_state _ _ _ _); simpl in Hstep; [|done].
      injection Hstep as <-. unfold Receiver_unfit.
      by rewrite lookup_insert_ne.
  - intros s1 Hb. by apply (SendPVTo_unfit nt).
Qed.

Lemma unfit_or_fit (nt : gmap string (NetLayer F)) (ly : PVLayer.t F) :
  Receivers_fit nt ly ∨ ∃ r, r ∈ PVLayer.PVReceivers ly ∧ Receiver_unfit nt ly r.
Proof.
  unfold Receivers_fit.
  induction (PVLayer.PVReceivers ly) as [|r l IH].
  { left. intros r Hr. by apply elem_of_nil in Hr. }
  destruct IH as [IH|(r' & Hr' & Hbad)].
  2:{ right. exists r'. split; [by apply elem_of_cons; right|done]. }
  destruct (nt !! r) as [[rly|]|] eqn:Hlk.
  - destruct (decide (length (PVLayer.Neurons ly) ≤ length (ModLayer.ModNeurs rly))%nat)
      as [Hle|Hgt].
    + left. intros r' Hr'. apply elem_of_cons in Hr' as [->|Hr']; [|by apply IH].
      by exists rly.
    + right. exists r. split; [by apply elem_of_cons; left|].
      unfold Receiver_unfit. rewrite Hlk. lia.
  - right. exists r. split; [by apply elem_of_cons; left|].
    unfold Receiver_unfit. by rewrite Hlk.
  - right. exists r. split; [by apply elem_of_cons; left|].
    unfold Receiver_unfit. by rewrite Hlk.
Qed.

(** X25. [SendPVAct] panics exactly when one of the registered receivers
    is absent, is a layer without [ModNeurs], or has fewer units than the
    source layer. *)
Theorem SendPVAct_panics_iff (nt : gmap string (NetLayer F)) (ly : PVLayer.t F) :
  SendPVAct nt ly = None ↔
  ∃ r, r ∈ PVLayer.PVReceivers ly ∧ Receiver_unfit nt ly r.
Proof.
  split.
  - intros Hnone. destruct (unfit_or_fit nt ly) as [Hfit|Hbad]; [|done].
    destruct (SendPVAct_fit nt ly Hfit) as (nt' & Hrun & _). congruence.
  - intros (r & Hr & Hbad). by apply (SendPVAct_unfit nt ly r).
Qed.

(** X26. [SendPVAct] is idempotent: repeated on the network it returns, it
    returns the same network. *)
Theorem SendPVAct_idempotent (nt nt' : gmap string (NetLayer F)) (ly : PVLayer.t F) :
  SendPVAct nt ly = Some nt' → SendPVAct nt' ly = Some nt'.
Proof.
  intros Hrun.
  destruct (unfit_or_fit nt ly) as [Hfit|(r & Hr & Hbad)].
  2:{ by rewrite (SendPVAct_unfit nt ly r Hr Hbad) in Hrun. }
  destruct (SendPVAct_fit nt ly Hfit) as (nt1 & Hrun1 & Hinv).
  assert (nt1 = nt') as -> by congruence.
  assert (Hfit' : Receivers_fit nt' ly).
  { intros r Hr. destruct (Hinv r) as [_ Hin]. rewrite firstn_all in Hin.
    destruct (Hin Hr) as (rly & E0 & E1). exists (Received ly rly).
    split; [done|]. simpl. destruct (Hfit r Hr) as (rly0 & E2 & Hl).
    assert (rly0 = rly) as -> by congruence.
    by rewrite Broadcast_length. }
  destruct (SendPVAct_fit nt' ly Hfit') as (nt2 & Hrun2 & Hinv2).
  rewrite Hrun2. f_equal. apply map_eq. intros r.
  destruct (Hinv r) as [Hout Hin]. destruct (Hinv2 r) as [Hout2 Hin2].
  rewrite firstn_all in Hout, Hin, Hout2, Hin2.
  destruct (decide (r ∈ PVLayer.PVReceivers ly)) as [Hr|Hr].
  - destruct (Hin Hr) as (rly & E0 & E1).
    destruct (Hin2 Hr) as (rly2 & E2 & E3).
    rewrite E3, E1. rewrite E1 in E2. injection E2 as <-.
    by rewrite Received_idemp.
  - by apply Hout2.
Qed.

End pv_more.

(** ** [AddPVReceiver] and [PVLayer.Build] *)

Section pv_reg.
Import leabra pvlv.
Context {F : Type} `{Float32 F}.

(** X27. For a layer with [ModNeurs], [AddPVReceiver] appends its name to
    the receivers, sets its [IsPVReceiver] flag and changes nothing else;
    when the earlier receivers and this layer have a unit for every unit of
    the source, the next [SendPVAct] returns and leaves the broadcast in
    this layer. *)
Theorem AddPVReceiver_then_send (nt : gmap string (NetLayer F))
  (ly : PVLayer.t F) (lyNm : string) (rly : ModLayer.t F) :
  nt !! lyNm = Some (LMod rly) →
  Receivers_fit nt ly →
  (length (PVLayer.Neurons ly) ≤ length (ModLayer.ModNeurs rly))%nat →
  ∃ nt1 ly1 nt2,
    AddPVReceiver nt ly lyNm = Some (nt1, ly1) ∧
    PVLayer.PVReceivers ly1 = PVLayer.PVReceivers ly ++ [lyNm] ∧
    PVLayer.Neurons ly1 = PVLayer.Neurons ly ∧
    PVLayer.SendPVQuarter ly1 = PVLayer.SendPVQuarter ly ∧
    nt1 !! lyNm = Some (LMod (ModLayer.mk (ModLayer.ModNeurs rly) true)) ∧
    (∀ k, k ≠ lyNm → nt1 !! k = nt !! k) ∧
    SendPVAct nt1 ly1 = Some nt2 ∧
    nt2 !! lyNm =
      Some (LMod (ModLayer.mk
                    (Broadcast (PVLayer.Neurons ly) (ModLayer.ModNeurs rly)) true)).
Proof.
  intros Hlk Hfit Hl. unfold AddPVReceiver. rewrite Hlk.
  set (nt1 := <[lyNm := LMod (ModLayer.mk (ModLayer.ModNeurs rly) true)]> nt).
  set (ly1 := PVLayer.mk (PVLayer.Neurons ly) (PVLayer.SendPVQuarter ly)
                (PVLayer.PVReceivers ly ++ [lyNm])).
  assert (Hfit1 : Receivers_fit nt1 ly1).
  { intros r Hr. unfold nt1. destruct (decide (r = lyNm)) as [->|Hne].
    - rewrite lookup_insert_eq. eexists. split; [done|]. done.
    - rewrite lookup_insert_ne by done. apply Hfit.
      simpl in Hr. apply elem_of_app in Hr as [Hr|Hr]; [done|].
      by apply list_elem_of_singleton in Hr. }
  destruct (SendPVAct_fit nt1 ly1 Hfit1) as (nt2 & Hrun & Hinv).
  exists nt1, ly1, nt2. split; [done|]. split; [done|]. split; [done|].
  split; [done|]. split. { unfold nt1. by rewrite lookup_insert_eq. }
  split. { intros k Hk. unfold nt1. by rewrite lookup_insert_ne. }
  split; [done|].
  destruct (Hinv lyNm) as [_ Hin]. rewrite firstn_all in Hin.
  destruct Hin as (rly1 & E0 & E1).
  { simpl. apply elem_of_app. right. by apply list_elem_of_singleton. }
  unfold nt1 in E0. rewrite lookup_insert_eq in E0. injection E0 as <-.
  exact E1.
Qed.

(** X28. [PVLayer.Build] returns the error of [Layer.Build] and keeps the
    receivers; with no error it sets the send quarter to [Q4], so that
    [CyclePost] broadcasts in quarter [Q4] and in no other; with an error
    the send quarter stays as it was. *)
Theorem Build_send_quarter (Q4 : Z)
  (LayerBuild : list (Neuron.t F) → list (Neuron.t F) * option string)
  (nt : gmap string (NetLayer F)) (ly : PVLayer.t F) (ltime : Time.t) :
  let b := Build Q4 LayerBuild ly in
  snd b = snd (LayerBuild (PVLayer.Neurons ly)) ∧
  PVLayer.Neurons (fst b) = fst (LayerBuild (PVLayer.Neurons ly)) ∧
  PVLayer.PVReceivers (fst b) = PVLayer.PVReceivers ly ∧
  PVLayer.SendPVQuarter (fst b) =
    match snd b with Some _ => PVLayer.SendPVQuarter ly | None => Q4 end ∧
  (snd b = None →
   CyclePost nt (fst b) ltime =
     if Time.Quarter ltime =? Q4 then SendPVAct nt (fst b) else Some nt).
Proof.
  intros b. subst b. unfold Build.
  destruct (LayerBuild (PVLayer.Neurons ly)) as [nrns [e|]]; simpl.
  - repeat split; done.
  - repeat split; done.
Qed.

End pv_reg.

(** Runs of the PV layer on the examples. *)

Section pvlv_more_runs.
Import leabra pvlv.

Lemma Ex_wide_fit : Receivers_fit Ex.vnet_mixed (Ex.pv_to ["Wide"%string]).
Proof.
  intros r Hr. apply list_elem_of_singleton in Hr as ->.
  eexists. split; [reflexivity|]. simpl. lia.
Qed.

Lemma SendPVAct_exact_witness :
  ∃ nt' rly',
    SendPVAct Ex.vnet_mixed (Ex.pv_to ["Wide"%string]) = Some nt' ∧
    nt' !! "Wide"%string = Some (LMod rly') ∧
    ModLayer.ModNeurs rly' !! 2%nat = Some (ModNeuron.mk 5%Q).
Proof.
  destruct (SendPVAct_exact _ _ Ex_wide_fit) as (nt' & Hrun & Hin & _).
  destruct (Hin "Wide"%string) as (rly & E0 & E1 & Hrest).
  { by apply list_elem_of_singleton. }
  vm_compute in E0. injection E0 as <-.
  eexists nt', _. split; [done|]. split; [exact E1|].
  exact (Hrest 2%nat ltac:(simpl; lia)).
Defined.

Lemma SendPVAct_panics_iff_witness :
  SendPVAct Ex.vnet_mixed (Ex.pv_to ["Wide"; "Narrow"]%string) = None.
Proof.
  apply SendPVAct_panics_iff. exists "Narrow"%string. split.
  - apply elem_of_cons. right. by apply list_elem_of_singleton.
  - vm_compute. lia.
Defined.

Lemma SendPVAct_idempotent_witness :
  ∃ nt', SendPVAct Ex.vnet Ex.pv = Some nt' ∧ SendPVAct nt' Ex.pv = Some nt'.
Proof.
  destruct (SendPVAct Ex.vnet Ex.pv) as [nt'|] eqn:E; [|by vm_compute in E].
  exists nt'. split; [done|]. by apply (SendPVAct_idempotent Ex.vnet).
Defined.

Lemma AddPVReceiver_then_send_witness :
  ∃ nt1 ly1 nt2,
    AddPVReceiver Ex.vnet_mixed (Ex.pv_to []) "Wide" = Some (nt1, ly1) ∧
    SendPVAct nt1 ly1 = Some nt2 ∧
    nt2 !! "Wide"%string =
      Some (LMod (ModLayer.mk
                    (Broadcast (PVLayer.Neurons Ex.pv)
                       [ModNeuron.mk 0%Q; ModNeuron.mk 0%Q; ModNeuron.mk 5%Q]) true)).
Proof.
  destruct (AddPVReceiver_then_send Ex.vnet_mixed (Ex.pv_to []) "Wide"
              (ModLayer.mk [ModNeuron.mk 0%Q; ModNeuron.mk 0%Q; ModNeuron.mk 5%Q] false))
    as (nt1 & ly1 & nt2 & H1 & _ & _ & _ & _ & _ & H2 & H3).
  - reflexivity.
  - intros r Hr. by apply elem_of_nil in Hr.
  - simpl. lia.
  - exists nt1, ly1, nt2. done.
Defined.

Lemma Build_send_quarter_witness :
  CyclePost Ex.vnet (fst (Build 3 (λ nrns, (nrns, None)) (Ex.pv_to ["VSPatch"%string])))
    (Time.mk 0 2) = Some Ex.vnet.
Proof.
  destruct (Build_send_quarter 3 (λ nrns, (nrns, None)) Ex.vnet
              (Ex.pv_to ["VSPatch"%string]) (Time.mk 0 2)) as (_ & _ & _ & _ & Hc).
  exact (Hc eq_refl).
Defined.

End pvlv_more_runs.
